(** * Weather-Application: a shallow embedding of the gateway, the scheduler
    and the local user registry, with the properties of its specification.

    Sources embedded below:
    - [js/config.js]                 the frozen [CONFIG] object;
    - [js/weather.js] (part_000)     class [WeatherService];
    - [js/app.js]     (part_001)     class [WeatherApp];
    - [js/user.js]                   class [UserService];
    - [js/maps.js]                   class [MapsService].

    Conventions.  A JavaScript string is a Rocq [string] (its UTF-8 bytes);
    [toLowerCase] and [toUpperCase] map its code points by the tables of
    Unicode ([Unicode]).  A number is a [JS.number]: the
    exact rational value of a finite double, NaN or an infinity; timestamps
    are integers.  An array is a [list]; an object of a fixed shape is a
    [Record]; an object built from a literal whose property names matter is
    a property list.  [window.localStorage] is a finite map from keys to the
    values [JSON.parse] reads back; [JSON.stringify] followed by [JSON.parse]
    is taken to be the identity on what the application stores.

    Effects.  The scheduler runs in a [World]: the fields of the instance,
    the part of the page it reads and writes, and the browser (clock, pending
    timers, notification permission, storage, notifications raised, requests
    sent).  The upstream provider is a parameter: a function from requests to
    answers.  An [async] method is run to its end, each [await] resumed with
    the provider's answer; callbacks that the event loop could run while a
    method is suspended are not interleaved.  An exception is a [Throw]
    result carrying the [Error]; [try]/[catch]/[finally] are written out.
    The page has the elements the scripts look up, and a parsed answer has
    the shape the provider documents, except that the parts of the combined
    answer ([daily], [hourly], [alerts]) may be missing.  Drawing the weather
    panels then throws in one case, a combined answer without its daily
    forecast ([WeatherApp.updateWeatherUI]); the calls into Leaflet are taken
    not to throw.  The entries the panels select and the
    maps service are modelled on their own ([Display], [MapsService]). *)

From Stdlib Require Import ZArith QArith Qabs String Ascii List Bool Lia DecimalString.
From stdpp Require Import gmap strings list.
Import ListNotations.

Open Scope string_scope.

(** ** Unicode case mapping

    [String.prototype.toLowerCase] and [toUpperCase] apply the Unicode
    Default Case Conversion to the code points of the string: the mappings of
    UnicodeData.txt, the unconditional mappings of SpecialCasing.txt, and the
    one condition of that file which does not depend on the language,
    Final_Sigma.  The tables are those of Unicode 14.0. *)

Module Unicode.

(** A row [(first, last, step, image)] maps the code points [first],
    [first + step], ..., [last] to [image], [image + step], ...; the rows are
    sorted and do not overlap.  A code point in no row is mapped to itself. *)
Fixpoint mapped (rows : list (N * N * N * N)) (c : N) : N :=
  match rows with
  | [] => c
  | (first, last, step, image) :: rest =>
      if (c <? first)%N then c
      else if (c <=? last)%N && ((c - first) mod step =? 0)%N then (c - first + image)%N
      else mapped rest c
  end.

(** The entry of [c] in a sorted table. *)
Fixpoint listed {A} (table : list (N * A)) (c : N) : option A :=
  match table with
  | [] => None
  | (key, entry) :: rest =>
      if (c <? key)%N then None
      else if (c =? key)%N then Some entry
      else listed rest c
  end.

(** [c] lies in one of the sorted ranges [(first, last)]. *)
Fixpoint among (ranges : list (N * N)) (c : N) : bool :=
  match ranges with
  | [] => false
  | (first, last) :: rest =>
      if (c <? first)%N then false
      else if (c <=? last)%N then true
      else among rest c
  end.

(** The lower-case mappings of UnicodeData.txt (one code point each). *)
Definition LOWER : list (N * N * N * N) :=
  [(0x41, 0x5A, 1, 0x61); (0xC0, 0xD6, 1, 0xE0); (0xD8, 0xDE, 1, 0xF8);
   (0x100, 0x12E, 2, 0x101); (0x132, 0x136, 2, 0x133); (0x139, 0x147, 2, 0x13A);
   (0x14A, 0x176, 2, 0x14B); (0x178, 0x178, 1, 0xFF); (0x179, 0x17D, 2, 0x17A);
   (0x181, 0x181, 1, 0x253); (0x182, 0x184, 2, 0x183); (0x186, 0x186, 1, 0x254);
   (0x187, 0x187, 1, 0x188); (0x189, 0x18A, 1, 0x256); (0x18B, 0x18B, 1, 0x18C);
   (0x18E, 0x18E, 1, 0x1DD); (0x18F, 0x18F, 1, 0x259); (0x190, 0x190, 1, 0x25B);
   (0x191, 0x191, 1, 0x192); (0x193, 0x193, 1, 0x260); (0x194, 0x194, 1, 0x263);
   (0x196, 0x196, 1, 0x269); (0x197, 0x197, 1, 0x268); (0x198, 0x198, 1, 0x199);
   (0x19C, 0x19C, 1, 0x26F); (0x19D, 0x19D, 1, 0x272); (0x19F, 0x19F, 1, 0x275);
   (0x1A0, 0x1A4, 2, 0x1A1); (0x1A6, 0x1A6, 1, 0x280); (0x1A7, 0x1A7, 1, 0x1A8);
   (0x1A9, 0x1A9, 1, 0x283); (0x1AC, 0x1AC, 1, 0x1AD); (0x1AE, 0x1AE, 1, 0x288);
   (0x1AF, 0x1AF, 1, 0x1B0); (0x1B1, 0x1B2, 1, 0x28A); (0x1B3, 0x1B5, 2, 0x1B4);
   (0x1B7, 0x1B7, 1, 0x292); (0x1B8, 0x1B8, 1, 0x1B9); (0x1BC, 0x1BC, 1, 0x1BD);
   (0x1C4, 0x1C4, 1, 0x1C6); (0x1C5, 0x1C5, 1, 0x1C6); (0x1C7, 0x1C7, 1, 0x1C9);
   (0x1C8, 0x1C8, 1, 0x1C9); (0x1CA, 0x1CA, 1, 0x1CC); (0x1CB, 0x1DB, 2, 0x1CC);
   (0x1DE, 0x1EE, 2, 0x1DF); (0x1F1, 0x1F1, 1, 0x1F3); (0x1F2, 0x1F4, 2, 0x1F3);
   (0x1F6, 0x1F6, 1, 0x195); (0x1F7, 0x1F7, 1, 0x1BF); (0x1F8, 0x21E, 2, 0x1F9);
   (0x220, 0x220, 1, 0x19E); (0x222, 0x232, 2, 0x223); (0x23A, 0x23A, 1, 0x2C65);
   (0x23B, 0x23B, 1, 0x23C); (0x23D, 0x23D, 1, 0x19A); (0x23E, 0x23E, 1, 0x2C66);
   (0x241, 0x241, 1, 0x242); (0x243, 0x243, 1, 0x180); (0x244, 0x244, 1, 0x289);
   (0x245, 0x245, 1, 0x28C); (0x246, 0x24E, 2, 0x247); (0x370, 0x372, 2, 0x371);
   (0x376, 0x376, 1, 0x377); (0x37F, 0x37F, 1, 0x3F3); (0x386, 0x386, 1, 0x3AC);
   (0x388, 0x38A, 1, 0x3AD); (0x38C, 0x38C, 1, 0x3CC); (0x38E, 0x38F, 1, 0x3CD);
   (0x391, 0x3A1, 1, 0x3B1); (0x3A3, 0x3AB, 1, 0x3C3); (0x3CF, 0x3CF, 1, 0x3D7);
   (0x3D8, 0x3EE, 2, 0x3D9); (0x3F4, 0x3F4, 1, 0x3B8); (0x3F7, 0x3F7, 1, 0x3F8);
   (0x3F9, 0x3F9, 1, 0x3F2); (0x3FA, 0x3FA, 1, 0x3FB); (0x3FD, 0x3FF, 1, 0x37B);
   (0x400, 0x40F, 1, 0x450); (0x410, 0x42F, 1, 0x430); (0x460, 0x480, 2, 0x461);
   (0x48A, 0x4BE, 2, 0x48B); (0x4C0, 0x4C0, 1, 0x4CF); (0x4C1, 0x4CD, 2, 0x4C2);
   (0x4D0, 0x52E, 2, 0x4D1); (0x531, 0x556, 1, 0x561); (0x10A0, 0x10C5, 1, 0x2D00);
   (0x10C7, 0x10C7, 1, 0x2D27); (0x10CD, 0x10CD, 1, 0x2D2D); (0x13A0, 0x13EF, 1, 0xAB70);
   (0x13F0, 0x13F5, 1, 0x13F8); (0x1C90, 0x1CBA, 1, 0x10D0); (0x1CBD, 0x1CBF, 1, 0x10FD);
   (0x1E00, 0x1E94, 2, 0x1E01); (0x1E9E, 0x1E9E, 1, 0xDF); (0x1EA0, 0x1EFE, 2, 0x1EA1);
   (0x1F08, 0x1F0F, 1, 0x1F00); (0x1F18, 0x1F1D, 1, 0x1F10); (0x1F28, 0x1F2F, 1, 0x1F20);
   (0x1F38, 0x1F3F, 1, 0x1F30); (0x1F48, 0x1F4D, 1, 0x1F40); (0x1F59, 0x1F5F, 2, 0x1F51);
   (0x1F68, 0x1F6F, 1, 0x1F60); (0x1F88, 0x1F8F, 1, 0x1F80); (0x1F98, 0x1F9F, 1, 0x1F90);
   (0x1FA8, 0x1FAF, 1, 0x1FA0); (0x1FB8, 0x1FB9, 1, 0x1FB0); (0x1FBA, 0x1FBB, 1, 0x1F70);
   (0x1FBC, 0x1FBC, 1, 0x1FB3); (0x1FC8, 0x1FCB, 1, 0x1F72); (0x1FCC, 0x1FCC, 1, 0x1FC3);
   (0x1FD8, 0x1FD9, 1, 0x1FD0); (0x1FDA, 0x1FDB, 1, 0x1F76); (0x1FE8, 0x1FE9, 1, 0x1FE0);
   (0x1FEA, 0x1FEB, 1, 0x1F7A); (0x1FEC, 0x1FEC, 1, 0x1FE5); (0x1FF8, 0x1FF9, 1, 0x1F78);
   (0x1FFA, 0x1FFB, 1, 0x1F7C); (0x1FFC, 0x1FFC, 1, 0x1FF3); (0x2126, 0x2126, 1, 0x3C9);
   (0x212A, 0x212A, 1, 0x6B); (0x212B, 0x212B, 1, 0xE5); (0x2132, 0x2132, 1, 0x214E);
   (0x2160, 0x216F, 1, 0x2170); (0x2183, 0x2183, 1, 0x2184); (0x24B6, 0x24CF, 1, 0x24D0);
   (0x2C00, 0x2C2F, 1, 0x2C30); (0x2C60, 0x2C60, 1, 0x2C61); (0x2C62, 0x2C62, 1, 0x26B);
   (0x2C63, 0x2C63, 1, 0x1D7D); (0x2C64, 0x2C64, 1, 0x27D); (0x2C67, 0x2C6B, 2, 0x2C68);
   (0x2C6D, 0x2C6D, 1, 0x251); (0x2C6E, 0x2C6E, 1, 0x271); (0x2C6F, 0x2C6F, 1, 0x250);
   (0x2C70, 0x2C70, 1, 0x252); (0x2C72, 0x2C72, 1, 0x2C73); (0x2C75, 0x2C75, 1, 0x2C76);
   (0x2C7E, 0x2C7F, 1, 0x23F); (0x2C80, 0x2CE2, 2, 0x2C81); (0x2CEB, 0x2CED, 2, 0x2CEC);
   (0x2CF2, 0x2CF2, 1, 0x2CF3); (0xA640, 0xA66C, 2, 0xA641); (0xA680, 0xA69A, 2, 0xA681);
   (0xA722, 0xA72E, 2, 0xA723); (0xA732, 0xA76E, 2, 0xA733); (0xA779, 0xA77B, 2, 0xA77A);
   (0xA77D, 0xA77D, 1, 0x1D79); (0xA77E, 0xA786, 2, 0xA77F); (0xA78B, 0xA78B, 1, 0xA78C);
   (0xA78D, 0xA78D, 1, 0x265); (0xA790, 0xA792, 2, 0xA791); (0xA796, 0xA7A8, 2, 0xA797);
   (0xA7AA, 0xA7AA, 1, 0x266); (0xA7AB, 0xA7AB, 1, 0x25C); (0xA7AC, 0xA7AC, 1, 0x261);
   (0xA7AD, 0xA7AD, 1, 0x26C); (0xA7AE, 0xA7AE, 1, 0x26A); (0xA7B0, 0xA7B0, 1, 0x29E);
   (0xA7B1, 0xA7B1, 1, 0x287); (0xA7B2, 0xA7B2, 1, 0x29D); (0xA7B3, 0xA7B3, 1, 0xAB53);
   (0xA7B4, 0xA7C2, 2, 0xA7B5); (0xA7C4, 0xA7C4, 1, 0xA794); (0xA7C5, 0xA7C5, 1, 0x282);
   (0xA7C6, 0xA7C6, 1, 0x1D8E); (0xA7C7, 0xA7C9, 2, 0xA7C8); (0xA7D0, 0xA7D0, 1, 0xA7D1);
   (0xA7D6, 0xA7D8, 2, 0xA7D7); (0xA7F5, 0xA7F5, 1, 0xA7F6); (0xFF21, 0xFF3A, 1, 0xFF41);
   (0x10400, 0x10427, 1, 0x10428); (0x104B0, 0x104D3, 1, 0x104D8);
   (0x10570, 0x1057A, 1, 0x10597); (0x1057C, 0x1058A, 1, 0x105A3);
   (0x1058C, 0x10592, 1, 0x105B3); (0x10594, 0x10595, 1, 0x105BB);
   (0x10C80, 0x10CB2, 1, 0x10CC0); (0x118A0, 0x118BF, 1, 0x118C0);
   (0x16E40, 0x16E5F, 1, 0x16E60); (0x1E900, 0x1E921, 1, 0x1E922)]%N.

(** The upper-case mappings of UnicodeData.txt (one code point each), for
    the code points that SpecialCasing.txt does not list. *)
Definition UPPER : list (N * N * N * N) :=
  [(0x61, 0x7A, 1, 0x41); (0xB5, 0xB5, 1, 0x39C); (0xE0, 0xF6, 1, 0xC0);
   (0xF8, 0xFE, 1, 0xD8); (0xFF, 0xFF, 1, 0x178); (0x101, 0x12F, 2, 0x100);
   (0x131, 0x131, 1, 0x49); (0x133, 0x137, 2, 0x132); (0x13A, 0x148, 2, 0x139);
   (0x14B, 0x177, 2, 0x14A); (0x17A, 0x17E, 2, 0x179); (0x17F, 0x17F, 1, 0x53);
   (0x180, 0x180, 1, 0x243); (0x183, 0x185, 2, 0x182); (0x188, 0x188, 1, 0x187);
   (0x18C, 0x18C, 1, 0x18B); (0x192, 0x192, 1, 0x191); (0x195, 0x195, 1, 0x1F6);
   (0x199, 0x199, 1, 0x198); (0x19A, 0x19A, 1, 0x23D); (0x19E, 0x19E, 1, 0x220);
   (0x1A1, 0x1A5, 2, 0x1A0); (0x1A8, 0x1A8, 1, 0x1A7); (0x1AD, 0x1AD, 1, 0x1AC);
   (0x1B0, 0x1B0, 1, 0x1AF); (0x1B4, 0x1B6, 2, 0x1B3); (0x1B9, 0x1B9, 1, 0x1B8);
   (0x1BD, 0x1BD, 1, 0x1BC); (0x1BF, 0x1BF, 1, 0x1F7); (0x1C5, 0x1C5, 1, 0x1C4);
   (0x1C6, 0x1C6, 1, 0x1C4); (0x1C8, 0x1C8, 1, 0x1C7); (0x1C9, 0x1C9, 1, 0x1C7);
   (0x1CB, 0x1CB, 1, 0x1CA); (0x1CC, 0x1CC, 1, 0x1CA); (0x1CE, 0x1DC, 2, 0x1CD);
   (0x1DD, 0x1DD, 1, 0x18E); (0x1DF, 0x1EF, 2, 0x1DE); (0x1F2, 0x1F2, 1, 0x1F1);
   (0x1F3, 0x1F3, 1, 0x1F1); (0x1F5, 0x1F5, 1, 0x1F4); (0x1F9, 0x21F, 2, 0x1F8);
   (0x223, 0x233, 2, 0x222); (0x23C, 0x23C, 1, 0x23B); (0x23F, 0x240, 1, 0x2C7E);
   (0x242, 0x242, 1, 0x241); (0x247, 0x24F, 2, 0x246); (0x250, 0x250, 1, 0x2C6F);
   (0x251, 0x251, 1, 0x2C6D); (0x252, 0x252, 1, 0x2C70); (0x253, 0x253, 1, 0x181);
   (0x254, 0x254, 1, 0x186); (0x256, 0x257, 1, 0x189); (0x259, 0x259, 1, 0x18F);
   (0x25B, 0x25B, 1, 0x190); (0x25C, 0x25C, 1, 0xA7AB); (0x260, 0x260, 1, 0x193);
   (0x261, 0x261, 1, 0xA7AC); (0x263, 0x263, 1, 0x194); (0x265, 0x265, 1, 0xA78D);
   (0x266, 0x266, 1, 0xA7AA); (0x268, 0x268, 1, 0x197); (0x269, 0x269, 1, 0x196);
   (0x26A, 0x26A, 1, 0xA7AE); (0x26B, 0x26B, 1, 0x2C62); (0x26C, 0x26C, 1, 0xA7AD);
   (0x26F, 0x26F, 1, 0x19C); (0x271, 0x271, 1, 0x2C6E); (0x272, 0x272, 1, 0x19D);
   (0x275, 0x275, 1, 0x19F); (0x27D, 0x27D, 1, 0x2C64); (0x280, 0x280, 1, 0x1A6);
   (0x282, 0x282, 1, 0xA7C5); (0x283, 0x283, 1, 0x1A9); (0x287, 0x287, 1, 0xA7B1);
   (0x288, 0x288, 1, 0x1AE); (0x289, 0x289, 1, 0x244); (0x28A, 0x28B, 1, 0x1B1);
   (0x28C, 0x28C, 1, 0x245); (0x292, 0x292, 1, 0x1B7); (0x29D, 0x29D, 1, 0xA7B2);
   (0x29E, 0x29E, 1, 0xA7B0); (0x345, 0x345, 1, 0x399); (0x371, 0x373, 2, 0x370);
   (0x377, 0x377, 1, 0x376); (0x37B, 0x37D, 1, 0x3FD); (0x3AC, 0x3AC, 1, 0x386);
   (0x3AD, 0x3AF, 1, 0x388); (0x3B1, 0x3C1, 1, 0x391); (0x3C2, 0x3C2, 1, 0x3A3);
   (0x3C3, 0x3CB, 1, 0x3A3); (0x3CC, 0x3CC, 1, 0x38C); (0x3CD, 0x3CE, 1, 0x38E);
   (0x3D0, 0x3D0, 1, 0x392); (0x3D1, 0x3D1, 1, 0x398); (0x3D5, 0x3D5, 1, 0x3A6);
   (0x3D6, 0x3D6, 1, 0x3A0); (0x3D7, 0x3D7, 1, 0x3CF); (0x3D9, 0x3EF, 2, 0x3D8);
   (0x3F0, 0x3F0, 1, 0x39A); (0x3F1, 0x3F1, 1, 0x3A1); (0x3F2, 0x3F2, 1, 0x3F9);
   (0x3F3, 0x3F3, 1, 0x37F); (0x3F5, 0x3F5, 1, 0x395); (0x3F8, 0x3F8, 1, 0x3F7);
   (0x3FB, 0x3FB, 1, 0x3FA); (0x430, 0x44F, 1, 0x410); (0x450, 0x45F, 1, 0x400);
   (0x461, 0x481, 2, 0x460); (0x48B, 0x4BF, 2, 0x48A); (0x4C2, 0x4CE, 2, 0x4C1);
   (0x4CF, 0x4CF, 1, 0x4C0); (0x4D1, 0x52F, 2, 0x4D0); (0x561, 0x586, 1, 0x531);
   (0x10D0, 0x10FA, 1, 0x1C90); (0x10FD, 0x10FF, 1, 0x1CBD); (0x13F8, 0x13FD, 1, 0x13F0);
   (0x1C80, 0x1C80, 1, 0x412); (0x1C81, 0x1C81, 1, 0x414); (0x1C82, 0x1C82, 1, 0x41E);
   (0x1C83, 0x1C84, 1, 0x421); (0x1C85, 0x1C85, 1, 0x422); (0x1C86, 0x1C86, 1, 0x42A);
   (0x1C87, 0x1C87, 1, 0x462); (0x1C88, 0x1C88, 1, 0xA64A); (0x1D79, 0x1D79, 1, 0xA77D);
   (0x1D7D, 0x1D7D, 1, 0x2C63); (0x1D8E, 0x1D8E, 1, 0xA7C6); (0x1E01, 0x1E95, 2, 0x1E00);
   (0x1E9B, 0x1E9B, 1, 0x1E60); (0x1EA1, 0x1EFF, 2, 0x1EA0); (0x1F00, 0x1F07, 1, 0x1F08);
   (0x1F10, 0x1F15, 1, 0x1F18); (0x1F20, 0x1F27, 1, 0x1F28); (0x1F30, 0x1F37, 1, 0x1F38);
   (0x1F40, 0x1F45, 1, 0x1F48); (0x1F51, 0x1F57, 2, 0x1F59); (0x1F60, 0x1F67, 1, 0x1F68);
   (0x1F70, 0x1F71, 1, 0x1FBA); (0x1F72, 0x1F75, 1, 0x1FC8); (0x1F76, 0x1F77, 1, 0x1FDA);
   (0x1F78, 0x1F79, 1, 0x1FF8); (0x1F7A, 0x1F7B, 1, 0x1FEA); (0x1F7C, 0x1F7D, 1, 0x1FFA);
   (0x1FB0, 0x1FB1, 1, 0x1FB8); (0x1FBE, 0x1FBE, 1, 0x399); (0x1FD0, 0x1FD1, 1, 0x1FD8);
   (0x1FE0, 0x1FE1, 1, 0x1FE8); (0x1FE5, 0x1FE5, 1, 0x1FEC); (0x214E, 0x214E, 1, 0x2132);
   (0x2170, 0x217F, 1, 0x2160); (0x2184, 0x2184, 1, 0x2183); (0x24D0, 0x24E9, 1, 0x24B6);
   (0x2C30, 0x2C5F, 1, 0x2C00); (0x2C61, 0x2C61, 1, 0x2C60); (0x2C65, 0x2C65, 1, 0x23A);
   (0x2C66, 0x2C66, 1, 0x23E); (0x2C68, 0x2C6C, 2, 0x2C67); (0x2C73, 0x2C73, 1, 0x2C72);
   (0x2C76, 0x2C76, 1, 0x2C75); (0x2C81, 0x2CE3, 2, 0x2C80); (0x2CEC, 0x2CEE, 2, 0x2CEB);
   (0x2CF3, 0x2CF3, 1, 0x2CF2); (0x2D00, 0x2D25, 1, 0x10A0); (0x2D27, 0x2D27, 1, 0x10C7);
   (0x2D2D, 0x2D2D, 1, 0x10CD); (0xA641, 0xA66D, 2, 0xA640); (0xA681, 0xA69B, 2, 0xA680);
   (0xA723, 0xA72F, 2, 0xA722); (0xA733, 0xA76F, 2, 0xA732); (0xA77A, 0xA77C, 2, 0xA779);
   (0xA77F, 0xA787, 2, 0xA77E); (0xA78C, 0xA78C, 1, 0xA78B); (0xA791, 0xA793, 2, 0xA790);
   (0xA794, 0xA794, 1, 0xA7C4); (0xA797, 0xA7A9, 2, 0xA796); (0xA7B5, 0xA7C3, 2, 0xA7B4);
   (0xA7C8, 0xA7CA, 2, 0xA7C7); (0xA7D1, 0xA7D1, 1, 0xA7D0); (0xA7D7, 0xA7D9, 2, 0xA7D6);
   (0xA7F6, 0xA7F6, 1, 0xA7F5); (0xAB53, 0xAB53, 1, 0xA7B3); (0xAB70, 0xABBF, 1, 0x13A0);
   (0xFF41, 0xFF5A, 1, 0xFF21); (0x10428, 0x1044F, 1, 0x10400);
   (0x104D8, 0x104FB, 1, 0x104B0); (0x10597, 0x105A1, 1, 0x10570);
   (0x105A3, 0x105B1, 1, 0x1057C); (0x105B3, 0x105B9, 1, 0x1058C);
   (0x105BB, 0x105BC, 1, 0x10594); (0x10CC0, 0x10CF2, 1, 0x10C80);
   (0x118C0, 0x118DF, 1, 0x118A0); (0x16E60, 0x16E7F, 1, 0x16E40);
   (0x1E922, 0x1E943, 1, 0x1E900)]%N.

(** The unconditional upper-case mappings of SpecialCasing.txt (several code
    points each). *)
Definition UPPER_SPECIAL : list (N * list N) :=
  [(0xDF, [0x53; 0x53]); (0x149, [0x2BC; 0x4E]); (0x1F0, [0x4A; 0x30C]);
   (0x390, [0x399; 0x308; 0x301]); (0x3B0, [0x3A5; 0x308; 0x301]);
   (0x587, [0x535; 0x552]); (0x1E96, [0x48; 0x331]); (0x1E97, [0x54; 0x308]);
   (0x1E98, [0x57; 0x30A]); (0x1E99, [0x59; 0x30A]); (0x1E9A, [0x41; 0x2BE]);
   (0x1F50, [0x3A5; 0x313]); (0x1F52, [0x3A5; 0x313; 0x300]);
   (0x1F54, [0x3A5; 0x313; 0x301]); (0x1F56, [0x3A5; 0x313; 0x342]);
   (0x1F80, [0x1F08; 0x399]); (0x1F81, [0x1F09; 0x399]); (0x1F82, [0x1F0A; 0x399]);
   (0x1F83, [0x1F0B; 0x399]); (0x1F84, [0x1F0C; 0x399]); (0x1F85, [0x1F0D; 0x399]);
   (0x1F86, [0x1F0E; 0x399]); (0x1F87, [0x1F0F; 0x399]); (0x1F88, [0x1F08; 0x399]);
   (0x1F89, [0x1F09; 0x399]); (0x1F8A, [0x1F0A; 0x399]); (0x1F8B, [0x1F0B; 0x399]);
   (0x1F8C, [0x1F0C; 0x399]); (0x1F8D, [0x1F0D; 0x399]); (0x1F8E, [0x1F0E; 0x399]);
   (0x1F8F, [0x1F0F; 0x399]); (0x1F90, [0x1F28; 0x399]); (0x1F91, [0x1F29; 0x399]);
   (0x1F92, [0x1F2A; 0x399]); (0x1F93, [0x1F2B; 0x399]); (0x1F94, [0x1F2C; 0x399]);
   (0x1F95, [0x1F2D; 0x399]); (0x1F96, [0x1F2E; 0x399]); (0x1F97, [0x1F2F; 0x399]);
   (0x1F98, [0x1F28; 0x399]); (0x1F99, [0x1F29; 0x399]); (0x1F9A, [0x1F2A; 0x399]);
   (0x1F9B, [0x1F2B; 0x399]); (0x1F9C, [0x1F2C; 0x399]); (0x1F9D, [0x1F2D; 0x399]);
   (0x1F9E, [0x1F2E; 0x399]); (0x1F9F, [0x1F2F; 0x399]); (0x1FA0, [0x1F68; 0x399]);
   (0x1FA1, [0x1F69; 0x399]); (0x1FA2, [0x1F6A; 0x399]); (0x1FA3, [0x1F6B; 0x399]);
   (0x1FA4, [0x1F6C; 0x399]); (0x1FA5, [0x1F6D; 0x399]); (0x1FA6, [0x1F6E; 0x399]);
   (0x1FA7, [0x1F6F; 0x399]); (0x1FA8, [0x1F68; 0x399]); (0x1FA9, [0x1F69; 0x399]);
   (0x1FAA, [0x1F6A; 0x399]); (0x1FAB, [0x1F6B; 0x399]); (0x1FAC, [0x1F6C; 0x399]);
   (0x1FAD, [0x1F6D; 0x399]); (0x1FAE, [0x1F6E; 0x399]); (0x1FAF, [0x1F6F; 0x399]);
   (0x1FB2, [0x1FBA; 0x399]); (0x1FB3, [0x391; 0x399]); (0x1FB4, [0x386; 0x399]);
   (0x1FB6, [0x391; 0x342]); (0x1FB7, [0x391; 0x342; 0x399]); (0x1FBC, [0x391; 0x399]);
   (0x1FC2, [0x1FCA; 0x399]); (0x1FC3, [0x397; 0x399]); (0x1FC4, [0x389; 0x399]);
   (0x1FC6, [0x397; 0x342]); (0x1FC7, [0x397; 0x342; 0x399]); (0x1FCC, [0x397; 0x399]);
   (0x1FD2, [0x399; 0x308; 0x300]); (0x1FD3, [0x399; 0x308; 0x301]);
   (0x1FD6, [0x399; 0x342]); (0x1FD7, [0x399; 0x308; 0x342]);
   (0x1FE2, [0x3A5; 0x308; 0x300]); (0x1FE3, [0x3A5; 0x308; 0x301]);
   (0x1FE4, [0x3A1; 0x313]); (0x1FE6, [0x3A5; 0x342]); (0x1FE7, [0x3A5; 0x308; 0x342]);
   (0x1FF2, [0x1FFA; 0x399]); (0x1FF3, [0x3A9; 0x399]); (0x1FF4, [0x38F; 0x399]);
   (0x1FF6, [0x3A9; 0x342]); (0x1FF7, [0x3A9; 0x342; 0x399]); (0x1FFC, [0x3A9; 0x399]);
   (0xFB00, [0x46; 0x46]); (0xFB01, [0x46; 0x49]); (0xFB02, [0x46; 0x4C]);
   (0xFB03, [0x46; 0x46; 0x49]); (0xFB04, [0x46; 0x46; 0x4C]); (0xFB05, [0x53; 0x54]);
   (0xFB06, [0x53; 0x54]); (0xFB13, [0x544; 0x546]); (0xFB14, [0x544; 0x535]);
   (0xFB15, [0x544; 0x53B]); (0xFB16, [0x54E; 0x546]); (0xFB17, [0x544; 0x53D])]%N.

(** The code points with the property Cased, as ranges [(first, last)]. *)
Definition CASED : list (N * N) :=
  [(0x41, 0x5A); (0x61, 0x7A); (0xAA, 0xAA); (0xB5, 0xB5); (0xBA, 0xBA); (0xC0, 0xD6);
   (0xD8, 0xF6); (0xF8, 0x1BA); (0x1BC, 0x1BF); (0x1C4, 0x293); (0x295, 0x2B8);
   (0x2C0, 0x2C1); (0x2E0, 0x2E4); (0x345, 0x345); (0x370, 0x373); (0x376, 0x377);
   (0x37A, 0x37D); (0x37F, 0x37F); (0x386, 0x386); (0x388, 0x38A); (0x38C, 0x38C);
   (0x38E, 0x3A1); (0x3A3, 0x3F5); (0x3F7, 0x481); (0x48A, 0x52F); (0x531, 0x556);
   (0x560, 0x588); (0x10A0, 0x10C5); (0x10C7, 0x10C7); (0x10CD, 0x10CD); (0x10D0, 0x10FA);
   (0x10FD, 0x10FF); (0x13A0, 0x13F5); (0x13F8, 0x13FD); (0x1C80, 0x1C88);
   (0x1C90, 0x1CBA); (0x1CBD, 0x1CBF); (0x1D00, 0x1DBF); (0x1E00, 0x1F15);
   (0x1F18, 0x1F1D); (0x1F20, 0x1F45); (0x1F48, 0x1F4D); (0x1F50, 0x1F57);
   (0x1F59, 0x1F59); (0x1F5B, 0x1F5B); (0x1F5D, 0x1F5D); (0x1F5F, 0x1F7D);
   (0x1F80, 0x1FB4); (0x1FB6, 0x1FBC); (0x1FBE, 0x1FBE); (0x1FC2, 0x1FC4);
   (0x1FC6, 0x1FCC); (0x1FD0, 0x1FD3); (0x1FD6, 0x1FDB); (0x1FE0, 0x1FEC);
   (0x1FF2, 0x1FF4); (0x1FF6, 0x1FFC); (0x2071, 0x2071); (0x207F, 0x207F);
   (0x2090, 0x209C); (0x2102, 0x2102); (0x2107, 0x2107); (0x210A, 0x2113);
   (0x2115, 0x2115); (0x2119, 0x211D); (0x2124, 0x2124); (0x2126, 0x2126);
   (0x2128, 0x2128); (0x212A, 0x212D); (0x212F, 0x2134); (0x2139, 0x2139);
   (0x213C, 0x213F); (0x2145, 0x2149); (0x214E, 0x214E); (0x2160, 0x217F);
   (0x2183, 0x2184); (0x24B6, 0x24E9); (0x2C00, 0x2CE4); (0x2CEB, 0x2CEE);
   (0x2CF2, 0x2CF3); (0x2D00, 0x2D25); (0x2D27, 0x2D27); (0x2D2D, 0x2D2D);
   (0xA640, 0xA66D); (0xA680, 0xA69D); (0xA722, 0xA787); (0xA78B, 0xA78E);
   (0xA790, 0xA7CA); (0xA7D0, 0xA7D1); (0xA7D3, 0xA7D3); (0xA7D5, 0xA7D9);
   (0xA7F5, 0xA7F6); (0xA7F8, 0xA7FA); (0xAB30, 0xAB5A); (0xAB5C, 0xAB68);
   (0xAB70, 0xABBF); (0xFB00, 0xFB06); (0xFB13, 0xFB17); (0xFF21, 0xFF3A);
   (0xFF41, 0xFF5A); (0x10400, 0x1044F); (0x104B0, 0x104D3); (0x104D8, 0x104FB);
   (0x10570, 0x1057A); (0x1057C, 0x1058A); (0x1058C, 0x10592); (0x10594, 0x10595);
   (0x10597, 0x105A1); (0x105A3, 0x105B1); (0x105B3, 0x105B9); (0x105BB, 0x105BC);
   (0x10780, 0x10780); (0x10783, 0x10785); (0x10787, 0x107B0); (0x107B2, 0x107BA);
   (0x10C80, 0x10CB2); (0x10CC0, 0x10CF2); (0x118A0, 0x118DF); (0x16E40, 0x16E7F);
   (0x1D400, 0x1D454); (0x1D456, 0x1D49C); (0x1D49E, 0x1D49F); (0x1D4A2, 0x1D4A2);
   (0x1D4A5, 0x1D4A6); (0x1D4A9, 0x1D4AC); (0x1D4AE, 0x1D4B9); (0x1D4BB, 0x1D4BB);
   (0x1D4BD, 0x1D4C3); (0x1D4C5, 0x1D505); (0x1D507, 0x1D50A); (0x1D50D, 0x1D514);
   (0x1D516, 0x1D51C); (0x1D51E, 0x1D539); (0x1D53B, 0x1D53E); (0x1D540, 0x1D544);
   (0x1D546, 0x1D546); (0x1D54A, 0x1D550); (0x1D552, 0x1D6A5); (0x1D6A8, 0x1D6C0);
   (0x1D6C2, 0x1D6DA); (0x1D6DC, 0x1D6FA); (0x1D6FC, 0x1D714); (0x1D716, 0x1D734);
   (0x1D736, 0x1D74E); (0x1D750, 0x1D76E); (0x1D770, 0x1D788); (0x1D78A, 0x1D7A8);
   (0x1D7AA, 0x1D7C2); (0x1D7C4, 0x1D7CB); (0x1DF00, 0x1DF09); (0x1DF0B, 0x1DF1E);
   (0x1E900, 0x1E943); (0x1F130, 0x1F149); (0x1F150, 0x1F169); (0x1F170, 0x1F189)]%N.

(** The code points with the property Case_Ignorable. *)
Definition CASE_IGNORABLE : list (N * N) :=
  [(0x27, 0x27); (0x2E, 0x2E); (0x3A, 0x3A); (0x5E, 0x5E); (0x60, 0x60); (0xA8, 0xA8);
   (0xAD, 0xAD); (0xAF, 0xAF); (0xB4, 0xB4); (0xB7, 0xB8); (0x2B0, 0x36F); (0x374, 0x375);
   (0x37A, 0x37A); (0x384, 0x385); (0x387, 0x387); (0x483, 0x489); (0x559, 0x559);
   (0x55F, 0x55F); (0x591, 0x5BD); (0x5BF, 0x5BF); (0x5C1, 0x5C2); (0x5C4, 0x5C5);
   (0x5C7, 0x5C7); (0x5F4, 0x5F4); (0x600, 0x605); (0x610, 0x61A); (0x61C, 0x61C);
   (0x640, 0x640); (0x64B, 0x65F); (0x670, 0x670); (0x6D6, 0x6DD); (0x6DF, 0x6E8);
   (0x6EA, 0x6ED); (0x70F, 0x70F); (0x711, 0x711); (0x730, 0x74A); (0x7A6, 0x7B0);
   (0x7EB, 0x7F5); (0x7FA, 0x7FA); (0x7FD, 0x7FD); (0x816, 0x82D); (0x859, 0x85B);
   (0x888, 0x888); (0x890, 0x891); (0x898, 0x89F); (0x8C9, 0x902); (0x93A, 0x93A);
   (0x93C, 0x93C); (0x941, 0x948); (0x94D, 0x94D); (0x951, 0x957); (0x962, 0x963);
   (0x971, 0x971); (0x981, 0x981); (0x9BC, 0x9BC); (0x9C1, 0x9C4); (0x9CD, 0x9CD);
   (0x9E2, 0x9E3); (0x9FE, 0x9FE); (0xA01, 0xA02); (0xA3C, 0xA3C); (0xA41, 0xA42);
   (0xA47, 0xA48); (0xA4B, 0xA4D); (0xA51, 0xA51); (0xA70, 0xA71); (0xA75, 0xA75);
   (0xA81, 0xA82); (0xABC, 0xABC); (0xAC1, 0xAC5); (0xAC7, 0xAC8); (0xACD, 0xACD);
   (0xAE2, 0xAE3); (0xAFA, 0xAFF); (0xB01, 0xB01); (0xB3C, 0xB3C); (0xB3F, 0xB3F);
   (0xB41, 0xB44); (0xB4D, 0xB4D); (0xB55, 0xB56); (0xB62, 0xB63); (0xB82, 0xB82);
   (0xBC0, 0xBC0); (0xBCD, 0xBCD); (0xC00, 0xC00); (0xC04, 0xC04); (0xC3C, 0xC3C);
   (0xC3E, 0xC40); (0xC46, 0xC48); (0xC4A, 0xC4D); (0xC55, 0xC56); (0xC62, 0xC63);
   (0xC81, 0xC81); (0xCBC, 0xCBC); (0xCBF, 0xCBF); (0xCC6, 0xCC6); (0xCCC, 0xCCD);
   (0xCE2, 0xCE3); (0xD00, 0xD01); (0xD3B, 0xD3C); (0xD41, 0xD44); (0xD4D, 0xD4D);
   (0xD62, 0xD63); (0xD81, 0xD81); (0xDCA, 0xDCA); (0xDD2, 0xDD4); (0xDD6, 0xDD6);
   (0xE31, 0xE31); (0xE34, 0xE3A); (0xE46, 0xE4E); (0xEB1, 0xEB1); (0xEB4, 0xEBC);
   (0xEC6, 0xEC6); (0xEC8, 0xECD); (0xF18, 0xF19); (0xF35, 0xF35); (0xF37, 0xF37);
   (0xF39, 0xF39); (0xF71, 0xF7E); (0xF80, 0xF84); (0xF86, 0xF87); (0xF8D, 0xF97);
   (0xF99, 0xFBC); (0xFC6, 0xFC6); (0x102D, 0x1030); (0x1032, 0x1037); (0x1039, 0x103A);
   (0x103D, 0x103E); (0x1058, 0x1059); (0x105E, 0x1060); (0x1071, 0x1074);
   (0x1082, 0x1082); (0x1085, 0x1086); (0x108D, 0x108D); (0x109D, 0x109D);
   (0x10FC, 0x10FC); (0x135D, 0x135F); (0x1712, 0x1714); (0x1732, 0x1733);
   (0x1752, 0x1753); (0x1772, 0x1773); (0x17B4, 0x17B5); (0x17B7, 0x17BD);
   (0x17C6, 0x17C6); (0x17C9, 0x17D3); (0x17D7, 0x17D7); (0x17DD, 0x17DD);
   (0x180B, 0x180F); (0x1843, 0x1843); (0x1885, 0x1886); (0x18A9, 0x18A9);
   (0x1920, 0x1922); (0x1927, 0x1928); (0x1932, 0x1932); (0x1939, 0x193B);
   (0x1A17, 0x1A18); (0x1A1B, 0x1A1B); (0x1A56, 0x1A56); (0x1A58, 0x1A5E);
   (0x1A60, 0x1A60); (0x1A62, 0x1A62); (0x1A65, 0x1A6C); (0x1A73, 0x1A7C);
   (0x1A7F, 0x1A7F); (0x1AA7, 0x1AA7); (0x1AB0, 0x1ACE); (0x1B00, 0x1B03);
   (0x1B34, 0x1B34); (0x1B36, 0x1B3A); (0x1B3C, 0x1B3C); (0x1B42, 0x1B42);
   (0x1B6B, 0x1B73); (0x1B80, 0x1B81); (0x1BA2, 0x1BA5); (0x1BA8, 0x1BA9);
   (0x1BAB, 0x1BAD); (0x1BE6, 0x1BE6); (0x1BE8, 0x1BE9); (0x1BED, 0x1BED);
   (0x1BEF, 0x1BF1); (0x1C2C, 0x1C33); (0x1C36, 0x1C37); (0x1C78, 0x1C7D);
   (0x1CD0, 0x1CD2); (0x1CD4, 0x1CE0); (0x1CE2, 0x1CE8); (0x1CED, 0x1CED);
   (0x1CF4, 0x1CF4); (0x1CF8, 0x1CF9); (0x1D2C, 0x1D6A); (0x1D78, 0x1D78);
   (0x1D9B, 0x1DFF); (0x1FBD, 0x1FBD); (0x1FBF, 0x1FC1); (0x1FCD, 0x1FCF);
   (0x1FDD, 0x1FDF); (0x1FED, 0x1FEF); (0x1FFD, 0x1FFE); (0x200B, 0x200F);
   (0x2018, 0x2019); (0x2024, 0x2024); (0x2027, 0x2027); (0x202A, 0x202E);
   (0x2060, 0x2064); (0x2066, 0x206F); (0x2071, 0x2071); (0x207F, 0x207F);
   (0x2090, 0x209C); (0x20D0, 0x20F0); (0x2C7C, 0x2C7D); (0x2CEF, 0x2CF1);
   (0x2D6F, 0x2D6F); (0x2D7F, 0x2D7F); (0x2DE0, 0x2DFF); (0x2E2F, 0x2E2F);
   (0x3005, 0x3005); (0x302A, 0x302D); (0x3031, 0x3035); (0x303B, 0x303B);
   (0x3099, 0x309E); (0x30FC, 0x30FE); (0xA015, 0xA015); (0xA4F8, 0xA4FD);
   (0xA60C, 0xA60C); (0xA66F, 0xA672); (0xA674, 0xA67D); (0xA67F, 0xA67F);
   (0xA69C, 0xA69F); (0xA6F0, 0xA6F1); (0xA700, 0xA721); (0xA770, 0xA770);
   (0xA788, 0xA78A); (0xA7F2, 0xA7F4); (0xA7F8, 0xA7F9); (0xA802, 0xA802);
   (0xA806, 0xA806); (0xA80B, 0xA80B); (0xA825, 0xA826); (0xA82C, 0xA82C);
   (0xA8C4, 0xA8C5); (0xA8E0, 0xA8F1); (0xA8FF, 0xA8FF); (0xA926, 0xA92D);
   (0xA947, 0xA951); (0xA980, 0xA982); (0xA9B3, 0xA9B3); (0xA9B6, 0xA9B9);
   (0xA9BC, 0xA9BD); (0xA9CF, 0xA9CF); (0xA9E5, 0xA9E6); (0xAA29, 0xAA2E);
   (0xAA31, 0xAA32); (0xAA35, 0xAA36); (0xAA43, 0xAA43); (0xAA4C, 0xAA4C);
   (0xAA70, 0xAA70); (0xAA7C, 0xAA7C); (0xAAB0, 0xAAB0); (0xAAB2, 0xAAB4);
   (0xAAB7, 0xAAB8); (0xAABE, 0xAABF); (0xAAC1, 0xAAC1); (0xAADD, 0xAADD);
   (0xAAEC, 0xAAED); (0xAAF3, 0xAAF4); (0xAAF6, 0xAAF6); (0xAB5B, 0xAB5F);
   (0xAB69, 0xAB6B); (0xABE5, 0xABE5); (0xABE8, 0xABE8); (0xABED, 0xABED);
   (0xFB1E, 0xFB1E); (0xFBB2, 0xFBC2); (0xFE00, 0xFE0F); (0xFE13, 0xFE13);
   (0xFE20, 0xFE2F); (0xFE52, 0xFE52); (0xFE55, 0xFE55); (0xFEFF, 0xFEFF);
   (0xFF07, 0xFF07); (0xFF0E, 0xFF0E); (0xFF1A, 0xFF1A); (0xFF3E, 0xFF3E);
   (0xFF40, 0xFF40); (0xFF70, 0xFF70); (0xFF9E, 0xFF9F); (0xFFE3, 0xFFE3);
   (0xFFF9, 0xFFFB); (0x101FD, 0x101FD); (0x102E0, 0x102E0); (0x10376, 0x1037A);
   (0x10780, 0x10785); (0x10787, 0x107B0); (0x107B2, 0x107BA); (0x10A01, 0x10A03);
   (0x10A05, 0x10A06); (0x10A0C, 0x10A0F); (0x10A38, 0x10A3A); (0x10A3F, 0x10A3F);
   (0x10AE5, 0x10AE6); (0x10D24, 0x10D27); (0x10EAB, 0x10EAC); (0x10F46, 0x10F50);
   (0x10F82, 0x10F85); (0x11001, 0x11001); (0x11038, 0x11046); (0x11070, 0x11070);
   (0x11073, 0x11074); (0x1107F, 0x11081); (0x110B3, 0x110B6); (0x110B9, 0x110BA);
   (0x110BD, 0x110BD); (0x110C2, 0x110C2); (0x110CD, 0x110CD); (0x11100, 0x11102);
   (0x11127, 0x1112B); (0x1112D, 0x11134); (0x11173, 0x11173); (0x11180, 0x11181);
   (0x111B6, 0x111BE); (0x111C9, 0x111CC); (0x111CF, 0x111CF); (0x1122F, 0x11231);
   (0x11234, 0x11234); (0x11236, 0x11237); (0x1123E, 0x1123E); (0x112DF, 0x112DF);
   (0x112E3, 0x112EA); (0x11300, 0x11301); (0x1133B, 0x1133C); (0x11340, 0x11340);
   (0x11366, 0x1136C); (0x11370, 0x11374); (0x11438, 0x1143F); (0x11442, 0x11444);
   (0x11446, 0x11446); (0x1145E, 0x1145E); (0x114B3, 0x114B8); (0x114BA, 0x114BA);
   (0x114BF, 0x114C0); (0x114C2, 0x114C3); (0x115B2, 0x115B5); (0x115BC, 0x115BD);
   (0x115BF, 0x115C0); (0x115DC, 0x115DD); (0x11633, 0x1163A); (0x1163D, 0x1163D);
   (0x1163F, 0x11640); (0x116AB, 0x116AB); (0x116AD, 0x116AD); (0x116B0, 0x116B5);
   (0x116B7, 0x116B7); (0x1171D, 0x1171F); (0x11722, 0x11725); (0x11727, 0x1172B);
   (0x1182F, 0x11837); (0x11839, 0x1183A); (0x1193B, 0x1193C); (0x1193E, 0x1193E);
   (0x11943, 0x11943); (0x119D4, 0x119D7); (0x119DA, 0x119DB); (0x119E0, 0x119E0);
   (0x11A01, 0x11A0A); (0x11A33, 0x11A38); (0x11A3B, 0x11A3E); (0x11A47, 0x11A47);
   (0x11A51, 0x11A56); (0x11A59, 0x11A5B); (0x11A8A, 0x11A96); (0x11A98, 0x11A99);
   (0x11C30, 0x11C36); (0x11C38, 0x11C3D); (0x11C3F, 0x11C3F); (0x11C92, 0x11CA7);
   (0x11CAA, 0x11CB0); (0x11CB2, 0x11CB3); (0x11CB5, 0x11CB6); (0x11D31, 0x11D36);
   (0x11D3A, 0x11D3A); (0x11D3C, 0x11D3D); (0x11D3F, 0x11D45); (0x11D47, 0x11D47);
   (0x11D90, 0x11D91); (0x11D95, 0x11D95); (0x11D97, 0x11D97); (0x11EF3, 0x11EF4);
   (0x13430, 0x13438); (0x16AF0, 0x16AF4); (0x16B30, 0x16B36); (0x16B40, 0x16B43);
   (0x16F4F, 0x16F4F); (0x16F8F, 0x16F9F); (0x16FE0, 0x16FE1); (0x16FE3, 0x16FE4);
   (0x1AFF0, 0x1AFF3); (0x1AFF5, 0x1AFFB); (0x1AFFD, 0x1AFFE); (0x1BC9D, 0x1BC9E);
   (0x1BCA0, 0x1BCA3); (0x1CF00, 0x1CF2D); (0x1CF30, 0x1CF46); (0x1D167, 0x1D169);
   (0x1D173, 0x1D182); (0x1D185, 0x1D18B); (0x1D1AA, 0x1D1AD); (0x1D242, 0x1D244);
   (0x1DA00, 0x1DA36); (0x1DA3B, 0x1DA6C); (0x1DA75, 0x1DA75); (0x1DA84, 0x1DA84);
   (0x1DA9B, 0x1DA9F); (0x1DAA1, 0x1DAAF); (0x1E000, 0x1E006); (0x1E008, 0x1E018);
   (0x1E01B, 0x1E021); (0x1E023, 0x1E024); (0x1E026, 0x1E02A); (0x1E130, 0x1E13D);
   (0x1E2AE, 0x1E2AE); (0x1E2EC, 0x1E2EF); (0x1E8D0, 0x1E8D6); (0x1E944, 0x1E94B);
   (0x1F3FB, 0x1F3FF); (0xE0001, 0xE0001); (0xE0020, 0xE007F); (0xE0100, 0xE01EF)]%N.

Definition Cased (c : N) : bool := among CASED c.

Definition Case_Ignorable (c : N) : bool := among CASE_IGNORABLE c.

(** The lower-case mapping of a code point out of context: U+0130 is the one
    code point SpecialCasing.txt maps to several without a condition. *)
Definition lower (c : N) : list N :=
  if (c =? 0x130)%N then [0x69; 0x307]%N else [mapped LOWER c].

Definition upper (c : N) : list N :=
  match listed UPPER_SPECIAL c with
  | Some image => image
  | None => [mapped UPPER c]
  end.

(** *** Strings as UTF-8 *)

(** The UTF-8 bytes of a code point. *)
Definition utf8 (c : N) : string :=
  if (c <? 0x80)%N then String (ascii_of_N c) EmptyString
  else if (c <? 0x800)%N then
    String (ascii_of_N (0xC0 + c / 0x40))
      (String (ascii_of_N (0x80 + c mod 0x40)) EmptyString)
  else if (c <? 0x10000)%N then
    String (ascii_of_N (0xE0 + c / 0x1000))
      (String (ascii_of_N (0x80 + c / 0x40 mod 0x40))
         (String (ascii_of_N (0x80 + c mod 0x40)) EmptyString))
  else
    String (ascii_of_N (0xF0 + c / 0x40000))
      (String (ascii_of_N (0x80 + c / 0x1000 mod 0x40))
         (String (ascii_of_N (0x80 + c / 0x40 mod 0x40))
            (String (ascii_of_N (0x80 + c mod 0x40)) EmptyString))).

(** What a string holds: a code point, or a byte that begins no well-formed
    sequence.  (A lone surrogate of a JavaScript string is the code point of
    its three bytes; no mapping touches it.) *)
Inductive item :=
| CodePoint (c : N)
| Stray (b : ascii).

(** The payload of a continuation byte. *)
Definition low6 (b : ascii) : N := (N_of_ascii b mod 0x40)%N.

(** [bytes] is the encoding of [c]. *)
Definition encodes (c : N) (bytes : string) : bool :=
  (c <? 0x110000)%N && String.eqb (utf8 c) bytes.

Fixpoint codePoints (s : string) : list item :=
  match s with
  | EmptyString => []
  | String b1 s1 =>
      let n1 := N_of_ascii b1 in
      if (n1 <? 0x80)%N then CodePoint n1 :: codePoints s1
      else
        match s1 with
        | EmptyString => Stray b1 :: codePoints s1
        | String b2 s2 =>
            let c2 := (n1 mod 0x20 * 0x40 + low6 b2)%N in
            if (0xC0 <=? n1)%N && (n1 <? 0xE0)%N
               && encodes c2 (String b1 (String b2 EmptyString))
            then CodePoint c2 :: codePoints s2
            else
              match s2 with
              | EmptyString => Stray b1 :: codePoints s1
              | String b3 s3 =>
                  let c3 := ((n1 mod 0x10 * 0x40 + low6 b2) * 0x40 + low6 b3)%N in
                  if (0xE0 <=? n1)%N && (n1 <? 0xF0)%N
                     && encodes c3 (String b1 (String b2 (String b3 EmptyString)))
                  then CodePoint c3 :: codePoints s3
                  else
                    match s3 with
                    | EmptyString => Stray b1 :: codePoints s1
                    | String b4 s4 =>
                        let c4 := (((n1 mod 0x8 * 0x40 + low6 b2) * 0x40 + low6 b3) * 0x40
                                   + low6 b4)%N in
                        if (0xF0 <=? n1)%N
                           && encodes c4
                                (String b1 (String b2 (String b3 (String b4 EmptyString))))
                        then CodePoint c4 :: codePoints s4
                        else Stray b1 :: codePoints s1
                    end
              end
        end
  end.

Fixpoint toString (l : list item) : string :=
  match l with
  | [] => EmptyString
  | CodePoint c :: rest => utf8 c ++ toString rest
  | Stray b :: rest => String b (toString rest)
  end.

(** *** The conversions *)

(** The rest of the string begins with case-ignorable code points, if any,
    and then a cased letter. *)
Fixpoint beforeCased (l : list item) : bool :=
  match l with
  | CodePoint c :: rest => if Case_Ignorable c then beforeCased rest else Cased c
  | _ => false
  end.

(** Lower-casing, code point by code point.  [afterCased]: what precedes is
    a cased letter and then case-ignorable code points, if any.  A capital
    sigma, U+03A3, becomes the final sigma U+03C2 when it follows a cased
    letter and none follows it (Final_Sigma), and U+03C3 otherwise. *)
Fixpoint toLower (afterCased : bool) (l : list item) : list item :=
  match l with
  | [] => []
  | Stray b :: rest => Stray b :: toLower false rest
  | CodePoint c :: rest =>
      ((if (c =? 0x3A3)%N
        then [CodePoint (if afterCased && negb (beforeCased rest) then 0x3C2 else 0x3C3)%N]
        else map CodePoint (lower c))
       ++ toLower (if Case_Ignorable c then afterCased else Cased c) rest)%list
  end.

Fixpoint toUpper (l : list item) : list item :=
  match l with
  | [] => []
  | Stray b :: rest => Stray b :: toUpper rest
  | CodePoint c :: rest => (map CodePoint (upper c) ++ toUpper rest)%list
  end.

End Unicode.

(** ** JavaScript primitives *)

Module JS.

(** [String.prototype.toLowerCase] and [String.prototype.toUpperCase]. *)
Definition toLowerCase (s : string) : string :=
  Unicode.toString (Unicode.toLower false (Unicode.codePoints s)).

Definition toUpperCase (s : string) : string :=
  Unicode.toString (Unicode.toUpper (Unicode.codePoints s)).

(** [s.includes(needle)]: [needle] occurs in [s] as a contiguous substring.
    The empty needle occurs in every string, the empty one included. *)
Fixpoint includes (s needle : string) : bool :=
  String.prefix needle s ||
  match s with
  | EmptyString => false
  | String _ s' => includes s' needle
  end.

(** [Array.prototype.includes] on an array of strings. *)
Definition array_includes (l : list string) (x : string) : bool :=
  existsb (String.eqb x) l.

(** Decimal rendering of an integer, as a template literal renders an
    integer-valued number below 10^21 in magnitude. *)
Definition int_to_string (z : Z) : string :=
  NilZero.string_of_int (Z.to_int z).

Definition nat_to_string (n : nat) : string :=
  NilZero.string_of_uint (Nat.to_uint n).

(** The double quote, for messages that quote a name. *)
Definition dquote : string := String (ascii_of_nat 34) EmptyString.

(** The message of the [TypeError] thrown on reading the property [name] of
    [undefined].  The wording is the engine's; this is V8's. *)
Definition reading_undefined (name : string) : string :=
  "Cannot read properties of undefined (reading '" ++ name ++ "')".

(** A number: the exact value of a finite double, NaN, or an infinity.  (The
    negative zero is not told apart from zero; [toFixed] and the tests below
    treat both alike.) *)
Inductive number :=
| Finite (q : Q)
| NaN
| PosInfinity
| NegInfinity.

(** What a numeric field of a parsed response, or an argument that stands for
    one, can hold. *)
Inductive value :=
| Undefined
| Null
| Num (x : number).

(** [!v]: the operand is falsy. *)
Definition falsy (v : value) : bool :=
  match v with
  | Undefined | Null => true
  | Num (Finite q) => Qeq_bool q 0
  | Num NaN => true
  | Num _ => false
  end.

(** [v !== 0]. *)
Definition strict_ne_zero (v : value) : bool :=
  match v with
  | Num (Finite q) => negb (Qeq_bool q 0)
  | _ => true
  end.

(** [a === b] on numbers: NaN equals nothing, itself included. *)
Definition number_strict_eq (a b : number) : bool :=
  match a, b with
  | Finite p, Finite q => Qeq_bool p q
  | PosInfinity, PosInfinity => true
  | NegInfinity, NegInfinity => true
  | _, _ => false
  end.

(** [Number(v)]. *)
Definition Number (v : value) : number :=
  match v with
  | Undefined => NaN
  | Null => Finite 0
  | Num x => x
  end.

Fixpoint zeros (n : nat) : string :=
  match n with
  | O => EmptyString
  | S n' => String "0" (zeros n')
  end.

(** Step 8 of [Number.prototype.toFixed] for [0 <= x < 10^21]: the integer [n]
    for which [n / 10^f - x] is closest to zero, the larger one on a tie. *)
Definition toFixed_integer (x : Q) (f : nat) : Z :=
  let num := (Qnum x * 10 ^ Z.of_nat f)%Z in
  let den := Z.pos (Qden x) in
  ((2 * num + den) / (2 * den))%Z.

(** Steps 8-10: the digits of [n], padded with zeros to [f + 1] digits, with
    the point before the last [f] digits. *)
Definition toFixed_digits (n : Z) (f : nat) : string :=
  let m := NilZero.string_of_uint (N.to_uint (Z.to_N n)) in
  match f with
  | O => m
  | _ =>
      let k := String.length m in
      let m := if (k <=? f)%nat then zeros (f + 1 - k) ++ m else m in
      let k := String.length m in
      substring 0 (k - f) m ++ "." ++ substring (k - f) f m
  end.

Section ToFixed.

(** [Number::toString] on a finite number of magnitude 10^21 and more (the
    shortest digits that read back, in exponent form) is left to the
    platform. *)
Variable exponential : Q -> string.

(** [x.toFixed(f)] for [0 <= f <= 100]. *)
Definition toFixed (x : number) (f : nat) : string :=
  match x with
  | NaN => "NaN"
  | PosInfinity => "Infinity"
  | NegInfinity => "-Infinity"
  | Finite q =>
      let s := if Qlt_le_dec q 0 then "-" else "" in
      let a := Qabs q in
      if Qle_bool (10 ^ 21) a then s ++ exponential a
      else s ++ toFixed_digits (toFixed_integer a f) f
  end.

End ToFixed.

End JS.

(** ** [js/config.js] *)

Module CONFIG.

Definition WEATHER_API_KEY : string := "2d6185ce67da5b9bd63fbe025eaa7f62".

Module ENDPOINTS.
Definition CURRENT_WEATHER : string := "https://api.openweathermap.org/data/2.5/weather".
Definition ONECALL : string := "https://api.openweathermap.org/data/2.5/onecall".
Definition GEOCODING : string := "https://api.openweathermap.org/geo/1.0/direct".
End ENDPOINTS.

Module DEFAULTS.
Definition UNITS : string := "metric".
Definition LANGUAGE : string := "en".
(** 30 minutes, in milliseconds. *)
Definition REFRESH_INTERVAL : Z := 30 * 60 * 1000.
End DEFAULTS.

Module ALERTS.
(** 15 minutes, in milliseconds. *)
Definition CHECK_INTERVAL : Z := 15 * 60 * 1000.
Definition NOTIFICATION_DURATION : Z := 10000.
Definition SEVERE : list string :=
  ["Hurricane"; "Tornado"; "Extreme Thunderstorm"; "Flood"; "Tsunami"].
Definition MODERATE : list string :=
  ["Thunderstorm"; "Rain"; "Snow"; "Fog"; "Wind"].
Definition MINOR : list string :=
  ["Cloudy"; "Drizzle"; "Light Rain"].
(** [Object.entries(CONFIG.ALERTS.SEVERITY_LEVELS)]: the own string-keyed
    properties in the order the object literal declares them. *)
Definition SEVERITY_LEVELS : list (string * list string) :=
  [("SEVERE", SEVERE); ("MODERATE", MODERATE); ("MINOR", MINOR)].
End ALERTS.

Module UI.
Definition MAX_FORECAST_DAYS : nat := 5.
Definition MAX_HOURLY_FORECAST : nat := 24.
Definition TEMPERATURE_DECIMAL_PLACES : nat := 1.
Definition SAVED_LOCATIONS_LIMIT : nat := 5.
End UI.

End CONFIG.

(** ** Data received from the provider *)

Record Alert := {
  event : string;
  description : string;
  start : Z;
  end_ : Z
}.

Record DayForecast := {
  day_dt : Z;
  day_max : JS.value;
  day_min : JS.value
}.

Record HourForecast := {
  hour_dt : Z;
  hour_temp : JS.value
}.

Record CurrentWeather := {
  dt : Z;
  temp : JS.value;
  feels_like : JS.value
}.

(** The body of a OneCall response; a part the provider leaves out reads as
    [undefined], here [None]. *)
Module OneCall.
Record Data := {
  daily : option (list DayForecast);
  hourly : option (list HourForecast);
  alerts : option (list Alert)
}.
End OneCall.

(** A location: what the geocoding endpoints return per candidate, and what
    the application holds as [currentLocation]. *)
Record Location := {
  lat : JS.number;
  lon : JS.number;
  name : string;
  country : string
}.

(** ** Data of the local user registry ([js/user.js]) *)

Module SavedLocation.
Record t := {
  id : string;
  name : string;
  country : string;
  lat : JS.number;
  lon : JS.number
}.
End SavedLocation.

Module User.
Record t := {
  id : string;
  name : string;
  email : string;
  password : string;
  savedLocations : list SavedLocation.t
}.
End User.

(** An object built from a literal: its own properties, in insertion order. *)
Definition Object := list (string * string).

(** [o.key]; [None] is [undefined]. *)
Fixpoint prop (o : Object) (key : string) : option string :=
  match o with
  | [] => None
  | (k, v) :: rest => if String.eqb k key then Some v else prop rest key
  end.

(** [Object.keys(o)]. *)
Definition keys (o : Object) : list string := map fst o.

(** ** [window.localStorage] *)

(** What [JSON.parse] yields for an item, by the shape it was written with.
    An item is only ever read under the key it was written under. *)
Inductive Stored :=
| StoredStrings (l : list string)
| StoredLocation (l : Location)
| StoredUsers (l : list User.t)
| StoredObject (o : Object).

(** ** The network *)

(** An argument of [url.searchParams.append]: a string, a number, or a
    number written as an integer literal. *)
Inductive Param :=
| PText (s : string)
| PNumber (x : JS.number)
| PInt (n : Z).

(** The URL handed to [fetch]: the endpoint and the query parameters in the
    order they were appended. *)
Record Request := {
  endpoint : string;
  params : list (string * Param)
}.

(** How a [fetch] followed by [response.json()] ends. *)
Inductive Response (A : Type) :=
| Rejected (message : string)
| Status (status : nat) (statusText : string)
| Ok (body : A).

Arguments Rejected {A} message.
Arguments Status {A} status statusText.
Arguments Ok {A} body.

(** The upstream weather provider, one function per endpoint. *)
Record Provider := {
  onecall : Request -> Response OneCall.Data;
  current_weather : Request -> Response CurrentWeather;
  geocoding : Request -> Response (list Location)
}.

(** The [Error] objects, by the place that throws them: the three of the
    gateway, and the [TypeError] of the engine on reading a property of
    [undefined]. *)
Inductive Error :=
| FetchRejected (message : string)
| ApiError (api : string) (status : nat) (statusText : string)
| NoLocationsFound (cityName : string)
| TypeError (message : string).

(** [error.message]. *)
Definition message (e : Error) : string :=
  match e with
  | FetchRejected m => m
  | ApiError api status statusText =>
      api ++ " API error: " ++ JS.nat_to_string status ++ " " ++ statusText
  | NoLocationsFound cityName =>
      "No locations found for " ++ JS.dquote ++ cityName ++ JS.dquote
  | TypeError m => m
  end.

(** How a method of the gateway ends: [return] or [throw]. *)
Inductive Result (A : Type) :=
| Return (a : A)
| Throw (e : Error).

Arguments Return {A} a.
Arguments Throw {A} e.

(** ** [js/weather.js]: class [WeatherService] *)

Module WeatherService.

(** The inner loop of [getAlertSeverity]: the keywords of one level, in order;
    [Some] is the [return] inside the loop. *)
Fixpoint scan_keywords (event description level : string) (keywords : list string)
  : option string :=
  match keywords with
  | [] => None
  | keyword :: rest =>
      if JS.includes event (JS.toLowerCase keyword)
         || JS.includes description (JS.toLowerCase keyword)
      then Some (JS.toLowerCase level)
      else scan_keywords event description level rest
  end.

(** The outer loop over the entries of the severity table. *)
Fixpoint scan_levels (event description : string)
  (entries : list (string * list string)) : option string :=
  match entries with
  | [] => None
  | (level, keywords) :: rest =>
      match scan_keywords event description level keywords with
      | Some found => Some found
      | None => scan_levels event description rest
      end
  end.

Definition getAlertSeverity (alert : Alert) : string :=
  let event := JS.toLowerCase (event alert) in
  let description := JS.toLowerCase (description alert) in
  match scan_levels event description CONFIG.ALERTS.SEVERITY_LEVELS with
  | Some level => level
  | None => "moderate"
  end.

(** The fields the constructor sets. *)
Record t := {
  apiKey : string;
  units : string;
  language : string
}.

Definition new : t :=
  {| apiKey := CONFIG.WEATHER_API_KEY;
     units := CONFIG.DEFAULTS.UNITS;
     language := CONFIG.DEFAULTS.LANGUAGE |}.

(** The steps shared by the fetching methods: a rejected [fetch] is rethrown,
    a response that is not [ok] throws the API error, a body is returned. *)
Definition receive {A} (api : string) (r : Response A) : Result A :=
  match r with
  | Rejected m => Throw (FetchRejected m)
  | Status status statusText => Throw (ApiError api status statusText)
  | Ok body => Return body
  end.

Definition currentWeatherRequest (this : t) (location : Location) : Request :=
  {| endpoint := CONFIG.ENDPOINTS.CURRENT_WEATHER;
     params := [("lat", PNumber (lat location));
                ("lon", PNumber (lon location));
                ("units", PText (units this));
                ("lang", PText (language this));
                ("appid", PText (apiKey this))] |}.

Definition getCurrentWeather (this : t) (net : Provider) (location : Location)
  : Result CurrentWeather :=
  receive "Weather" (current_weather net (currentWeatherRequest this location)).

Definition oneCallRequest (this : t) (location : Location) (includeHourly : bool)
  : Request :=
  let exclude := if includeHourly then "minutely" else "minutely,hourly" in
  {| endpoint := CONFIG.ENDPOINTS.ONECALL;
     params := [("lat", PNumber (lat location));
                ("lon", PNumber (lon location));
                ("units", PText (units this));
                ("lang", PText (language this));
                ("appid", PText (apiKey this));
                ("exclude", PText exclude)] |}.

Definition getOneCallData (this : t) (net : Provider) (location : Location)
  (includeHourly : bool) : Result OneCall.Data :=
  receive "OneCall" (onecall net (oneCallRequest this location includeHourly)).

Definition geocodingRequest (this : t) (cityName : string) : Request :=
  {| endpoint := CONFIG.ENDPOINTS.GEOCODING;
     params := [("q", PText cityName);
                ("limit", PInt 5);
                ("appid", PText (apiKey this))] |}.

Definition searchLocation (this : t) (net : Provider) (cityName : string)
  : Result (list Location) :=
  match receive "Geocoding" (geocoding net (geocodingRequest this cityName)) with
  | Throw e => Throw e
  | Return data =>
      if (length data =? 0)%nat then Throw (NoLocationsFound cityName)
      else Return data
  end.

Section FormatTemperature.

Variable exponential : Q -> string.

Definition formatTemperature (this : t) (temp : JS.value) : string :=
  if JS.falsy temp && JS.strict_ne_zero temp then "--"
  else
    let roundedTemp :=
      JS.toFixed exponential (JS.Number temp) CONFIG.UI.TEMPERATURE_DECIMAL_PLACES in
    if String.eqb (units this) "imperial" then roundedTemp ++ "°F"
    else if String.eqb (units this) "metric" then roundedTemp ++ "°C"
    else roundedTemp ++ "K".

End FormatTemperature.

End WeatherService.

(** ** [js/app.js]: class [WeatherApp] *)

Module WeatherApp.

(** [this.weatherData]. *)
Record WeatherData := {
  current : CurrentWeather;
  forecast : option (list DayForecast);
  hourly : list HourForecast;
  alerts : list Alert
}.

(** The fields of the instance that the scheduler owns. *)
Record Fields := {
  currentLocation : option Location;
  weatherData : option WeatherData;
  alertCheckInterval : option positive;
  refreshTimer : option positive
}.

(** The part of the page the scheduler reads or writes: the alerts toggle,
    the loading indicator, the error banner. *)
Record Page := {
  alertsToggle_checked : bool;
  loading : bool;
  errorVisible : bool;
  errorText : string
}.

(** What a timer runs when it fires. *)
Inductive Callback :=
| AlertCheck
| AutoRefresh
| HideError
| CloseNotification (index : nat).

(** A pending [setTimeout] ([period = None]) or [setInterval]. *)
Record Timer := {
  handle : positive;
  callback : Callback;
  due : Z;
  period : option Z
}.

(** [Notification.permission]: 'granted', 'denied' or 'default'. *)
Inductive Permission :=
| PermissionGranted
| PermissionDenied
| PermissionDefault.

(** [new Notification(title, options)]. *)
Record Notification := {
  title : string;
  body : string;
  icon : string;
  tag : string;
  requireInteraction : bool
}.

(** The browser: the clock in milliseconds, the pending timers and the next
    handle, the notification permission, the local storage, the notifications
    raised so far and the requests sent so far, oldest first. *)
Record Browser := {
  clock : Z;
  timers : list Timer;
  nextHandle : positive;
  permission : Permission;
  localStorage : gmap string Stored;
  notifications : list Notification;
  requests : list Request
}.

Record World := {
  this : Fields;
  page : Page;
  browser : Browser
}.

(** *** Field updates *)

Definition set_currentLocation (v : option Location) (w : World) : World :=
  {| this := {| currentLocation := v;
                weatherData := weatherData (this w);
                alertCheckInterval := alertCheckInterval (this w);
                refreshTimer := refreshTimer (this w) |};
     page := page w; browser := browser w |}.

Definition set_weatherData (v : option WeatherData) (w : World) : World :=
  {| this := {| currentLocation := currentLocation (this w);
                weatherData := v;
                alertCheckInterval := alertCheckInterval (this w);
                refreshTimer := refreshTimer (this w) |};
     page := page w; browser := browser w |}.

Definition set_alertCheckInterval (v : option positive) (w : World) : World :=
  {| this := {| currentLocation := currentLocation (this w);
                weatherData := weatherData (this w);
                alertCheckInterval := v;
                refreshTimer := refreshTimer (this w) |};
     page := page w; browser := browser w |}.

Definition set_refreshTimer (v : option positive) (w : World) : World :=
  {| this := {| currentLocation := currentLocation (this w);
                weatherData := weatherData (this w);
                alertCheckInterval := alertCheckInterval (this w);
                refreshTimer := v |};
     page := page w; browser := browser w |}.

Definition set_page (v : Page) (w : World) : World :=
  {| this := this w; page := v; browser := browser w |}.

Definition set_browser (v : Browser) (w : World) : World :=
  {| this := this w; page := page w; browser := v |}.

Definition set_timers (v : list Timer) (w : World) : World :=
  set_browser
    {| clock := clock (browser w); timers := v;
       nextHandle := nextHandle (browser w);
       permission := permission (browser w);
       localStorage := localStorage (browser w);
       notifications := notifications (browser w);
       requests := requests (browser w) |} w.

Definition set_localStorage (v : gmap string Stored) (w : World) : World :=
  set_browser
    {| clock := clock (browser w); timers := timers (browser w);
       nextHandle := nextHandle (browser w);
       permission := permission (browser w);
       localStorage := v;
       notifications := notifications (browser w);
       requests := requests (browser w) |} w.

(** *** The platform *)

(** [setTimeout(callback, delay)] and [setInterval(callback, delay)]: the new
    timer is first due [delay] milliseconds from now; the handle is returned. *)
Definition addTimer (cb : Callback) (delay : Z) (repeat : bool) (w : World)
  : positive * World :=
  let h := nextHandle (browser w) in
  let t := {| handle := h; callback := cb;
              due := (clock (browser w) + delay)%Z;
              period := if repeat then Some delay else None |} in
  (h, set_browser
        {| clock := clock (browser w);
           timers := (timers (browser w) ++ [t])%list;
           nextHandle := Pos.succ h;
           permission := permission (browser w);
           localStorage := localStorage (browser w);
           notifications := notifications (browser w);
           requests := requests (browser w) |} w).

Definition setTimeout (cb : Callback) (delay : Z) (w : World) : positive * World :=
  addTimer cb delay false w.

Definition setInterval (cb : Callback) (delay : Z) (w : World) : positive * World :=
  addTimer cb delay true w.

(** [clearTimeout(h)] and [clearInterval(h)]: one pool of handles; a handle
    that is not pending clears nothing. *)
Definition clearTimer (h : positive) (w : World) : World :=
  set_timers (List.filter (fun t => negb (Pos.eqb (handle t) h)) (timers (browser w))) w.

(** [new Notification(title, options)]; the index of the new notification is
    returned. *)
Definition raise (n : Notification) (w : World) : nat * World :=
  (length (notifications (browser w)),
   set_browser
     {| clock := clock (browser w); timers := timers (browser w);
        nextHandle := nextHandle (browser w);
        permission := permission (browser w);
        localStorage := localStorage (browser w);
        notifications := (notifications (browser w) ++ [n])%list;
        requests := requests (browser w) |} w).

(** [fetch(url)] as seen from the browser: the request is sent. *)
Definition sent (r : Request) (w : World) : World :=
  set_browser
    {| clock := clock (browser w); timers := timers (browser w);
       nextHandle := nextHandle (browser w);
       permission := permission (browser w);
       localStorage := localStorage (browser w);
       notifications := notifications (browser w);
       requests := (requests (browser w) ++ [r])%list |} w.

(** *** Presentation helpers *)

Definition showLoading (w : World) : World :=
  set_page {| alertsToggle_checked := alertsToggle_checked (page w);
              loading := true; errorVisible := false;
              errorText := errorText (page w) |} w.

Definition hideLoading (w : World) : World :=
  set_page {| alertsToggle_checked := alertsToggle_checked (page w);
              loading := false; errorVisible := errorVisible (page w);
              errorText := errorText (page w) |} w.

Definition showError (message : string) (w : World) : World :=
  let w := set_page {| alertsToggle_checked := alertsToggle_checked (page w);
                       loading := loading (page w); errorVisible := true;
                       errorText := message |} w in
  snd (setTimeout HideError 5000 w).

Definition hideError (w : World) : World :=
  set_page {| alertsToggle_checked := alertsToggle_checked (page w);
              loading := loading (page w); errorVisible := false;
              errorText := errorText (page w) |} w.

(** *** Alert notifications *)

(** The identity under which an alert is remembered as shown. *)
Definition alertId (alert : Alert) : string :=
  event alert ++ "-" ++ JS.int_to_string (start alert)
  ++ "-" ++ JS.int_to_string (end_ alert).

(** [JSON.parse(localStorage.getItem('shownAlerts') || '[]')]. *)
Definition shownAlerts (w : World) : list string :=
  match localStorage (browser w) !! "shownAlerts" with
  | Some (StoredStrings l) => l
  | _ => []
  end.

(** The notification raised for an alert. *)
Definition notificationFor (alert : Alert) : Notification :=
  let severity := WeatherService.getAlertSeverity alert in
  {| title := JS.toUpperCase severity ++ " Weather Alert: " ++ event alert;
     body := description alert;
     icon := "/favicon.ico";
     tag := "weather-alert-" ++ JS.int_to_string (start alert);
     requireInteraction := String.eqb severity "severe" |}.

(** One turn of the [newAlerts.forEach] loop: raise the notification, arm its
    closing unless it is severe, push the identity on the local array. *)
Definition notifyOne (acc : World * list string) (alert : Alert)
  : World * list string :=
  let (w, shown) := acc in
  let severity := WeatherService.getAlertSeverity alert in
  let (index, w) := raise (notificationFor alert) w in
  let w := if negb (String.eqb severity "severe")
           then snd (setTimeout (CloseNotification index)
                       CONFIG.ALERTS.NOTIFICATION_DURATION w)
           else w in
  (w, (shown ++ [alertId alert])%list).

Definition showAlertNotifications (alerts : list Alert) (w : World) : World :=
  match alerts with
  | [] => w
  | _ =>
      let shown := shownAlerts w in
      let newAlerts :=
        List.filter (fun alert => negb (JS.array_includes shown (alertId alert))) alerts in
      match newAlerts with
      | [] => w
      | _ =>
          let (w, shown) := fold_left notifyOne newAlerts (w, shown) in
          set_localStorage
            (<["shownAlerts" := StoredStrings shown]> (localStorage (browser w))) w
      end
  end.

(** [processAlerts], for a snapshot that is present: the list of alerts is
    rendered, and new ones are notified when the permission is granted. *)
Definition processAlerts (w : World) : World :=
  match weatherData (this w) with
  | None => w
  | Some data =>
      match alerts data with
      | [] => w
      | _ =>
          match permission (browser w) with
          | PermissionGranted => showAlertNotifications (alerts data) w
          | _ => w
          end
      end
  end.

(** *** Timers of the scheduler *)

Definition startAlertChecking (w : World) : World :=
  let w := match alertCheckInterval (this w) with
           | Some h => clearTimer h w
           | None => w
           end in
  let (h, w) := setInterval AlertCheck CONFIG.ALERTS.CHECK_INTERVAL w in
  set_alertCheckInterval (Some h) w.

Definition toggleAlerts (enabled : bool) (w : World) : World :=
  if enabled then startAlertChecking w
  else
    match alertCheckInterval (this w) with
    | Some h => set_alertCheckInterval None (clearTimer h w)
    | None => w
    end.

Definition setupAutoRefresh (w : World) : World :=
  let w := match refreshTimer (this w) with
           | Some h => clearTimer h w
           | None => w
           end in
  let (h, w) := setTimeout AutoRefresh CONFIG.DEFAULTS.REFRESH_INTERVAL w in
  set_refreshTimer (Some h) w.

(** *** Fetching *)

Definition service : WeatherService.t := WeatherService.new.

(** [updateWeatherUI()], as far as the scheduler goes.  The panels are drawn
    outside the [World]; [Display] has the entries they select.  With a
    snapshot held, [updateCurrentWeather] is followed by [updateForecast],
    which reads [this.weatherData.forecast.slice]: a [TypeError] when the
    combined answer had no [daily]. *)
Definition updateWeatherUI (w : World) : Result World :=
  match weatherData (this w) with
  | None => Return w
  | Some data =>
      match forecast data with
      | Some _ => Return w
      | None => Throw (TypeError (JS.reading_undefined "slice"))
      end
  end.

(** [fetchWeatherData]: the [try] block runs until the first [throw]; the
    [catch] shows the message; [finally] hides the loading indicator.  After
    the panels, [mapsService.updateMap] moves the map of the maps service,
    whose state is apart from the [World] ([MapsService.updateMap]);
    [CONFIG.UI.ENABLE_CHARTS] is not defined, so no chart is updated from
    here. *)
Definition fetchWeatherData (net : Provider) (w : World) : World :=
  match currentLocation (this w) with
  | None => w
  | Some location =>
      let w := showLoading w in
      let w := sent (WeatherService.oneCallRequest service location true) w in
      match WeatherService.getOneCallData service net location true with
      | Throw error => hideLoading (showError (message error) w)
      | Return oneCallData =>
          let w := sent (WeatherService.currentWeatherRequest service location) w in
          match WeatherService.getCurrentWeather service net location with
          | Throw error => hideLoading (showError (message error) w)
          | Return currentWeather =>
              let w := set_weatherData
                         (Some {| current := currentWeather;
                                  forecast := OneCall.daily oneCallData;
                                  hourly := default [] (OneCall.hourly oneCallData);
                                  alerts := default [] (OneCall.alerts oneCallData) |})
                         w in
              match updateWeatherUI w with
              | Throw error => hideLoading (showError (message error) w)
              | Return w =>
                  let w := processAlerts w in
                  let w := match permission (browser w) with
                           | PermissionGranted => startAlertChecking w
                           | _ => w
                           end in
                  let w := setupAutoRefresh w in
                  hideLoading w
              end
          end
      end
  end.

(** The callback of the alert interval. *)
Definition checkAlerts (net : Provider) (w : World) : World :=
  match currentLocation (this w) with
  | Some location =>
      if alertsToggle_checked (page w) then
        let w := sent (WeatherService.oneCallRequest service location true) w in
        match WeatherService.getOneCallData service net location true with
        | Throw _ => w
        | Return oneCallData =>
            match weatherData (this w) with
            | None => w
            | Some data =>
                let data := {| current := current data;
                               forecast := forecast data;
                               hourly := hourly data;
                               alerts := default [] (OneCall.alerts oneCallData) |} in
                processAlerts (set_weatherData (Some data) w)
            end
        end
      else w
  | None => w
  end.

(** The callback of the refresh timer. *)
Definition autoRefresh (net : Provider) (w : World) : World :=
  match currentLocation (this w) with
  | Some _ => fetchWeatherData net w
  | None => w
  end.

Definition run (net : Provider) (cb : Callback) (w : World) : World :=
  match cb with
  | AlertCheck => checkAlerts net w
  | AutoRefresh => autoRefresh net w
  | HideError => hideError w
  | CloseNotification _ => w
  end.

(** The timer with handle [h] fires at the time it is due: a timeout leaves
    the pending timers, an interval is due again one period later; then the
    callback runs against the provider as it answers at that time. *)
Definition fire (net : Provider) (h : positive) (w : World) : World :=
  match find (fun t => Pos.eqb (handle t) h) (timers (browser w)) with
  | None => w
  | Some t =>
      let rest := List.filter (fun t' => negb (Pos.eqb (handle t') h)) (timers (browser w)) in
      let pending :=
        match period t with
        | None => rest
        | Some p => (rest ++ [{| handle := h; callback := callback t;
                                  due := (due t + p)%Z; period := Some p |}])%list
        end in
      let w := set_browser
                 {| clock := Z.max (clock (browser w)) (due t);
                    timers := pending;
                    nextHandle := nextHandle (browser w);
                    permission := permission (browser w);
                    localStorage := localStorage (browser w);
                    notifications := notifications (browser w);
                    requests := requests (browser w) |} w in
      run net (callback t) w
  end.

(** *** Choosing a location *)

(** [saveLocation]: the current location is written to the local storage. *)
Definition saveLocation (w : World) : World :=
  match currentLocation (this w) with
  | Some location =>
      set_localStorage
        (<["weatherLocation" := StoredLocation location]> (localStorage (browser w))) w
  | None => w
  end.

(** [searchLocation(query)]; [locations[0]] of an empty array is [undefined],
    and reading its [lat] throws. *)
Definition searchLocation (net : Provider) (query : string) (w : World) : World :=
  let w := showLoading w in
  let w := sent (WeatherService.geocodingRequest service query) w in
  match WeatherService.searchLocation service net query with
  | Throw error => hideLoading (showError (message error) w)
  | Return locations =>
      match locations with
      | [] =>
          hideLoading
            (showError "Cannot read properties of undefined (reading 'lat')" w)
      | location :: _ =>
          let w := set_currentLocation
                     (Some {| lat := lat location; lon := lon location;
                              name := name location;
                              country := country location |}) w in
          let w := saveLocation w in
          let w := fetchWeatherData net w in
          hideLoading w
      end
  end.

(** [new WeatherApp()] in a browser whose storage is empty, with the given
    notification permission and state of the alerts toggle. *)
Definition new (p : Permission) (toggle : bool) : World :=
  {| this := {| currentLocation := None; weatherData := None;
                alertCheckInterval := None; refreshTimer := None |};
     page := {| alertsToggle_checked := toggle; loading := false;
                errorVisible := false; errorText := "" |};
     browser := {| clock := 0; timers := []; nextHandle := 1;
                   permission := p; localStorage := ∅;
                   notifications := []; requests := [] |} |}.

(** The [change] listener of the alerts toggle. *)
Definition alertsToggle_change (enabled : bool) (w : World) : World :=
  let w := set_page {| alertsToggle_checked := enabled;
                       loading := loading (page w);
                       errorVisible := errorVisible (page w);
                       errorText := errorText (page w) |} w in
  match currentLocation (this w) with
  | Some _ => toggleAlerts enabled w
  | None => w
  end.

(** [requestNotificationPermission], resumed with the user's answer. *)
Definition requestNotificationPermission (answer : Permission) (w : World) : World :=
  let w := set_browser
             {| clock := clock (browser w); timers := timers (browser w);
                nextHandle := nextHandle (browser w);
                permission := answer;
                localStorage := localStorage (browser w);
                notifications := notifications (browser w);
                requests := requests (browser w) |} w in
  match answer, currentLocation (this w) with
  | PermissionGranted, Some _ => startAlertChecking w
  | _, _ => w
  end.

(** Time passes. *)
Definition wait (elapsed : Z) (w : World) : World :=
  set_browser
    {| clock := (clock (browser w) + Z.max 0 elapsed)%Z;
       timers := timers (browser w);
       nextHandle := nextHandle (browser w);
       permission := permission (browser w);
       localStorage := localStorage (browser w);
       notifications := notifications (browser w);
       requests := requests (browser w) |} w.

(** What can happen to the application: a search, the alerts toggle, the
    answer to the permission prompt, a pending timer firing, time passing. *)
Inductive step : World -> World -> Prop :=
| step_search net query w :
    step w (searchLocation net query w)
| step_toggle enabled w :
    step w (alertsToggle_change enabled w)
| step_permission answer w :
    step w (requestNotificationPermission answer w)
| step_fire net h w :
    step w (fire net h w)
| step_wait elapsed w :
    step w (wait elapsed w).

(** The worlds reached from a freshly constructed application. *)
Inductive reachable : World -> Prop :=
| reachable_new p toggle : reachable (new p toggle)
| reachable_step w w' : reachable w -> step w w' -> reachable w'.

End WeatherApp.

(** ** [js/user.js]: class [UserService] *)

Module UserService.

(** The fields of the instance, the storage it reads and writes, and the
    messages passed to [window.alert], oldest first. *)
Record State := {
  currentUser : option Object;
  savedLocations : list SavedLocation.t;
  localStorage : gmap string Stored;
  alerted : list string
}.

(** [alert(message)]. *)
Definition alert (message : string) (st : State) : State :=
  {| currentUser := currentUser st;
     savedLocations := savedLocations st;
     localStorage := localStorage st;
     alerted := (alerted st ++ [message])%list |}.

(** [getStoredItem(key)]: the parsed item, [None] for [null]. *)
Definition getStoredItem (key : string) (st : State) : option Stored :=
  localStorage st !! ("weather_app_" ++ key).

Definition setStoredItem (key : string) (v : Stored) (st : State) : State :=
  {| currentUser := currentUser st;
     savedLocations := savedLocations st;
     localStorage := <["weather_app_" ++ key := v]> (localStorage st);
     alerted := alerted st |}.

Definition removeStoredItem (key : string) (st : State) : State :=
  {| currentUser := currentUser st;
     savedLocations := savedLocations st;
     localStorage := delete ("weather_app_" ++ key) (localStorage st);
     alerted := alerted st |}.

(** [this.getStoredItem('users') || []]. *)
Definition storedUsers (st : State) : list User.t :=
  match getStoredItem "users" st with
  | Some (StoredUsers users) => users
  | _ => []
  end.

(** [user.id === this.currentUser.id]. *)
Definition isCurrent (st : State) (user : User.t) : bool :=
  match currentUser st with
  | Some session =>
      match prop session "id" with
      | Some i => String.eqb (User.id user) i
      | None => false
      end
  | None => false
  end.

(** [users[userIndex].savedLocations = locations] at the first index that
    satisfies [p]; [users] is returned unchanged when there is none. *)
Fixpoint assignSavedLocations (p : User.t -> bool) (locations : list SavedLocation.t)
  (users : list User.t) : option (list User.t) :=
  match users with
  | [] => None
  | user :: rest =>
      if p user then
        Some ({| User.id := User.id user; User.name := User.name user;
                 User.email := User.email user;
                 User.password := User.password user;
                 User.savedLocations := locations |} :: rest)
      else option_map (cons user) (assignSavedLocations p locations rest)
  end.

Definition updateUserSavedLocations (st : State) : State :=
  match currentUser st with
  | None => st
  | Some _ =>
      match assignSavedLocations (isCurrent st) (savedLocations st) (storedUsers st) with
      | Some users => setStoredItem "users" (StoredUsers users) st
      | None => st
      end
  end.

Definition login (email password : string) (st : State) : State :=
  let users := storedUsers st in
  match find (fun user => String.eqb (User.email user) email
                          && String.eqb (User.password user) password) users with
  | None => alert "Invalid email or password" st
  | Some user =>
      let session := [("id", User.id user);
                      ("name", User.name user);
                      ("email", User.email user)] in
      let st := {| currentUser := Some session;
                   savedLocations := User.savedLocations user;
                   localStorage := localStorage st;
                   alerted := alerted st |} in
      setStoredItem "currentUser" (StoredObject session) st
  end.

(** [register(name, email, password)]; [now] is [Date.now()]. *)
Definition register (name email password : string) (now : Z) (st : State) : State :=
  let users := storedUsers st in
  match find (fun user => String.eqb (User.email user) email) users with
  | Some _ => alert "User with this email already exists" st
  | None =>
      let newUser := {| User.id := JS.int_to_string now;
                        User.name := name;
                        User.email := email;
                        User.password := password;
                        User.savedLocations := [] |} in
      let st := setStoredItem "users" (StoredUsers (users ++ [newUser])%list) st in
      login email password st
  end.

Definition logout (st : State) : State :=
  removeStoredItem "currentUser"
    {| currentUser := None;
       savedLocations := [];
       localStorage := localStorage st;
       alerted := alerted st |}.

Definition limitMessage : string :=
  "You can only save up to " ++ JS.nat_to_string CONFIG.UI.SAVED_LOCATIONS_LIMIT
  ++ " locations. Please remove one first.".

(** [saveLocation(location)]; [None] is a [null] location, [now] is
    [Date.now()]. *)
Definition saveLocation (location : option Location) (now : Z) (st : State) : State :=
  match currentUser st, location with
  | Some _, Some location =>
      match find (fun loc =>
                    JS.number_strict_eq (SavedLocation.lat loc) (lat location)
                    && JS.number_strict_eq (SavedLocation.lon loc) (lon location))
                 (savedLocations st) with
      | Some _ => alert "This location is already saved" st
      | None =>
          if (CONFIG.UI.SAVED_LOCATIONS_LIMIT <=? length (savedLocations st))%nat
          then alert limitMessage st
          else
            let saved := {| SavedLocation.id := JS.int_to_string now;
                            SavedLocation.name := name location;
                            SavedLocation.country := country location;
                            SavedLocation.lat := lat location;
                            SavedLocation.lon := lon location |} in
            updateUserSavedLocations
              {| currentUser := currentUser st;
                 savedLocations := (savedLocations st ++ [saved])%list;
                 localStorage := localStorage st;
                 alerted := alerted st |}
      end
  | _, _ => st
  end.

Definition removeLocation (locationId : string) (st : State) : State :=
  match currentUser st with
  | None => st
  | Some _ =>
      updateUserSavedLocations
        {| currentUser := currentUser st;
           savedLocations :=
             List.filter (fun location =>
                       negb (String.eqb (SavedLocation.id location) locationId))
                    (savedLocations st);
           localStorage := localStorage st;
           alerted := alerted st |}
  end.

(** [loadUserData], as the constructor runs it over a storage: the session
    is read back, and the saved locations of the user it names. *)
Definition loadUserData (st : State) : State :=
  match getStoredItem "currentUser" st with
  | Some (StoredObject session) =>
      let st := {| currentUser := Some session;
                   savedLocations := savedLocations st;
                   localStorage := localStorage st;
                   alerted := alerted st |} in
      match find (isCurrent st) (storedUsers st) with
      | Some user =>
          {| currentUser := Some session;
             savedLocations := User.savedLocations user;
             localStorage := localStorage st;
             alerted := alerted st |}
      | None => st
      end
  | _ =>
      {| currentUser := None;
         savedLocations := savedLocations st;
         localStorage := localStorage st;
         alerted := alerted st |}
  end.

(** [new UserService()] over the storage the browser holds. *)
Definition new (storage : gmap string Stored) : State :=
  loadUserData
    {| currentUser := None; savedLocations := [];
       localStorage := storage; alerted := [] |}.

(** What can happen to the service: the forms and buttons of the page, and
    a reload of the page, which constructs the service anew over the storage. *)
Inductive step : State -> State -> Prop :=
| step_register name email password now st :
    step st (register name email password now st)
| step_login email password st :
    step st (login email password st)
| step_logout st :
    step st (logout st)
| step_saveLocation location now st :
    step st (saveLocation location now st)
| step_removeLocation locationId st :
    step st (removeLocation locationId st)
| step_reload st :
    step st (new (localStorage st)).

(** The states the service reaches from a browser with an empty storage. *)
Inductive reachable : State -> Prop :=
| reachable_new : reachable (new ∅)
| reachable_step st st' : reachable st -> step st st' -> reachable st'.

End UserService.

(** ** [js/weather.js] and [js/app.js]: the device's position and saved places *)

Module Locating.

Import WeatherApp.

Definition REVERSE_GEOCODING : string := "https://api.openweathermap.org/geo/1.0/reverse".

(** What [reverseGeocode] throws: an error of the gateway, or the error for
    an answer without candidates. *)
Inductive Failure :=
| Gateway (e : Error)
| NoLocationData.

(** [error.message]. *)
Definition failureMessage (f : Failure) : string :=
  match f with
  | Gateway e => message e
  | NoLocationData => "No location data found for these coordinates"
  end.

(** How [reverseGeocode] ends: [return data[0]] or [throw]. *)
Inductive Located :=
| Found (locationData : Location)
| Failed (f : Failure).

Definition reverseGeocodingRequest (this : WeatherService.t) (lat lon : JS.number)
  : Request :=
  {| endpoint := REVERSE_GEOCODING;
     params := [("lat", PNumber lat);
                ("lon", PNumber lon);
                ("limit", PInt 1);
                ("appid", PText (WeatherService.apiKey this))] |}.

(** [reverseGeocode(lat, lon)] of [WeatherService], against the reverse
    geocoding endpoint of the provider. *)
Definition reverseGeocode (this : WeatherService.t)
  (reverse : Request -> Response (list Location)) (lat lon : JS.number) : Located :=
  match WeatherService.receive "Reverse geocoding"
          (reverse (reverseGeocodingRequest this lat lon)) with
  | Throw e => Failed (Gateway e)
  | Return data =>
      match data with
      | [] => Failed NoLocationData
      | first :: _ => Found first
      end
  end.

(** What [navigator.geolocation] does with [getCurrentPosition]: it is
    missing, it calls the success callback with the coordinates, or it calls
    the error callback with a [GeolocationPositionError] of some code. *)
Inductive Geolocation :=
| Unsupported
| Position (latitude longitude : JS.number)
| PositionError (code : nat).

Definition PERMISSION_DENIED : nat := 1.
Definition POSITION_UNAVAILABLE : nat := 2.
Definition TIMEOUT : nat := 3.

(** The [switch] of the error callback. *)
Definition positionErrorMessage (code : nat) : string :=
  if (code =? PERMISSION_DENIED)%nat
  then "Location access was denied. Please enable location services."
  else if (code =? POSITION_UNAVAILABLE)%nat
  then "Location information is unavailable."
  else if (code =? TIMEOUT)%nat
  then "Location request timed out."
  else "Unable to retrieve your location".

(** [getCurrentLocation()] of [WeatherApp], run with what the device does. *)
Definition getCurrentLocation (reverse : Request -> Response (list Location))
  (net : Provider) (device : Geolocation) (w : World) : World :=
  match device with
  | Unsupported => showError "Geolocation is not supported by your browser" w
  | Position latitude longitude =>
      let w := showLoading w in
      let w := sent (reverseGeocodingRequest service latitude longitude) w in
      match reverseGeocode service reverse latitude longitude with
      | Failed failure => hideLoading (showError (failureMessage failure) w)
      | Found locationData =>
          let w := set_currentLocation
                     (Some {| lat := latitude; lon := longitude;
                              name := name locationData;
                              country := country locationData |}) w in
          let w := saveLocation w in
          let w := fetchWeatherData net w in
          hideLoading w
      end
  | PositionError code =>
      let w := showLoading w in
      hideLoading (showError (positionErrorMessage code) w)
  end.

(** [loadSavedLocation(lat, lon)] of [WeatherApp].  The class body declares
    [loadSavedLocation] twice; the second declaration, this one, replaces the
    first, which took no argument and read the stored location. *)
Definition loadSavedLocation (reverse : Request -> Response (list Location))
  (net : Provider) (lat lon : JS.value) (w : World) : World :=
  if JS.falsy lat || JS.falsy lon then w
  else
    let w := showLoading w in
    let w := sent (reverseGeocodingRequest service (JS.Number lat) (JS.Number lon)) w in
    match reverseGeocode service reverse (JS.Number lat) (JS.Number lon) with
    | Failed failure => hideLoading (showError (failureMessage failure) w)
    | Found locationData =>
        let w := set_currentLocation
                   (Some {| lat := JS.Number lat; lon := JS.Number lon;
                            name := name locationData;
                            country := country locationData |}) w in
        let w := saveLocation w in
        fetchWeatherData net w
    end.

(** The [click] listener of an entry of the saved-locations list: the
    coordinates are read back from the [data-lat] and [data-lon] attributes
    the entry was rendered with. *)
Definition savedLocation_click (reverse : Request -> Response (list Location))
  (net : Provider) (entry : SavedLocation.t) (w : World) : World :=
  loadSavedLocation reverse net
    (JS.Num (SavedLocation.lat entry)) (JS.Num (SavedLocation.lon entry)) w.

(** [new WeatherApp()] in a browser that holds [storage]. *)
Definition construct (storage : gmap string Stored) (p : Permission) (toggle : bool)
  : World :=
  {| this := {| currentLocation := None; weatherData := None;
                alertCheckInterval := None; refreshTimer := None |};
     page := {| alertsToggle_checked := toggle; loading := false;
                errorVisible := false; errorText := "" |};
     browser := {| clock := 0; timers := []; nextHandle := 1;
                   permission := p; localStorage := storage;
                   notifications := []; requests := [] |} |}.

(** [initialize()], as far as the scheduler goes: its last statement is
    [this.loadSavedLocation()], a call without arguments. *)
Definition initialize (reverse : Request -> Response (list Location))
  (net : Provider) (w : World) : World :=
  loadSavedLocation reverse net JS.Undefined JS.Undefined w.

(** What can happen to the application, the position button and the saved
    list included. *)
Inductive step : World -> World -> Prop :=
| step_app w w' :
    WeatherApp.step w w' -> step w w'
| step_position reverse net device w :
    step w (getCurrentLocation reverse net device w)
| step_saved reverse net lat lon w :
    step w (loadSavedLocation reverse net lat lon w).

(** The worlds reached from a page just loaded, whatever the browser has
    stored. *)
Inductive reachable : World -> Prop :=
| reachable_initialize reverse net storage p toggle :
    reachable (initialize reverse net (construct storage p toggle))
| reachable_step w w' : reachable w -> step w w' -> reachable w'.

End Locating.

(** ** [js/app.js]: the theme *)

Module Theme.

(** [this.currentTheme], the item [theme] of the local storage (a plain
    string, not JSON), and the [data-bs-theme] attribute of the document
    element as far as the application has set it. *)
Record State := {
  currentTheme : string;
  stored : option string;
  attribute : option string
}.

(** The constructor: [localStorage.getItem('theme') || 'light']. *)
Definition construct (storedTheme : option string) : State :=
  {| currentTheme := match storedTheme with
                     | None => "light"
                     | Some theme => if String.eqb theme "" then "light" else theme
                     end;
     stored := storedTheme;
     attribute := None |}.

Definition applyTheme (theme : string) (st : State) : State :=
  {| currentTheme := theme; stored := Some theme; attribute := Some theme |}.

(** [initialize()], as far as the theme goes. *)
Definition initialize (st : State) : State := applyTheme (currentTheme st) st.

(** The [click] listener of the theme toggle. *)
Definition themeToggle_click (st : State) : State :=
  let newTheme := if String.eqb (currentTheme st) "light" then "dark" else "light" in
  applyTheme newTheme st.

(** The icon the listener sets for the theme it has applied. *)
Definition icon (newTheme : string) : string :=
  if String.eqb newTheme "dark" then "fas fa-sun" else "fas fa-moon".

(** The page loaded over a stored theme, and the toggle clicked [n] times. *)
Definition loaded (storedTheme : option string) (n : nat) : State :=
  Nat.iter n themeToggle_click (initialize (construct storedTheme)).

End Theme.

(** ** [js/app.js] and [js/weather.js]: what the panels show *)

Module Display.

Import WeatherApp.

(** [l.slice(start, end)] for indices that are natural numbers. *)
Definition slice {A} (start end_ : nat) (l : list A) : list A :=
  firstn (end_ - start) (skipn start l).

Section Formatted.

Variable exponential : Q -> string.

(** [formatWindSpeed(speed)] of [WeatherService]. *)
Definition formatWindSpeed (this : WeatherService.t) (speed : JS.value) : string :=
  if JS.falsy speed && JS.strict_ne_zero speed then "--"
  else if String.eqb (WeatherService.units this) "imperial"
       then JS.toFixed exponential (JS.Number speed) 1 ++ " mph"
       else JS.toFixed exponential (JS.Number speed) 1 ++ " m/s".

(** The temperatures of a forecast item: maximum, a slash, minimum. *)
Definition dayTemperatures (day : DayForecast) : string :=
  WeatherService.formatTemperature exponential service (day_max day)
  ++ " / " ++ WeatherService.formatTemperature exponential service (day_min day).

(** [updateForecast()]: the temperatures of the items appended to the
    forecast container, in order; [None] is the [TypeError] of reading
    [slice] of a forecast that is [undefined]. *)
Definition updateForecast (data : WeatherData) : option (list string) :=
  match forecast data with
  | None => None
  | Some days =>
      Some (map dayTemperatures (slice 1 (CONFIG.UI.MAX_FORECAST_DAYS + 1) days))
  end.

(** [updateHourlyForecast()]: the temperatures of the items appended to the
    hourly container, in order. *)
Definition updateHourlyForecast (data : WeatherData) : list string :=
  map (fun hour => WeatherService.formatTemperature exponential service (hour_temp hour))
    (slice 0 CONFIG.UI.MAX_HOURLY_FORECAST (hourly data)).

End Formatted.

End Display.

(** ** [js/maps.js]: class [MapsService], with the map methods of [js/weather.js] *)

Module MapsService.

Definition WEATHER_MAPS : string := "https://tile.openweathermap.org/map/".

(** The radar feed: the host of the images, and the past and forecast frames. *)
Record FrameData := {
  time : Z;
  path : string
}.

Record Radar := {
  past : option (list FrameData);
  nowcast : option (list FrameData)
}.

Record RadarData := {
  host : string;
  radar : option Radar
}.

(** What a caller passes to [getRadarImageUrl] for [radarData]: the feed, or
    a string. *)
Inductive RadarArgument :=
| Feed (data : RadarData)
| Text (s : string).

(** [getRadarImageUrl(radarData, frameIndex, zoom, x, y)] of
    [WeatherService]; [None] is [null].  A string is falsy when empty and has
    no property [radar] otherwise; an index outside the array reads
    [undefined]. *)
Definition getRadarImageUrl (radarData : RadarArgument) (frameIndex zoom x y : Z)
  : option string :=
  match radarData with
  | Text _ => None
  | Feed data =>
      match radar data with
      | None => None
      | Some r =>
          match past r with
          | None => None
          | Some frames =>
              match (if (0 <=? frameIndex)%Z then nth_error frames (Z.to_nat frameIndex)
                     else None) with
              | None => None
              | Some frame =>
                  Some (host data ++ path frame ++ "/" ++ JS.int_to_string zoom
                        ++ "/" ++ JS.int_to_string x ++ "/" ++ JS.int_to_string y
                        ++ "/0/0_0.png")
              end
          end
      end
  end.

(** [getMapTileUrl(mapType, zoom, x, y)] of [WeatherService]. *)
Definition getMapTileUrl (this : WeatherService.t) (mapType : string) (zoom x y : Z)
  : string :=
  WEATHER_MAPS ++ mapType ++ "/" ++ JS.int_to_string zoom ++ "/" ++ JS.int_to_string x
  ++ "/" ++ JS.int_to_string y ++ ".png?appid=" ++ WeatherService.apiKey this.

(** A layer put on the map. *)
Inductive Layer :=
| TileLayer (url : string)
| ImageOverlay (url : option string).

(** An entry of [this.radarFrames]. *)
Record RadarFrame := {
  url : option string;
  timestamp : Z;
  isNowcast : bool
}.

(** What a timer of the service runs: a step of the radar animation (an
    interval), or the fallback after a failed load (a timeout). *)
Inductive Callback :=
| Animate
| Fallback.

Record Timer := {
  handle : positive;
  callback : Callback
}.

(** The fields of the instance, and the part of the map and of the page it
    writes: the markers put on the map, the pending timers it has set, the
    loading indicator of the map, the error notes in the map container, and
    the timestamp shown for the radar.  [currentRadarFrame] is a number:
    [None] is NaN. *)
Record State := {
  currentLayer : option Layer;
  currentMapType : string;
  radarFrames : list RadarFrame;
  radarAnimationInterval : option positive;
  currentRadarFrame : option nat;
  markers : list Location;
  timers : list Timer;
  nextHandle : positive;
  mapLoading : bool;
  errorNotes : nat;
  radarTimestamp : option Z
}.

(** [new MapsService()]; the map is created, maps being enabled. *)
Definition new : State :=
  {| currentLayer := None;
     currentMapType := "precipitation";
     radarFrames := [];
     radarAnimationInterval := None;
     currentRadarFrame := Some 0%nat;
     markers := [];
     timers := [];
     nextHandle := 1;
     mapLoading := false;
     errorNotes := 0;
     radarTimestamp := None |}.

Definition set_currentLayer (v : option Layer) (st : State) : State :=
  {| currentLayer := v; currentMapType := currentMapType st;
     radarFrames := radarFrames st;
     radarAnimationInterval := radarAnimationInterval st;
     currentRadarFrame := currentRadarFrame st; markers := markers st;
     timers := timers st; nextHandle := nextHandle st;
     mapLoading := mapLoading st; errorNotes := errorNotes st;
     radarTimestamp := radarTimestamp st |}.

Definition set_currentMapType (v : string) (st : State) : State :=
  {| currentLayer := currentLayer st; currentMapType := v;
     radarFrames := radarFrames st;
     radarAnimationInterval := radarAnimationInterval st;
     currentRadarFrame := currentRadarFrame st; markers := markers st;
     timers := timers st; nextHandle := nextHandle st;
     mapLoading := mapLoading st; errorNotes := errorNotes st;
     radarTimestamp := radarTimestamp st |}.

Definition set_radar (frames : list RadarFrame) (current : option nat) (st : State)
  : State :=
  {| currentLayer := currentLayer st; currentMapType := currentMapType st;
     radarFrames := frames;
     radarAnimationInterval := radarAnimationInterval st;
     currentRadarFrame := current; markers := markers st;
     timers := timers st; nextHandle := nextHandle st;
     mapLoading := mapLoading st; errorNotes := errorNotes st;
     radarTimestamp := radarTimestamp st |}.

Definition set_radarAnimationInterval (v : option positive) (st : State) : State :=
  {| currentLayer := currentLayer st; currentMapType := currentMapType st;
     radarFrames := radarFrames st;
     radarAnimationInterval := v;
     currentRadarFrame := currentRadarFrame st; markers := markers st;
     timers := timers st; nextHandle := nextHandle st;
     mapLoading := mapLoading st; errorNotes := errorNotes st;
     radarTimestamp := radarTimestamp st |}.

Definition set_mapLoading (v : bool) (st : State) : State :=
  {| currentLayer := currentLayer st; currentMapType := currentMapType st;
     radarFrames := radarFrames st;
     radarAnimationInterval := radarAnimationInterval st;
     currentRadarFrame := currentRadarFrame st; markers := markers st;
     timers := timers st; nextHandle := nextHandle st;
     mapLoading := v; errorNotes := errorNotes st;
     radarTimestamp := radarTimestamp st |}.

Definition set_errorNotes (v : nat) (st : State) : State :=
  {| currentLayer := currentLayer st; currentMapType := currentMapType st;
     radarFrames := radarFrames st;
     radarAnimationInterval := radarAnimationInterval st;
     currentRadarFrame := currentRadarFrame st; markers := markers st;
     timers := timers st; nextHandle := nextHandle st;
     mapLoading := mapLoading st; errorNotes := v;
     radarTimestamp := radarTimestamp st |}.

(** [setInterval] and [setTimeout]: the handle, and the state with the timer
    pending. *)
Definition addTimer (cb : Callback) (st : State) : positive * State :=
  let h := nextHandle st in
  (h, {| currentLayer := currentLayer st; currentMapType := currentMapType st;
         radarFrames := radarFrames st;
         radarAnimationInterval := radarAnimationInterval st;
         currentRadarFrame := currentRadarFrame st; markers := markers st;
         timers := (timers st ++ [{| handle := h; callback := cb |}])%list;
         nextHandle := Pos.succ h;
         mapLoading := mapLoading st; errorNotes := errorNotes st;
         radarTimestamp := radarTimestamp st |}).

(** [clearInterval(h)], and a timeout leaving the pending timers. *)
Definition clearTimer (h : positive) (st : State) : State :=
  {| currentLayer := currentLayer st; currentMapType := currentMapType st;
     radarFrames := radarFrames st;
     radarAnimationInterval := radarAnimationInterval st;
     currentRadarFrame := currentRadarFrame st; markers := markers st;
     timers := List.filter (fun t => negb (Pos.eqb (handle t) h)) (timers st);
     nextHandle := nextHandle st;
     mapLoading := mapLoading st; errorNotes := errorNotes st;
     radarTimestamp := radarTimestamp st |}.

(** [showRadarFrame(frameIndex)]: nothing for an index without a frame;
    otherwise the layer is replaced by the overlay of the frame. *)
Definition showRadarFrame (frameIndex : option nat) (st : State) : State :=
  match frameIndex with
  | None => st
  | Some i =>
      match nth_error (radarFrames st) i with
      | None => st
      | Some frame =>
          {| currentLayer := Some (ImageOverlay (url frame));
             currentMapType := currentMapType st;
             radarFrames := radarFrames st;
             radarAnimationInterval := radarAnimationInterval st;
             currentRadarFrame := currentRadarFrame st; markers := markers st;
             timers := timers st; nextHandle := nextHandle st;
             mapLoading := mapLoading st; errorNotes := errorNotes st;
             radarTimestamp := Some (timestamp frame) |}
      end
  end.

(** The callback of the animation interval:
    [(this.currentRadarFrame + 1) % this.radarFrames.length]. *)
Definition animate (st : State) : State :=
  let next := match currentRadarFrame st, length (radarFrames st) with
              | Some i, S n => Some ((i + 1) mod S n)%nat
              | _, _ => None
              end in
  showRadarFrame next (set_radar (radarFrames st) next st).

Definition startRadarAnimation (st : State) : State :=
  let st := showRadarFrame (Some 0%nat) st in
  let (h, st) := addTimer Animate st in
  set_radarAnimationInterval (Some h) st.

(** The entry [processRadarFrames] pushes for a frame of the feed. *)
Definition frameOf (forecast : bool) (frame : FrameData) : RadarFrame :=
  {| url := getRadarImageUrl (Text (path frame)) (time frame) 5 0 0;
     timestamp := time frame;
     isNowcast := forecast |}.

(** [processRadarFrames(radarData, location)]; [None] is the [TypeError] of
    reading [past] of a feed without [radar], or [length] of a missing
    [past]. *)
Definition processRadarFrames (radarData : RadarData) (st : State) : option State :=
  match radar radarData with
  | None => None
  | Some r =>
      match past r with
      | None => None
      | Some pastFrames =>
          let frames := (map (frameOf false) pastFrames
                         ++ match nowcast r with
                            | Some nowcastFrames => map (frameOf true) nowcastFrames
                            | None => []
                            end)%list in
          let st := set_radar frames (Some 0%nat) st in
          Some (match frames with
                | [] => st
                | _ => startRadarAnimation st
                end)
      end
  end.

(** The [catch] block of [loadRadarData]: the indicator is hidden, an error
    note is put in the map container, and the fallback is due 3 seconds
    later. *)
Definition radarFailed (st : State) : State :=
  let st := set_mapLoading false st in
  let st := set_errorNotes (S (errorNotes st)) st in
  snd (addTimer Fallback st).

(** [loadRadarData(location)], resumed with the answer of the radar feed. *)
Definition loadRadarData (feed : Response RadarData) (st : State) : State :=
  let st := set_mapLoading true st in
  match WeatherService.receive "Radar" feed with
  | Throw _ => radarFailed st
  | Return radarData =>
      match radar radarData with
      | None => radarFailed st
      | Some r =>
          match past r with
          | None => radarFailed st
          | Some _ =>
              match processRadarFrames radarData st with
              | None => radarFailed st
              | Some st => set_mapLoading false st
              end
          end
      end
  end.

Definition addTileLayer (layer : string) (st : State) : State :=
  set_currentLayer (Some (TileLayer (getMapTileUrl WeatherApp.service layer 5 0 0))) st.

(** [setMapType(mapType)]; [appLocation] is [app.currentLocation]. *)
Definition setMapType (mapType : string) (appLocation : option Location)
  (feed : Response RadarData) (st : State) : State :=
  let st := set_currentMapType mapType st in
  let st := match currentLayer st with
            | Some _ => set_currentLayer None st
            | None => st
            end in
  let st := match radarAnimationInterval st with
            | Some h => set_radarAnimationInterval None (clearTimer h st)
            | None => st
            end in
  match appLocation with
  | None => st
  | Some _ =>
      if String.eqb mapType "precipitation" then addTileLayer "precipitation_new" st
      else if String.eqb mapType "temperature" then addTileLayer "temp_new" st
      else if String.eqb mapType "clouds" then addTileLayer "clouds_new" st
      else if String.eqb mapType "wind" then addTileLayer "wind_new" st
      else if String.eqb mapType "radar" then loadRadarData feed st
      else addTileLayer "precipitation_new" st
  end.

(** [updateMap(location)]; the two feeds are the answers to the two loads
    it can start. *)
Definition updateMap (location appLocation : option Location)
  (feed feed' : Response RadarData) (st : State) : State :=
  match location with
  | None => st
  | Some l =>
      let st := {| currentLayer := currentLayer st;
                   currentMapType := currentMapType st;
                   radarFrames := radarFrames st;
                   radarAnimationInterval := radarAnimationInterval st;
                   currentRadarFrame := currentRadarFrame st;
                   markers := (markers st ++ [l])%list;
                   timers := timers st; nextHandle := nextHandle st;
                   mapLoading := mapLoading st; errorNotes := errorNotes st;
                   radarTimestamp := radarTimestamp st |} in
      let st := setMapType (currentMapType st) appLocation feed st in
      if String.eqb (currentMapType st) "radar" then loadRadarData feed' st else st
  end.

(** The timer with handle [h] fires: the animation steps, or the fallback
    removes its note and switches to the precipitation map. *)
Definition fire (h : positive) (appLocation : option Location)
  (feed : Response RadarData) (st : State) : State :=
  match find (fun t => Pos.eqb (handle t) h) (timers st) with
  | None => st
  | Some t =>
      match callback t with
      | Animate => animate st
      | Fallback =>
          let st := clearTimer h st in
          let st := set_errorNotes (Nat.pred (errorNotes st)) st in
          setMapType "precipitation" appLocation feed st
      end
  end.

(** The pending steps of the radar animation. *)
Definition animations (st : State) : list Timer :=
  List.filter (fun t => match callback t with Animate => true | Fallback => false end)
    (timers st).

(** The entries [processRadarFrames] builds from a feed. *)
Definition framesOf (r : Radar) : list RadarFrame :=
  (map (frameOf false) (default [] (past r))
   ++ map (frameOf true) (default [] (nowcast r)))%list.

(** The timers are in order: handles are distinct and were handed out, and
    the handle held is that of a pending animation. *)
Definition orderly (st : State) : Prop :=
  List.NoDup (map handle (timers st))
  /\ (forall t, In t (timers st) -> (handle t < nextHandle st)%positive)
  /\ (forall h, radarAnimationInterval st = Some h ->
        In {| handle := h; callback := Animate |} (timers st)).

End MapsService.

(** ** What the provider is relied on for *)

(** The value of the query parameter [key], the first one when repeated. *)
Fixpoint param (key : string) (ps : list (string * Param)) : option Param :=
  match ps with
  | [] => None
  | (k, v) :: rest => if String.eqb k key then Some v else param key rest
  end.

(** A comma-separated list, split at the commas. *)
Fixpoint split_commas (s : string) : list string :=
  match s with
  | EmptyString => [EmptyString]
  | String c s' =>
      if Ascii.eqb c "," then EmptyString :: split_commas s'
      else
        match split_commas s' with
        | [] => [String c EmptyString]
        | part :: parts => String c part :: parts
        end
  end.

(** The parts of the combined answer a request asks the provider to leave out. *)
Definition excluded (req : Request) : list string :=
  match param "exclude" (params req) with
  | Some (PText parts) => split_commas parts
  | _ => []
  end.

(** The provider leaves out the hourly part when the request excludes it. *)
Definition honours_exclude (net : Provider) : Prop :=
  forall req body,
    onecall net req = Ok body -> In "hourly" (excluded req) -> OneCall.hourly body = None.

(** The provider returns no more candidates than the request's limit. *)
Definition honours_limit (net : Provider) : Prop :=
  forall req data n,
    geocoding net req = Ok data -> param "limit" (params req) = Some (PInt n) ->
    (0 <= n)%Z -> (Z.of_nat (length data) <= n)%Z.

(** ** ASCII text *)

(** Every byte of the string is below 0x80. *)
Fixpoint isAscii (s : string) : bool :=
  match s with
  | EmptyString => true
  | String b s' => (N_of_ascii b <? 0x80)%N && isAscii s'
  end.

(** The ASCII capital letters to their small letters; every other byte is
    kept. *)
Definition lower_ascii (c : ascii) : ascii :=
  let n := nat_of_ascii c in
  if (65 <=? n)%nat && (n <=? 90)%nat then ascii_of_nat (n + 32) else c.

(** The ASCII small letters to their capital letters. *)
Definition upper_ascii (c : ascii) : ascii :=
  let n := nat_of_ascii c in
  if (97 <=? n)%nat && (n <=? 122)%nat then ascii_of_nat (n - 32) else c.

Fixpoint mapBytes (f : ascii -> ascii) (s : string) : string :=
  match s with
  | EmptyString => EmptyString
  | String b s' => String (f b) (mapBytes f s')
  end.

(** ** The specification's reading of severity classification *)

(** [needle] occurs in [s] as a contiguous substring. *)
Definition occursIn (needle s : string) : Prop :=
  exists before after, s = before ++ needle ++ after.

(** A keyword matches an alert when its lower-cased form occurs in the
    lower-cased event or in the lower-cased description. *)
Definition keyword_matches (alert : Alert) (keyword : string) : bool :=
  JS.includes (JS.toLowerCase (event alert)) (JS.toLowerCase keyword)
  || JS.includes (JS.toLowerCase (description alert)) (JS.toLowerCase keyword).

(** The three tables flattened in declaration order, each keyword paired with
    the severity it stands for. *)
Definition severity_table : list (string * string) :=
  map (fun k => ("severe", k)) CONFIG.ALERTS.SEVERE
  ++ map (fun k => ("moderate", k)) CONFIG.ALERTS.MODERATE
  ++ map (fun k => ("minor", k)) CONFIG.ALERTS.MINOR.

(** First matching table entry wins; no match is moderate. *)
Definition classifySeverity (alert : Alert) : string :=
  match find (fun entry => keyword_matches alert (snd entry)) severity_table with
  | Some entry => fst entry
  | None => "moderate"
  end.

(** ** Predicates of the specification over the scheduler *)

Section SchedulerSpec.

Import WeatherApp.

(** The snapshot a successful fetch stores. *)
Definition snapshotOf (oneCallData : OneCall.Data) (currentWeather : CurrentWeather)
  : WeatherApp.WeatherData :=
  {| WeatherApp.current := currentWeather;
     WeatherApp.forecast := OneCall.daily oneCallData;
     WeatherApp.hourly := default [] (OneCall.hourly oneCallData);
     WeatherApp.alerts := default [] (OneCall.alerts oneCallData) |}.

(** Every pending timer has a handle that was handed out; a pending timer
    runs the alert check exactly when its handle is the one the instance
    holds in [alertCheckInterval], and the refresh exactly when it is the
    one held in [refreshTimer]; the handles held were handed out. *)
Definition timer_ok (w : World) (t : Timer) : Prop :=
  (handle t < nextHandle (browser w))%positive
  /\ (callback t = AlertCheck <-> alertCheckInterval (this w) = Some (handle t))
  /\ (callback t = AutoRefresh <-> refreshTimer (this w) = Some (handle t)).

Definition scheduler_ok (w : World) : Prop :=
  (forall t, In t (timers (browser w)) -> timer_ok w t)
  /\ (forall h, alertCheckInterval (this w) = Some h ->
                (h < nextHandle (browser w))%positive)
  /\ (forall h, refreshTimer (this w) = Some h ->
                (h < nextHandle (browser w))%positive).

Definition isAlertCheck (t : Timer) : bool :=
  match callback t with AlertCheck => true | _ => false end.

Definition isAutoRefresh (t : Timer) : bool :=
  match callback t with AutoRefresh => true | _ => false end.

(** Between [w] and [w'] an alert poll was made or is due sooner than one
    full check interval after [w]: a request was sent, or a pending alert
    check is due before [clock w + CHECK_INTERVAL]. *)
Definition firstPollImmediate (w w' : World) : bool :=
  negb (length (requests (browser w')) =? length (requests (browser w)))%nat
  || existsb (fun t => isAlertCheck t
                       && (due t <? clock (browser w) + CONFIG.ALERTS.CHECK_INTERVAL)%Z)
       (timers (browser w')).

(** The alert interval that [startAlertChecking] arms in [w]. *)
Definition alertTimerArmedIn (w : World) : Timer :=
  {| handle := nextHandle (browser w); callback := AlertCheck;
     due := (clock (browser w) + CONFIG.ALERTS.CHECK_INTERVAL)%Z;
     period := Some CONFIG.ALERTS.CHECK_INTERVAL |}.

(** How a fetch for [location] fails: with the error of the combined
    request, or, that one answered, with the error of the current-conditions
    request. *)
Definition fetchFailsWith (net : Provider) (location : Location) (error : Error)
  : Prop :=
  WeatherService.getOneCallData service net location true = Throw error
  \/ (exists oneCallData,
        WeatherService.getOneCallData service net location true = Return oneCallData
        /\ WeatherService.getCurrentWeather service net location = Throw error).

(** The alerts of a poll that the deduplication step takes for new: those
    whose identity is not in the log as the step finds it. *)
Definition newAlerts (alerts : list Alert) (w : World) : list Alert :=
  List.filter (fun alert => negb (JS.array_includes (shownAlerts w) (alertId alert)))
    alerts.

(** The deduplication step run over successive polls. *)
Fixpoint pollAll (polls : list (list Alert)) (w : World) : World :=
  match polls with
  | [] => w
  | alerts :: rest => pollAll rest (showAlertNotifications alerts w)
  end.

(** The alerts taken for new over successive polls, in order. *)
Fixpoint notifiedAll (polls : list (list Alert)) (w : World) : list Alert :=
  match polls with
  | [] => []
  | alerts :: rest =>
      (newAlerts alerts w ++ notifiedAll rest (showAlertNotifications alerts w))%list
  end.

(** Two alerts are the same occurrence: same event, start and end. *)
Definition sameIdentity (a b : Alert) : bool :=
  String.eqb (event a) (event b)
  && Z.eqb (start a) (start b) && Z.eqb (end_ a) (end_ b).

End SchedulerSpec.

(** ** Predicates of the specification over the user registry *)

(** The session record of a user: identifier, name and email. *)
Definition sessionOf (user : User.t) : Object :=
  [("id", User.id user); ("name", User.name user); ("email", User.email user)].

(** The credentials a login form submits match a registered user. *)
Definition credentialsMatch (email password : string) (user : User.t) : bool :=
  String.eqb (User.email user) email && String.eqb (User.password user) password.

(** A location is among the saved ones: same latitude and longitude. *)
Definition alreadySaved (location : Location) (saved : list SavedLocation.t) : bool :=
  existsb (fun loc =>
             JS.number_strict_eq (SavedLocation.lat loc) (lat location)
             && JS.number_strict_eq (SavedLocation.lon loc) (lon location))
          saved.

(** The bound on saved locations, in memory and for every registered user
    in the storage. *)
Definition withinLimit (st : UserService.State) : Prop :=
  (length (UserService.savedLocations st) <= CONFIG.UI.SAVED_LOCATIONS_LIMIT)%nat
  /\ (forall user, In user (UserService.storedUsers st) ->
        (length (User.savedLocations user) <= CONFIG.UI.SAVED_LOCATIONS_LIMIT)%nat).

(** A session, in memory or in the storage, has the properties [id], [name]
    and [email] and no other. *)
Definition sessionsBare (st : UserService.State) : Prop :=
  (forall session, UserService.currentUser st = Some session ->
     keys session = ["id"; "name"; "email"])
  /\ (forall v, UserService.getStoredItem "currentUser" st = Some v ->
        exists session, v = StoredObject session
                        /\ keys session = ["id"; "name"; "email"]).

(** The hourly entries of a combined answer. *)
Definition hourlyEntries (data : OneCall.Data) : list HourForecast :=
  default [] (OneCall.hourly data).

(** [net] with its geocoding endpoint replaced. *)
Definition withGeocoding (g : Request -> Response (list Location)) (net : Provider)
  : Provider :=
  {| onecall := onecall net; current_weather := current_weather net; geocoding := g |}.

(** The double nearest to 21.549, [0x1.58c8b43958106p+4], as an exact
    rational: 6065504273137926 / 2^48. *)
Definition double_21_549 : Q := 6065504273137926 # 281474976710656.

(** The doubles that the literals [21.45] and [21.55] denote: 21.45 and
    21.55 are no doubles, and the nearest ones are
    6037638250443571 / 2^48, below 21.45, and 6065785748114637 / 2^48, above
    21.55.  Between 16 and 32 two neighbouring doubles are 2^-48 apart. *)
Definition double_21_45 : Q := 6037638250443571 # 281474976710656.

Definition double_21_55 : Q := 6065785748114637 # 281474976710656.

Definition ulp_16_32 : Q := 1 # 281474976710656.

(** ** Providers and data for worked scenarios *)

Module Scenario.

Definition london : Location :=
  {| lat := JS.Finite (515074 # 10000); lon := JS.Finite (-1278 # 10000);
     name := "London"; country := "GB" |}.

Definition londonOntario : Location :=
  {| lat := JS.Finite (429849 # 10000); lon := JS.Finite (-812453 # 10000);
     name := "London"; country := "CA" |}.

Definition floodWarning : Alert :=
  {| event := "Flood Warning"; description := "River levels are rising.";
     start := 1000; end_ := 2000 |}.

(** The same occurrence as [floodWarning], worded differently. *)
Definition floodWarningReworded : Alert :=
  {| event := "Flood Warning"; description := "Hochwasser: der Pegel steigt.";
     start := 1000; end_ := 2000 |}.

Definition conditions : CurrentWeather :=
  {| dt := 1700000000; temp := JS.Num (JS.Finite (6065504273137926 # 281474976710656));
     feels_like := JS.Null |}.

Definition hours : list HourForecast :=
  [{| hour_dt := 1700003600; hour_temp := JS.Num (JS.Finite 20) |}].

Definition days : list DayForecast :=
  [{| day_dt := 1700000000; day_max := JS.Num (JS.Finite 22);
      day_min := JS.Num (JS.Finite 15) |}].

(** A provider that answers every request, leaves out of the combined answer
    the parts the request excludes, reports [alerts], and returns [candidates]
    cut to the limit of the request. *)
Definition answering (alerts : list Alert) (candidates : list Location) : Provider :=
  {| onecall := fun req =>
       Ok {| OneCall.daily := Some days;
             OneCall.hourly :=
               if existsb (String.eqb "hourly") (excluded req) then None
               else Some hours;
             OneCall.alerts := Some alerts |};
     current_weather := fun _ => Ok conditions;
     geocoding := fun req =>
       match param "limit" (params req) with
       | Some (PInt n) => Ok (firstn (Z.to_nat n) candidates)
       | _ => Ok candidates
       end |}.

(** A provider that is down. *)
Definition unavailable : Provider :=
  {| onecall := fun _ => Status 503 "Service Unavailable";
     current_weather := fun _ => Status 503 "Service Unavailable";
     geocoding := fun _ => Status 503 "Service Unavailable" |}.

(** A provider whose combined endpoint answers, with a flood warning in
    force, while its current-conditions endpoint fails. *)
Definition halfDown : Provider :=
  {| onecall := onecall (answering [floodWarning] []);
     current_weather := fun _ => Status 500 "Internal Server Error";
     geocoding := geocoding unavailable |}.

(** Notifications are granted and alerts enabled; the user has searched for
    London while the provider answered, with no alert in force: the snapshot
    is held and both timers are armed. *)
Definition ready : WeatherApp.World :=
  WeatherApp.searchLocation (answering [] [london; londonOntario]) "London"
    (WeatherApp.new WeatherApp.PermissionGranted true).

Definition place (n : Z) : Location :=
  {| lat := JS.Finite (inject_Z n); lon := JS.Finite (inject_Z (2 * n));
     name := "Place " ++ JS.int_to_string n; country := "GB" |}.

(** Ada registers in a browser with an empty storage and saves five places. *)
Definition adaWithFive : UserService.State :=
  fold_left (fun st n => UserService.saveLocation (Some (place n)) (1700000000000 + n) st)
    [1; 2; 3; 4; 5]%Z
    (UserService.register "Ada" "ada@example.org" "s3cret" 1700000000000
       (UserService.new ∅)).

End Scenario.

(** ** Further predicates over the user registry *)

(** The record [register] builds for a new user. *)
Definition newUser (name email password : string) (now : Z) : User.t :=
  {| User.id := JS.int_to_string now; User.name := name; User.email := email;
     User.password := password; User.savedLocations := [] |}.

(** The entry [saveLocation] builds for a location. *)
Definition savedAs (location : Location) (now : Z) : SavedLocation.t :=
  {| SavedLocation.id := JS.int_to_string now;
     SavedLocation.name := name location;
     SavedLocation.country := country location;
     SavedLocation.lat := lat location;
     SavedLocation.lon := lon location |}.

(** Two saved entries are the same place: [lat] and [lon] strictly equal. *)
Definition samePlace (a b : SavedLocation.t) : bool :=
  JS.number_strict_eq (SavedLocation.lat a) (SavedLocation.lat b)
  && JS.number_strict_eq (SavedLocation.lon a) (SavedLocation.lon b).

(** No two entries of a list are the same place. *)
Fixpoint distinctPlaces (l : list SavedLocation.t) : Prop :=
  match l with
  | [] => True
  | a :: rest => (forall b, In b rest -> samePlace a b = false) /\ distinctPlaces rest
  end.

(** The entries of a list that do not carry the identifier. *)
Definition withoutId (locationId : string) (l : list SavedLocation.t)
  : list SavedLocation.t :=
  List.filter (fun location => negb (String.eqb (SavedLocation.id location) locationId)) l.

(** What a reload of the page finds: the service constructed anew over the
    storage the state leaves behind. *)
Definition reloaded (st : UserService.State) : UserService.State :=
  UserService.new (UserService.localStorage st).

(** A user's record with its saved locations replaced, as
    [users[userIndex].savedLocations = locations] leaves it. *)
Definition withSavedLocations (locations : list SavedLocation.t) (user : User.t) : User.t :=
  {| User.id := User.id user; User.name := User.name user;
     User.email := User.email user; User.password := User.password user;
     User.savedLocations := locations |}.

(** A property of saved lists holds of the list in memory and of the list of
    every registered user in the storage. *)
Definition everywhere (P : list SavedLocation.t -> Prop) (st : UserService.State) : Prop :=
  P (UserService.savedLocations st)
  /\ (forall user, In user (UserService.storedUsers st) -> P (User.savedLocations user)).

(** Memory and storage agree: logged out, no session is stored and no place
    is held; logged in, the stored session is the one in memory, and the saved
    list in memory is that of the stored user [loadUserData] would find. *)
Definition inSync (st : UserService.State) : Prop :=
  match UserService.currentUser st with
  | None =>
      UserService.getStoredItem "currentUser" st = None
      /\ UserService.savedLocations st = []
  | Some session =>
      UserService.getStoredItem "currentUser" st = Some (StoredObject session)
      /\ exists user,
           find (UserService.isCurrent st) (UserService.storedUsers st) = Some user
           /\ User.savedLocations user = UserService.savedLocations st
  end.

(** The session held is that of a registered user. *)
Definition sessionKnown (st : UserService.State) : Prop :=
  forall session,
    UserService.currentUser st = Some session ->
    In session (map sessionOf (UserService.storedUsers st)).

(** ** Further predicates over the scheduler *)

(** From [w] to [w'] no notification was raised, and the permission, the
    storage and the location held are as they were. *)
Definition quiet (w w' : WeatherApp.World) : Prop :=
  WeatherApp.notifications (WeatherApp.browser w')
  = WeatherApp.notifications (WeatherApp.browser w)
  /\ WeatherApp.permission (WeatherApp.browser w')
     = WeatherApp.permission (WeatherApp.browser w)
  /\ WeatherApp.localStorage (WeatherApp.browser w')
     = WeatherApp.localStorage (WeatherApp.browser w)
  /\ WeatherApp.currentLocation (WeatherApp.this w')
     = WeatherApp.currentLocation (WeatherApp.this w).

(** Since [w0], notifications were raised for exactly the alerts [notified],
    in this order, and the identities of exactly these were added to the log
    of shown alerts. *)
Definition notifiedSince (w0 w : WeatherApp.World) (notified : list Alert) : Prop :=
  WeatherApp.notifications (WeatherApp.browser w)
  = (WeatherApp.notifications (WeatherApp.browser w0)
     ++ map WeatherApp.notificationFor notified)%list
  /\ WeatherApp.shownAlerts w
     = (WeatherApp.shownAlerts w0 ++ map WeatherApp.alertId notified)%list.

(** The location held is the one the storage holds under [weatherLocation]. *)
Definition locationStored (w : WeatherApp.World) : Prop :=
  forall location,
    WeatherApp.currentLocation (WeatherApp.this w) = Some location ->
    WeatherApp.localStorage (WeatherApp.browser w) !! "weatherLocation"
    = Some (StoredLocation location).

(** No two pending timers share a handle. *)
Definition handlesDistinct (w : WeatherApp.World) : Prop :=
  List.NoDup (map WeatherApp.handle (WeatherApp.timers (WeatherApp.browser w))).

(** The pending timers and the handles held agree, and no two pending timers
    share a handle. *)
Definition tidy (w : WeatherApp.World) : Prop :=
  scheduler_ok w /\ handlesDistinct w.

(** Further states of the registry for worked scenarios. *)
Module Cases.

(** A reverse geocoder that knows one place, whatever the coordinates. *)
Definition naming (place : Location) : Request -> Response (list Location) :=
  fun _ => Ok [place].

(** A reverse geocoder that knows no place. *)
Definition nowhere : Request -> Response (list Location) :=
  fun _ => Ok [].

(** A provider whose geocoding endpoint answers while the weather endpoints
    are down. *)
Definition geocodingOnly (candidates : list Location) : Provider :=
  {| onecall := onecall Scenario.unavailable;
     current_weather := current_weather Scenario.unavailable;
     geocoding := geocoding (Scenario.answering [] candidates) |}.

(** A place on the equator, saved by a user. *)
Definition quito : SavedLocation.t :=
  {| SavedLocation.id := "1700000000000"; SavedLocation.name := "Quito";
     SavedLocation.country := "EC";
     SavedLocation.lat := JS.Finite 0; SavedLocation.lon := JS.Finite (-785 # 10) |}.

(** A flood warning is in force when the alert interval of [Scenario.ready]
    fires for the first time. *)
Definition warned : WeatherApp.World :=
  WeatherApp.fire (Scenario.answering [Scenario.floodWarning] []) 1 Scenario.ready.

(** A radar feed with two past frames and one forecast frame. *)
Definition sweep : MapsService.Radar :=
  {| MapsService.past :=
       Some [{| MapsService.time := 1700000000; MapsService.path := "/v2/radar/1700000000" |};
             {| MapsService.time := 1700000600; MapsService.path := "/v2/radar/1700000600" |}];
     MapsService.nowcast :=
       Some [{| MapsService.time := 1700001200;
                MapsService.path := "/v2/radar/nowcast_1700001200" |}] |}.

Definition feed : MapsService.RadarData :=
  {| MapsService.host := "https://tilecache.rainviewer.com";
     MapsService.radar := Some sweep |}.

(** Ada has registered and then logged out. *)
Definition adaLoggedOut : UserService.State :=
  UserService.logout
    (UserService.register "Ada" "ada@example.org" "s3cret" 1700000000000
       (UserService.new ∅)).

(** Ada and Grace have both registered; Grace is logged in and has saved
    one place. *)
Definition graceWithOne : UserService.State :=
  UserService.saveLocation (Some (Scenario.place 7)) 1700000000900
    (UserService.register "Grace" "grace@example.org" "h0pper" 1700000000500
       adaLoggedOut).

(** Bob registers in the very millisecond in which Ada did, and is logged
    in. *)
Definition bobSameMillisecond : UserService.State :=
  UserService.register "Bob" "bob@example.org" "builder" 1700000000000 adaLoggedOut.

(** A provider that takes no notice of the [exclude] and [limit] parameters:
    its combined answer always has the hourly part, and it returns every
    candidate it knows. *)
Definition heedless (candidates : list Location) : Provider :=
  {| onecall := fun _ =>
       Ok {| OneCall.daily := Some Scenario.days;
             OneCall.hourly := Some Scenario.hours;
             OneCall.alerts := Some [] |};
     current_weather := fun _ => Ok Scenario.conditions;
     geocoding := fun _ => Ok candidates |}.

Definition sixPlaces : list Location := map Scenario.place [1; 2; 3; 4; 5; 6]%Z.


End Cases.

(** * Properties *)

Section Severity.

Lemma prefix_occurs (needle s : string) :
  String.prefix needle s = true <-> exists after, s = needle ++ after.
Proof.
  revert s. induction needle as [|c needle IH]; intros s.
  - split; [intros _; now exists s|intros _; destruct s; reflexivity].
  - destruct s as [|d s]; simpl.
    + split; [discriminate|intros [after H]; discriminate].
    + destruct (ascii_dec c d) as [->|Hne].
      * rewrite IH. split; intros [after H]; exists after.
        -- simpl. now rewrite H.
        -- simpl in H. now injection H.
      * split; [discriminate|]. intros [after H]. simpl in H.
        injection H as Hd _. now symmetry in Hd.
Qed.

(** [includes] decides occurrence as a substring. *)
Lemma includes_occursIn (s needle : string) :
  JS.includes s needle = true <-> occursIn needle s.
Proof.
  unfold occursIn. induction s as [|c s IH]; cbn [JS.includes].
  - rewrite orb_false_r, prefix_occurs. split.
    + intros [after H]. now exists "", after.
    + intros (before & after & H). destruct before; [|discriminate].
      now exists after.
  - rewrite orb_true_iff, prefix_occurs, IH. split.
    + intros [[after H]|(before & after & H)].
      * now exists "", after.
      * exists (String c before), after. simpl. now rewrite H.
    + intros (before & after & H). destruct before as [|d before].
      * left. now exists after.
      * right. simpl in H. injection H as _ H. now exists before, after.
Qed.

Lemma keyword_matches_occurs (alert : Alert) (keyword : string) :
  keyword_matches alert keyword = true <->
  occursIn (JS.toLowerCase keyword) (JS.toLowerCase (event alert))
  \/ occursIn (JS.toLowerCase keyword) (JS.toLowerCase (description alert)).
Proof.
  unfold keyword_matches. now rewrite orb_true_iff, !includes_occursIn.
Qed.

Lemma scan_keywords_find (alert : Alert) (level : string) (keywords : list string) :
  WeatherService.scan_keywords
    (JS.toLowerCase (event alert)) (JS.toLowerCase (description alert)) level keywords
  = option_map (fun _ => JS.toLowerCase level)
      (find (keyword_matches alert) keywords).
Proof.
  induction keywords as [|k ks IH]; simpl; [reflexivity|].
  unfold keyword_matches at 1.
  destruct (JS.includes _ _ || JS.includes _ _); [reflexivity | exact IH].
Qed.

Lemma find_map_snd {A B} (p : B -> bool) (a : A) (l : list B) :
  find (fun entry : A * B => p (snd entry)) (map (fun k => (a, k)) l)
  = option_map (fun k => (a, k)) (find p l).
Proof.
  induction l as [|x l IH]; simpl; [reflexivity|].
  destruct (p x); [reflexivity | exact IH].
Qed.

Lemma find_app_split {A} (p : A -> bool) (l1 l2 : list A) :
  find p (l1 ++ l2)%list = match find p l1 with Some x => Some x | None => find p l2 end.
Proof.
  induction l1 as [|x l1 IH]; simpl; [reflexivity|].
  destruct (p x); [reflexivity | exact IH].
Qed.

Lemma existsb_find {A} (p : A -> bool) (l : list A) :
  existsb p l = match find p l with Some _ => true | None => false end.
Proof.
  induction l as [|x l IH]; simpl; [reflexivity|].
  destruct (p x); [reflexivity | exact IH].
Qed.

Lemma find_first_match {A} (p : A -> bool) (pre post : list A) (x : A) :
  (forall y, In y pre -> p y = false) -> p x = true ->
  find p (pre ++ x :: post)%list = Some x.
Proof.
  intros Hpre Hx. induction pre as [|y pre IH]; simpl.
  - now rewrite Hx.
  - rewrite (Hpre y) by now left.
    apply IH. intros z Hz. apply Hpre. now right.
Qed.

(** The loops of the source compute the first match over the flattened table. *)
Lemma getAlertSeverity_classifySeverity (alert : Alert) :
  WeatherService.getAlertSeverity alert = classifySeverity alert.
Proof.
  unfold WeatherService.getAlertSeverity, classifySeverity, severity_table,
    CONFIG.ALERTS.SEVERITY_LEVELS.
  cbn [WeatherService.scan_levels].
  rewrite !scan_keywords_find, !find_app_split, !find_map_snd.
  destruct (find (keyword_matches alert) CONFIG.ALERTS.SEVERE); [reflexivity|].
  destruct (find (keyword_matches alert) CONFIG.ALERTS.MODERATE); [reflexivity|].
  destruct (find (keyword_matches alert) CONFIG.ALERTS.MINOR); reflexivity.
Qed.

Lemma classifySeverity_cases (alert : Alert) :
  classifySeverity alert =
    if existsb (keyword_matches alert) CONFIG.ALERTS.SEVERE then "severe"
    else if existsb (keyword_matches alert) CONFIG.ALERTS.MODERATE then "moderate"
    else if existsb (keyword_matches alert) CONFIG.ALERTS.MINOR then "minor"
    else "moderate".
Proof.
  unfold classifySeverity, severity_table.
  rewrite !existsb_find, !find_app_split, !find_map_snd.
  destruct (find (keyword_matches alert) CONFIG.ALERTS.SEVERE); [reflexivity|].
  destruct (find (keyword_matches alert) CONFIG.ALERTS.MODERATE); [reflexivity|].
  destruct (find (keyword_matches alert) CONFIG.ALERTS.MINOR); reflexivity.
Qed.

(** *** Case *)

Lemma ascii_byte_lower (b : ascii) :
  (N_of_ascii b <? 0x80)%N = true ->
  (N_of_ascii b =? 0x3A3)%N = false
  /\ Unicode.lower (N_of_ascii b) = [N_of_ascii (lower_ascii b)]
  /\ Unicode.utf8 (N_of_ascii (lower_ascii b)) = String (lower_ascii b) EmptyString.
Proof.
  destruct b as [[] [] [] [] [] [] [] []]; intros H; try discriminate H;
    vm_compute; repeat split.
Qed.

Lemma ascii_byte_upper (b : ascii) :
  (N_of_ascii b <? 0x80)%N = true ->
  Unicode.upper (N_of_ascii b) = [N_of_ascii (upper_ascii b)]
  /\ Unicode.utf8 (N_of_ascii (upper_ascii b)) = String (upper_ascii b) EmptyString
  /\ (N_of_ascii (upper_ascii b) <? 0x80)%N = true.
Proof.
  destruct b as [[] [] [] [] [] [] [] []]; intros H; try discriminate H;
    vm_compute; repeat split.
Qed.

Lemma codePoints_ascii (b : ascii) (s : string) :
  (N_of_ascii b <? 0x80)%N = true ->
  Unicode.codePoints (String b s)
  = Unicode.CodePoint (N_of_ascii b) :: Unicode.codePoints s.
Proof. intros H. cbn [Unicode.codePoints]. now rewrite H. Qed.

(** On ASCII text the conversions are the maps of the ASCII letters. *)
Lemma toLowerCase_ascii (s : string) :
  isAscii s = true -> JS.toLowerCase s = mapBytes lower_ascii s.
Proof.
  unfold JS.toLowerCase. generalize false.
  induction s as [|b s IH]; intros after H; [reflexivity|].
  cbn [isAscii] in H. apply andb_prop in H as [Hb Hs].
  rewrite (codePoints_ascii b s Hb).
  destruct (ascii_byte_lower b Hb) as (Hsigma & Hlower & Hbyte).
  cbn [Unicode.toLower]. rewrite Hsigma, Hlower.
  cbn [map app Unicode.toString]. rewrite Hbyte, IH by exact Hs. reflexivity.
Qed.

Lemma toUpperCase_ascii (s : string) :
  isAscii s = true -> JS.toUpperCase s = mapBytes upper_ascii s.
Proof.
  unfold JS.toUpperCase.
  induction s as [|b s IH]; intros H; [reflexivity|].
  cbn [isAscii] in H. apply andb_prop in H as [Hb Hs].
  rewrite (codePoints_ascii b s Hb).
  destruct (ascii_byte_upper b Hb) as (Hupper & Hbyte & _).
  cbn [Unicode.toUpper]. rewrite Hupper.
  cbn [map app Unicode.toString]. rewrite Hbyte, IH by exact Hs. reflexivity.
Qed.

Lemma isAscii_upper (s : string) :
  isAscii s = true -> isAscii (mapBytes upper_ascii s) = true.
Proof.
  induction s as [|b s IH]; intros H; [reflexivity|].
  cbn [isAscii] in H. apply andb_prop in H as [Hb Hs].
  cbn [mapBytes isAscii]. destruct (ascii_byte_upper b Hb) as (_ & _ & ->).
  now apply IH.
Qed.

Lemma lower_upper_ascii (c : ascii) :
  lower_ascii (upper_ascii c) = lower_ascii c.
Proof. destruct c as [[] [] [] [] [] [] [] []]; reflexivity. Qed.

Lemma lower_upper_bytes (s : string) :
  mapBytes lower_ascii (mapBytes upper_ascii s) = mapBytes lower_ascii s.
Proof.
  induction s as [|c s IH]; simpl; [reflexivity|].
  now rewrite lower_upper_ascii, IH.
Qed.

Lemma toLowerCase_toUpperCase (s : string) :
  isAscii s = true -> JS.toLowerCase (JS.toUpperCase s) = JS.toLowerCase s.
Proof.
  intros H. rewrite (toUpperCase_ascii s H).
  rewrite (toLowerCase_ascii _ (isAscii_upper s H)), (toLowerCase_ascii s H).
  apply lower_upper_bytes.
Qed.

(** The severity depends on the event and the description only through
    their lower-cased forms. *)
Lemma getAlertSeverity_case_insensitive (a b : Alert) :
  JS.toLowerCase (event a) = JS.toLowerCase (event b) ->
  JS.toLowerCase (description a) = JS.toLowerCase (description b) ->
  WeatherService.getAlertSeverity a = WeatherService.getAlertSeverity b.
Proof.
  intros He Hd. unfold WeatherService.getAlertSeverity. now rewrite He, Hd.
Qed.

(** C1. [getAlertSeverity] is a total function of the alert's event and
    description whose value is one of severe, moderate and minor; it is the
    severity of the first keyword, in declaration order of the tables (severe,
    then moderate, then minor), whose lower-cased form occurs in the
    lower-cased event or in the lower-cased description, where lower-casing
    is [String.prototype.toLowerCase]; when no keyword occurs it is
    moderate.  On ASCII text the letter case does not matter: two alerts
    whose events, and whose descriptions, differ only in the case of ASCII
    letters have the same severity, and so has an alert and its
    upper-casing. *)
Theorem getAlertSeverity_first_match (alert : Alert) :
  In (WeatherService.getAlertSeverity alert) ["severe"; "moderate"; "minor"]
  /\ WeatherService.getAlertSeverity alert = classifySeverity alert
  /\ (forall pre severity keyword post,
        severity_table = (pre ++ (severity, keyword) :: post)%list ->
        (forall entry, In entry pre -> keyword_matches alert (snd entry) = false) ->
        keyword_matches alert keyword = true ->
        WeatherService.getAlertSeverity alert = severity)
  /\ ((forall entry, In entry severity_table -> keyword_matches alert (snd entry) = false) ->
      WeatherService.getAlertSeverity alert = "moderate")
  /\ (forall keyword,
        keyword_matches alert keyword = true <->
        occursIn (JS.toLowerCase keyword) (JS.toLowerCase (event alert))
        \/ occursIn (JS.toLowerCase keyword) (JS.toLowerCase (description alert)))
  /\ (forall other,
        isAscii (event alert) = true -> isAscii (description alert) = true ->
        isAscii (event other) = true -> isAscii (description other) = true ->
        mapBytes lower_ascii (event other) = mapBytes lower_ascii (event alert) ->
        mapBytes lower_ascii (description other)
        = mapBytes lower_ascii (description alert) ->
        WeatherService.getAlertSeverity other = WeatherService.getAlertSeverity alert)
  /\ (isAscii (event alert) = true -> isAscii (description alert) = true ->
      WeatherService.getAlertSeverity
        {| event := JS.toUpperCase (event alert);
           description := JS.toUpperCase (description alert);
           start := start alert; end_ := end_ alert |}
      = WeatherService.getAlertSeverity alert).
Proof.
  split; [|split; [|split; [|split; [|split; [|split]]]]].
  7: { intros He Hd.
       apply getAlertSeverity_case_insensitive; now apply toLowerCase_toUpperCase. }
  6: { intros other He Hd He' Hd' Hevent Hdescription.
       apply getAlertSeverity_case_insensitive;
         rewrite !toLowerCase_ascii by assumption; assumption. }
  5: { intros keyword. apply keyword_matches_occurs. }
  all: rewrite getAlertSeverity_classifySeverity.
  2: reflexivity.
  - rewrite classifySeverity_cases.
    destruct (existsb _ CONFIG.ALERTS.SEVERE); [simpl; tauto|].
    destruct (existsb _ CONFIG.ALERTS.MODERATE); [simpl; tauto|].
    destruct (existsb _ CONFIG.ALERTS.MINOR); simpl; tauto.
  - intros pre severity keyword post Htable Hpre Hkw.
    unfold classifySeverity. rewrite Htable.
    rewrite (find_first_match _ pre post (severity, keyword)); auto.
  - intros Hnone. unfold classifySeverity.
    destruct (find _ severity_table) as [entry|] eqn:Hfind; [|reflexivity].
    apply find_some in Hfind as [Hin Hm].
    rewrite (Hnone entry Hin) in Hm. discriminate.
Qed.

(** Lower-casing does not undo every difference of case.  The long s, U+017F,
    is a small letter whose capital is S: the event "tſunami" differs from
    the keyword "Tsunami" only in case (their upper-casings are equal), yet
    the keyword does not match and the alert is moderate, by default, while
    its upper-casing "TSUNAMI" is severe. *)
Lemma getAlertSeverity_long_s :
  let alert := {| event := "tſunami"; description := ""; start := 0; end_ := 0 |} in
  JS.toUpperCase (event alert) = "TSUNAMI"
  /\ JS.toUpperCase (event alert) = JS.toUpperCase "Tsunami"
  /\ In "Tsunami" CONFIG.ALERTS.SEVERE
  /\ keyword_matches alert "Tsunami" = false
  /\ WeatherService.getAlertSeverity alert = "moderate"
  /\ WeatherService.getAlertSeverity
       {| event := JS.toUpperCase (event alert);
          description := JS.toUpperCase (description alert);
          start := start alert; end_ := end_ alert |}
     = "severe".
Proof.
  cbv zeta. split; [vm_compute; reflexivity|]. split; [vm_compute; reflexivity|].
  split; [simpl; tauto|]. vm_compute. repeat split.
Qed.

(** A capital letter of another script is lower-cased like an ASCII one: the
    dotted capital I, U+0130, becomes an i and a combining dot, so that
    "TSUNAMİ UYARISI" holds "tsunami" and is severe. *)
Example getAlertSeverity_dotted_I :
  JS.toLowerCase "TSUNAMİ UYARISI" = "tsunami̇ uyarisi"
  /\ WeatherService.getAlertSeverity
       {| event := "TSUNAMİ UYARISI"; description := ""; start := 0; end_ := 0 |}
     = "severe".
Proof. vm_compute. split; reflexivity. Qed.

(** The order of the tables decides: "Light Rain" is listed as minor, but
    "Rain" is met first, in the moderate table. *)
Example getAlertSeverity_light_rain :
  WeatherService.getAlertSeverity
    {| event := "Light Rain Advisory"; description := ""; start := 0; end_ := 0 |}
  = "moderate".
Proof. reflexivity. Qed.

Example getAlertSeverity_tornado :
  WeatherService.getAlertSeverity
    {| event := "TORNADO Warning"; description := "..."; start := 1000; end_ := 2000 |}
  = "severe".
Proof. reflexivity. Qed.

Example getAlertSeverity_description_only :
  WeatherService.getAlertSeverity
    {| event := "Special Statement"; description := "risk of flash flooding";
       start := 0; end_ := 0 |}
  = "severe".
Proof. reflexivity. Qed.

Example getAlertSeverity_default :
  WeatherService.getAlertSeverity
    {| event := "Heat Advisory"; description := "Hot."; start := 0; end_ := 0 |}
  = "moderate".
Proof. reflexivity. Qed.

Example getAlertSeverity_minor :
  WeatherService.getAlertSeverity
    {| event := "Cloudy"; description := "overcast"; start := 0; end_ := 0 |}
  = "minor".
Proof. reflexivity. Qed.

End Severity.

(** ** The scheduler: what each operation leaves alone *)

(** Drawing the panels changes nothing in the [World]: it returns, or throws
    the [TypeError] of the missing forecast. *)
Lemma updateWeatherUI_cases (w : WeatherApp.World) :
  WeatherApp.updateWeatherUI w = Return w
  \/ WeatherApp.updateWeatherUI w = Throw (TypeError (JS.reading_undefined "slice")).
Proof.
  unfold WeatherApp.updateWeatherUI.
  destruct (WeatherApp.weatherData (WeatherApp.this w)) as [data|]; [|now left].
  destruct (WeatherApp.forecast data); [now left|now right].
Qed.

Ltac render_cases :=
  match goal with
  | |- context [WeatherApp.updateWeatherUI ?w0] =>
      destruct (updateWeatherUI_cases w0) as [->| ->]
  end.

Section Frames.

Import WeatherApp.

Lemma this_notifyOne (acc : World * list string) (a : Alert) :
  this (fst (notifyOne acc a)) = this (fst acc).
Proof.
  destruct acc as [w shown]. unfold notifyOne. simpl.
  destruct (negb _); reflexivity.
Qed.

Lemma this_fold_notifyOne (l : list Alert) (acc : World * list string) :
  this (fst (fold_left notifyOne l acc)) = this (fst acc).
Proof.
  revert acc. induction l as [|a l IH]; intros acc; simpl; [reflexivity|].
  rewrite IH. apply this_notifyOne.
Qed.

Lemma this_showAlertNotifications (l : list Alert) (w : World) :
  this (showAlertNotifications l w) = this w.
Proof.
  unfold showAlertNotifications.
  destruct l as [|a l]; [reflexivity|].
  destruct (List.filter _ (a :: l)) as [|b new] eqn:Hnew; [reflexivity|].
  pose proof (this_fold_notifyOne (b :: new) (w, shownAlerts w)) as H.
  destruct (fold_left notifyOne (b :: new) (w, shownAlerts w)) as [w' shown'].
  exact H.
Qed.

Lemma this_processAlerts (w : World) : this (processAlerts w) = this w.
Proof.
  unfold processAlerts.
  destruct (weatherData (this w)) as [data|]; [|reflexivity].
  destruct (alerts data); [reflexivity|].
  destruct (permission (browser w)); try reflexivity.
  apply this_showAlertNotifications.
Qed.

Lemma weatherData_startAlertChecking (w : World) :
  weatherData (this (startAlertChecking w)) = weatherData (this w).
Proof.
  unfold startAlertChecking. destruct (alertCheckInterval (this w)); reflexivity.
Qed.

Lemma weatherData_setupAutoRefresh (w : World) :
  weatherData (this (setupAutoRefresh w)) = weatherData (this w).
Proof.
  unfold setupAutoRefresh. destruct (refreshTimer (this w)); reflexivity.
Qed.

Lemma currentLocation_startAlertChecking (w : World) :
  currentLocation (this (startAlertChecking w)) = currentLocation (this w).
Proof.
  unfold startAlertChecking. destruct (alertCheckInterval (this w)); reflexivity.
Qed.

Lemma currentLocation_setupAutoRefresh (w : World) :
  currentLocation (this (setupAutoRefresh w)) = currentLocation (this w).
Proof.
  unfold setupAutoRefresh. destruct (refreshTimer (this w)); reflexivity.
Qed.

Lemma currentLocation_fetchWeatherData (net : Provider) (w : World) :
  currentLocation (this (fetchWeatherData net w)) = currentLocation (this w).
Proof.
  unfold fetchWeatherData.
  destruct (currentLocation (this w)) as [location|] eqn:Hloc; [|exact Hloc].
  destruct (WeatherService.getOneCallData service net location true) as [o|e];
    [|exact Hloc].
  destruct (WeatherService.getCurrentWeather service net location) as [c|e];
    [|exact Hloc].
  render_cases; [|exact Hloc].
  cbn [hideLoading set_page this].
  rewrite currentLocation_setupAutoRefresh.
  match goal with
  | |- currentLocation (this (match ?p with _ => _ end)) = _ =>
      destruct p; rewrite ?currentLocation_startAlertChecking
  end; rewrite this_processAlerts; exact Hloc.
Qed.

End Frames.

(** ** Fetching the snapshot *)

Section Snapshot.

Import WeatherApp.

Variable net : Provider.

Lemma fetchWeatherData_weatherData (w : World) :
  weatherData (this (fetchWeatherData net w)) =
    match currentLocation (this w) with
    | None => weatherData (this w)
    | Some location =>
        match WeatherService.getOneCallData service net location true,
              WeatherService.getCurrentWeather service net location with
        | Return oneCallData, Return currentWeather =>
            Some (snapshotOf oneCallData currentWeather)
        | _, _ => weatherData (this w)
        end
    end.
Proof.
  unfold fetchWeatherData.
  destruct (currentLocation (this w)) as [location|]; [|reflexivity].
  destruct (WeatherService.getOneCallData service net location true) as [o|e];
    [|destruct (WeatherService.getCurrentWeather service net location); reflexivity].
  destruct (WeatherService.getCurrentWeather service net location) as [c|e];
    [|reflexivity].
  render_cases; [|reflexivity].
  cbn [hideLoading set_page this].
  rewrite weatherData_setupAutoRefresh.
  match goal with
  | |- weatherData (this (match ?p with _ => _ end)) = _ =>
      destruct p; rewrite ?weatherData_startAlertChecking
  end; rewrite this_processAlerts; reflexivity.
Qed.

(** C3. A fetch for the active location replaces the snapshot only when both
    requests succeed, and then all four parts come from the new answers; when
    the combined request or the current-conditions request fails, the snapshot
    held before (current, forecast, hourly, alerts) is the snapshot held
    after. *)
Theorem fetchWeatherData_all_or_nothing (w : World) (location : Location) :
  currentLocation (this w) = Some location ->
  (forall error,
     WeatherService.getOneCallData service net location true = Throw error
     \/ WeatherService.getCurrentWeather service net location = Throw error ->
     weatherData (this (fetchWeatherData net w)) = weatherData (this w))
  /\ (forall oneCallData currentWeather,
        WeatherService.getOneCallData service net location true = Return oneCallData ->
        WeatherService.getCurrentWeather service net location = Return currentWeather ->
        weatherData (this (fetchWeatherData net w))
        = Some (snapshotOf oneCallData currentWeather)).
Proof.
  intros Hloc. rewrite fetchWeatherData_weatherData, Hloc. split.
  - intros error [H|H]; rewrite H; [reflexivity|].
    destruct (WeatherService.getOneCallData service net location true); reflexivity.
  - intros o c Ho Hc. rewrite Ho, Hc. reflexivity.
Qed.

End Snapshot.

Lemma fetchWeatherData_all_or_nothing_witness :
  WeatherApp.currentLocation (WeatherApp.this Scenario.ready) = Some Scenario.london
  /\ WeatherApp.weatherData (WeatherApp.this Scenario.ready) <> None
  /\ WeatherApp.weatherData
       (WeatherApp.this (WeatherApp.fetchWeatherData Scenario.halfDown Scenario.ready))
     = WeatherApp.weatherData (WeatherApp.this Scenario.ready)
  /\ WeatherApp.weatherData
       (WeatherApp.this
          (WeatherApp.fetchWeatherData (Scenario.answering [Scenario.floodWarning] [])
             Scenario.ready))
     = Some {| WeatherApp.current := Scenario.conditions;
               WeatherApp.forecast := Some Scenario.days;
               WeatherApp.hourly := Scenario.hours;
               WeatherApp.alerts := [Scenario.floodWarning] |}.
Proof.
  split; [reflexivity|]. split; [vm_compute; discriminate|]. split.
  - destruct (fetchWeatherData_all_or_nothing Scenario.halfDown Scenario.ready
                Scenario.london eq_refl) as [Hfail _].
    apply (Hfail (ApiError "Weather" 500 "Internal Server Error")).
    right. reflexivity.
  - destruct (fetchWeatherData_all_or_nothing
                (Scenario.answering [Scenario.floodWarning] []) Scenario.ready
                Scenario.london eq_refl) as [_ Hok].
    apply (Hok {| OneCall.daily := Some Scenario.days;
                  OneCall.hourly := Some Scenario.hours;
                  OneCall.alerts := Some [Scenario.floodWarning] |}
               Scenario.conditions); reflexivity.
Defined.

(** ** The timers of the scheduler *)

Section Timers.

Import WeatherApp.

Lemma scheduler_ok_frame (w w' : World) :
  timers (browser w') = timers (browser w) ->
  nextHandle (browser w') = nextHandle (browser w) ->
  alertCheckInterval (this w') = alertCheckInterval (this w) ->
  refreshTimer (this w') = refreshTimer (this w) ->
  scheduler_ok w -> scheduler_ok w'.
Proof.
  unfold scheduler_ok, timer_ok. intros -> -> -> ->. tauto.
Qed.

Lemma scheduler_ok_new (p : Permission) (toggle : bool) : scheduler_ok (new p toggle).
Proof.
  repeat split; simpl; intros; try contradiction; discriminate.
Qed.

Lemma In_timers_clearTimer (h : positive) (w : World) (t : Timer) :
  In t (timers (browser (clearTimer h w))) <->
  In t (timers (browser w)) /\ handle t <> h.
Proof.
  unfold clearTimer. cbn [set_timers set_browser browser timers].
  rewrite filter_In, negb_true_iff, Pos.eqb_neq. reflexivity.
Qed.

Lemma scheduler_ok_clearTimer (h : positive) (w : World) :
  scheduler_ok w -> scheduler_ok (clearTimer h w).
Proof.
  intros (Ht & Ha & Hr). split; [|split; assumption].
  intros t Hin. apply In_timers_clearTimer in Hin as [Hin _].
  exact (Ht t Hin).
Qed.

(** A timer for anything but the two scheduler callbacks. *)
Lemma scheduler_ok_addTimer (cb : Callback) (delay : Z) (repeat : bool) (w : World) :
  cb <> AlertCheck -> cb <> AutoRefresh ->
  scheduler_ok w -> scheduler_ok (snd (addTimer cb delay repeat w)).
Proof.
  intros Hcb1 Hcb2 (Ht & Ha & Hr).
  unfold scheduler_ok, timer_ok, addTimer.
  cbn [snd set_browser browser this timers nextHandle].
  split; [|split].
  - intros t Hin. apply in_app_or in Hin as [Hin|[<-|[]]]; cbn [handle callback].
    + destruct (Ht t Hin) as (Hlt & Hac & Har). split; [lia|tauto].
    + split; [lia|]. split; split; intros Hc; try contradiction.
      * apply Ha in Hc. lia.
      * apply Hr in Hc. lia.
  - intros h Hh. specialize (Ha h Hh). lia.
  - intros h Hh. specialize (Hr h Hh). lia.
Qed.

Lemma scheduler_ok_startAlertChecking (w : World) :
  scheduler_ok w -> scheduler_ok (startAlertChecking w).
Proof.
  intros Hok. unfold startAlertChecking.
  set (w1 := match alertCheckInterval (this w) with
             | Some h => clearTimer h w
             | None => w
             end).
  assert (Hok1 : scheduler_ok w1).
  { subst w1. destruct (alertCheckInterval (this w));
      [now apply scheduler_ok_clearTimer|assumption]. }
  assert (Hnone : forall t, In t (timers (browser w1)) -> callback t <> AlertCheck).
  { intros t Hin Hc. subst w1. destruct Hok as (Ht & _ & _).
    destruct (alertCheckInterval (this w)) as [h|] eqn:Hh.
    - apply In_timers_clearTimer in Hin as [Hin Hne].
      destruct (Ht t Hin) as (_ & Hac & _). rewrite Hh in Hac.
      apply Hac in Hc. congruence.
    - destruct (Ht t Hin) as (_ & Hac & _). rewrite Hh in Hac.
      apply Hac in Hc. discriminate. }
  clearbody w1. destruct Hok1 as (Ht & Ha & Hr).
  unfold scheduler_ok, timer_ok, setInterval, addTimer.
  cbn [snd fst set_alertCheckInterval set_browser browser this timers nextHandle
       alertCheckInterval refreshTimer].
  split; [|split].
  - intros t Hin. apply in_app_or in Hin as [Hin|[<-|[]]]; cbn [handle callback].
    + destruct (Ht t Hin) as (Hlt & Hac & Har). pose proof (Hnone t Hin) as Hn.
      split; [lia|]. split; [|exact Har].
      split; intros Hc; [contradiction|]. injection Hc as Hc. lia.
    + split; [lia|]. split; split; intros Hc; try reflexivity; try discriminate.
      apply Hr in Hc. lia.
  - intros h [= <-]. lia.
  - intros h Hh. specialize (Hr h Hh). lia.
Qed.

Lemma scheduler_ok_setupAutoRefresh (w : World) :
  scheduler_ok w -> scheduler_ok (setupAutoRefresh w).
Proof.
  intros Hok. unfold setupAutoRefresh.
  set (w1 := match refreshTimer (this w) with
             | Some h => clearTimer h w
             | None => w
             end).
  assert (Hok1 : scheduler_ok w1).
  { subst w1. destruct (refreshTimer (this w));
      [now apply scheduler_ok_clearTimer|assumption]. }
  assert (Hnone : forall t, In t (timers (browser w1)) -> callback t <> AutoRefresh).
  { intros t Hin Hc. subst w1. destruct Hok as (Ht & _ & _).
    destruct (refreshTimer (this w)) as [h|] eqn:Hh.
    - apply In_timers_clearTimer in Hin as [Hin Hne].
      destruct (Ht t Hin) as (_ & _ & Har). rewrite Hh in Har.
      apply Har in Hc. congruence.
    - destruct (Ht t Hin) as (_ & _ & Har). rewrite Hh in Har.
      apply Har in Hc. discriminate. }
  clearbody w1. destruct Hok1 as (Ht & Ha & Hr).
  unfold scheduler_ok, timer_ok, setTimeout, addTimer.
  cbn [snd fst set_refreshTimer set_browser browser this timers nextHandle
       alertCheckInterval refreshTimer].
  split; [|split].
  - intros t Hin. apply in_app_or in Hin as [Hin|[<-|[]]]; cbn [handle callback].
    + destruct (Ht t Hin) as (Hlt & Hac & Har). pose proof (Hnone t Hin) as Hn.
      split; [lia|]. split; [exact Hac|].
      split; intros Hc; [contradiction|]. injection Hc as Hc. lia.
    + split; [lia|]. split; split; intros Hc; try reflexivity; try discriminate.
      apply Ha in Hc. lia.
  - intros h Hh. specialize (Ha h Hh). lia.
  - intros h [= <-]. lia.
Qed.

Lemma scheduler_ok_raise (n : Notification) (w : World) :
  scheduler_ok w -> scheduler_ok (snd (raise n w)).
Proof. apply scheduler_ok_frame; reflexivity. Qed.

Lemma scheduler_ok_notifyOne (acc : World * list string) (a : Alert) :
  scheduler_ok (fst acc) -> scheduler_ok (fst (notifyOne acc a)).
Proof.
  destruct acc as [w shown]. unfold notifyOne. cbn [fst].
  intros Hok.
  pose proof (scheduler_ok_raise (notificationFor a) w Hok) as Hok'.
  destruct (raise (notificationFor a) w) as [index w']. cbn [snd] in Hok'.
  destruct (negb _); cbn [fst]; [|exact Hok'].
  apply scheduler_ok_addTimer; [discriminate|discriminate|exact Hok'].
Qed.

Lemma scheduler_ok_fold_notifyOne (l : list Alert) (acc : World * list string) :
  scheduler_ok (fst acc) -> scheduler_ok (fst (fold_left notifyOne l acc)).
Proof.
  revert acc. induction l as [|a l IH]; intros acc Hok; simpl; [exact Hok|].
  apply IH, scheduler_ok_notifyOne, Hok.
Qed.

Lemma scheduler_ok_showAlertNotifications (l : list Alert) (w : World) :
  scheduler_ok w -> scheduler_ok (showAlertNotifications l w).
Proof.
  intros Hok. unfold showAlertNotifications.
  destruct l as [|a l]; [exact Hok|].
  destruct (List.filter _ (a :: l)) as [|b new] eqn:Hnew; [exact Hok|].
  pose proof (scheduler_ok_fold_notifyOne (b :: new) (w, shownAlerts w) Hok) as H.
  destruct (fold_left notifyOne (b :: new) (w, shownAlerts w)) as [w' shown'].
  revert H. apply scheduler_ok_frame; reflexivity.
Qed.

Lemma scheduler_ok_processAlerts (w : World) :
  scheduler_ok w -> scheduler_ok (processAlerts w).
Proof.
  intros Hok. unfold processAlerts.
  destruct (weatherData (this w)) as [data|]; [|exact Hok].
  destruct (alerts data); [exact Hok|].
  destruct (permission (browser w)); try exact Hok.
  now apply scheduler_ok_showAlertNotifications.
Qed.

Lemma scheduler_ok_showError (m : string) (w : World) :
  scheduler_ok w -> scheduler_ok (showError m w).
Proof.
  intros Hok. unfold showError, setTimeout.
  apply scheduler_ok_addTimer; [discriminate|discriminate|].
  revert Hok. apply scheduler_ok_frame; reflexivity.
Qed.

Lemma scheduler_ok_hideLoading (w : World) :
  scheduler_ok w -> scheduler_ok (hideLoading w).
Proof. apply scheduler_ok_frame; reflexivity. Qed.

Lemma scheduler_ok_fetchWeatherData (net : Provider) (w : World) :
  scheduler_ok w -> scheduler_ok (fetchWeatherData net w).
Proof.
  intros Hok. unfold fetchWeatherData.
  destruct (currentLocation (this w)) as [location|]; [|exact Hok].
  assert (Hok1 : scheduler_ok
                   (sent (WeatherService.oneCallRequest service location true)
                      (showLoading w)))
    by (revert Hok; apply scheduler_ok_frame; reflexivity).
  destruct (WeatherService.getOneCallData service net location true) as [o|e].
  2: now apply scheduler_ok_hideLoading, scheduler_ok_showError.
  match goal with
  | |- context [sent ?r (sent ?r' ?w')] =>
      assert (Hok2 : scheduler_ok (sent r (sent r' w')))
        by (revert Hok1; apply scheduler_ok_frame; reflexivity)
  end.
  destruct (WeatherService.getCurrentWeather service net location) as [c|e].
  2: now apply scheduler_ok_hideLoading, scheduler_ok_showError.
  match goal with
  | |- context [updateWeatherUI ?w'] =>
      assert (Hstored : scheduler_ok w')
        by (revert Hok2; apply scheduler_ok_frame; reflexivity)
  end.
  render_cases.
  2: now apply scheduler_ok_hideLoading, scheduler_ok_showError.
  apply scheduler_ok_hideLoading, scheduler_ok_setupAutoRefresh.
  match goal with
  | |- scheduler_ok (match permission (browser ?w') with _ => _ end) =>
      assert (Hok3 : scheduler_ok w')
  end.
  { apply scheduler_ok_processAlerts.
    revert Hok2. apply scheduler_ok_frame; reflexivity. }
  destruct (permission (browser _)); try exact Hok3.
  now apply scheduler_ok_startAlertChecking.
Qed.

Lemma scheduler_ok_checkAlerts (net : Provider) (w : World) :
  scheduler_ok w -> scheduler_ok (checkAlerts net w).
Proof.
  intros Hok. unfold checkAlerts.
  destruct (currentLocation (this w)) as [location|]; [|exact Hok].
  destruct (alertsToggle_checked (page w)); [|exact Hok].
  assert (Hok1 : scheduler_ok
                   (sent (WeatherService.oneCallRequest service location true) w))
    by (revert Hok; apply scheduler_ok_frame; reflexivity).
  destruct (WeatherService.getOneCallData service net location true) as [o|e];
    [|exact Hok1].
  cbn [sent set_browser this].
  destruct (weatherData (this w)) as [data|]; [|exact Hok1].
  apply scheduler_ok_processAlerts.
  revert Hok1. apply scheduler_ok_frame; reflexivity.
Qed.

Lemma scheduler_ok_run (net : Provider) (cb : Callback) (w : World) :
  scheduler_ok w -> scheduler_ok (run net cb w).
Proof.
  intros Hok. destruct cb; cbn [run].
  - now apply scheduler_ok_checkAlerts.
  - unfold autoRefresh. destruct (currentLocation (this w)); [|exact Hok].
    now apply scheduler_ok_fetchWeatherData.
  - revert Hok. apply scheduler_ok_frame; reflexivity.
  - exact Hok.
Qed.

Lemma scheduler_ok_fire (net : Provider) (h : positive) (w : World) :
  scheduler_ok w -> scheduler_ok (fire net h w).
Proof.
  intros Hok. unfold fire.
  destruct (find _ (timers (browser w))) as [t|] eqn:Hfind; [|exact Hok].
  apply find_some in Hfind as [Hin Hh]. apply Pos.eqb_eq in Hh.
  apply scheduler_ok_run.
  destruct Hok as (Ht & Ha & Hr).
  split; [|split; assumption].
  cbn [set_browser browser this timers nextHandle].
  assert (Hrest : forall t', In t' (List.filter (fun t' => negb (Pos.eqb (handle t') h))
                                      (timers (browser w))) ->
                             timer_ok w t').
  { intros t' Hin'. apply filter_In in Hin' as [Hin' _]. exact (Ht t' Hin'). }
  intros t' Hin'. unfold timer_ok. cbn [set_browser browser this nextHandle].
  destruct (period t) as [p|].
  - apply in_app_or in Hin' as [Hin'|[<-|[]]]; [exact (Hrest t' Hin')|].
    cbn [handle callback]. rewrite <- Hh. exact (Ht t Hin).
  - exact (Hrest t' Hin').
Qed.

Lemma scheduler_ok_toggleAlerts (enabled : bool) (w : World) :
  scheduler_ok w -> scheduler_ok (toggleAlerts enabled w).
Proof.
  intros Hok. unfold toggleAlerts.
  destruct enabled; [now apply scheduler_ok_startAlertChecking|].
  destruct (alertCheckInterval (this w)) as [h|] eqn:Hh; [|exact Hok].
  destruct Hok as (Ht & Ha & Hr).
  split; [|split].
  - intros t Hin.
    cbn [set_alertCheckInterval browser] in Hin.
    apply In_timers_clearTimer in Hin as [Hin Hne].
    destruct (Ht t Hin) as (Hlt & Hac & Har). rewrite Hh in Hac.
    split; [exact Hlt|]. split; [|exact Har].
    cbn [set_alertCheckInterval this alertCheckInterval].
    split; intros Hc; [|discriminate].
    apply Hac in Hc. congruence.
  - intros h' Hc. discriminate.
  - exact Hr.
Qed.

Lemma scheduler_ok_searchLocation (net : Provider) (query : string) (w : World) :
  scheduler_ok w -> scheduler_ok (searchLocation net query w).
Proof.
  intros Hok. unfold searchLocation.
  assert (Hok1 : scheduler_ok
                   (sent (WeatherService.geocodingRequest service query)
                      (showLoading w)))
    by (revert Hok; apply scheduler_ok_frame; reflexivity).
  destruct (WeatherService.searchLocation service net query) as [[|location rest]|e].
  - now apply scheduler_ok_hideLoading, scheduler_ok_showError.
  - apply scheduler_ok_hideLoading, scheduler_ok_fetchWeatherData.
    revert Hok1. apply scheduler_ok_frame; reflexivity.
  - now apply scheduler_ok_hideLoading, scheduler_ok_showError.
Qed.

Lemma scheduler_ok_step (w w' : World) :
  step w w' -> scheduler_ok w -> scheduler_ok w'.
Proof.
  intros Hstep Hok. destruct Hstep.
  - now apply scheduler_ok_searchLocation.
  - unfold alertsToggle_change. cbn [set_page this].
    destruct (currentLocation (this w)).
    + apply scheduler_ok_toggleAlerts. revert Hok. apply scheduler_ok_frame; reflexivity.
    + revert Hok. apply scheduler_ok_frame; reflexivity.
  - unfold requestNotificationPermission. cbn [set_browser this].
    destruct answer; try (revert Hok; apply scheduler_ok_frame; reflexivity).
    destruct (currentLocation (this w)).
    + apply scheduler_ok_startAlertChecking.
      revert Hok. apply scheduler_ok_frame; reflexivity.
    + revert Hok. apply scheduler_ok_frame; reflexivity.
  - now apply scheduler_ok_fire.
  - revert Hok. apply scheduler_ok_frame; reflexivity.
Qed.

(** In every world the application reaches, the pending timers and the
    handles the instance holds agree. *)
Lemma reachable_scheduler_ok (w : World) : reachable w -> scheduler_ok w.
Proof.
  induction 1 as [p toggle|w w' _ IH Hstep].
  - apply scheduler_ok_new.
  - exact (scheduler_ok_step w w' Hstep IH).
Qed.

End Timers.

(** ** Disabling and re-enabling alerts *)

Section AlertToggle.

Import WeatherApp.

Lemma filter_filter_none {A} (p q : A -> bool) (l : list A) :
  (forall x, In x l -> q x = true -> p x = false) ->
  List.filter p (List.filter q l) = [].
Proof.
  intros H. induction l as [|x l IH]; simpl; [reflexivity|].
  destruct (q x) eqn:Hq; simpl.
  - rewrite (H x) by (simpl; auto). apply IH. intros y Hy. apply H. now right.
  - apply IH. intros y Hy. apply H. now right.
Qed.

Lemma filter_filter_absorb {A} (p q : A -> bool) (l : list A) :
  (forall x, In x l -> p x = true -> q x = true) ->
  List.filter p (List.filter q l) = List.filter p l.
Proof.
  intros H. induction l as [|x l IH]; simpl; [reflexivity|].
  assert (IH' : List.filter p (List.filter q l) = List.filter p l)
    by (apply IH; intros y Hy; apply H; now right).
  destruct (q x) eqn:Hq; simpl.
  - rewrite IH'. reflexivity.
  - destruct (p x) eqn:Hp; [|exact IH'].
    rewrite (H x) in Hq by (simpl; auto). discriminate.
Qed.

Lemma filter_app_single {A} (p : A -> bool) (l : list A) (x : A) :
  List.filter p (l ++ [x])%list
  = (List.filter p l ++ if p x then [x] else [])%list.
Proof.
  induction l as [|y l IH]; simpl; [destruct (p x); reflexivity|].
  rewrite IH. destruct (p y); reflexivity.
Qed.

Lemma isAlertCheck_true (t : Timer) : isAlertCheck t = true <-> callback t = AlertCheck.
Proof. unfold isAlertCheck. destruct (callback t); split; congruence. Qed.

Lemma isAutoRefresh_true (t : Timer) : isAutoRefresh t = true <-> callback t = AutoRefresh.
Proof. unfold isAutoRefresh. destruct (callback t); split; congruence. Qed.

(** Clearing the handle held in [alertCheckInterval] removes every pending
    alert check and nothing else. *)
Lemma clear_alert_timer (w : World) (h : positive) :
  scheduler_ok w -> alertCheckInterval (this w) = Some h ->
  List.filter isAlertCheck (timers (browser (clearTimer h w))) = []
  /\ List.filter (fun t => negb (isAlertCheck t)) (timers (browser (clearTimer h w)))
     = List.filter (fun t => negb (isAlertCheck t)) (timers (browser w)).
Proof.
  intros (Ht & _ & _) Hh.
  unfold clearTimer. cbn [set_timers set_browser browser timers]. split.
  - apply filter_filter_none. intros t Hin Hne.
    apply negb_true_iff, Pos.eqb_neq in Hne.
    destruct (isAlertCheck t) eqn:Hc; [|reflexivity].
    apply isAlertCheck_true in Hc. apply (Ht t Hin) in Hc. congruence.
  - apply filter_filter_absorb. intros t Hin Hc.
    apply negb_true_iff. apply Pos.eqb_neq. intros Heq.
    apply negb_true_iff in Hc.
    assert (Hac : callback t = AlertCheck)
      by (apply (Ht t Hin); congruence).
    apply isAlertCheck_true in Hac. congruence.
Qed.

Lemma startAlertChecking_timers (w : World) :
  scheduler_ok w ->
  List.filter isAlertCheck (timers (browser (startAlertChecking w)))
  = [alertTimerArmedIn w]
  /\ List.filter (fun t => negb (isAlertCheck t)) (timers (browser (startAlertChecking w)))
     = List.filter (fun t => negb (isAlertCheck t)) (timers (browser w)).
Proof.
  intros Hok. unfold startAlertChecking, setInterval, addTimer, alertTimerArmedIn.
  destruct (alertCheckInterval (this w)) as [h|] eqn:Hh.
  - destruct (clear_alert_timer w h Hok Hh) as [Hnone Hsame].
    cbn [set_alertCheckInterval set_browser browser timers fst snd].
    rewrite !filter_app_single, Hnone, Hsame. cbn [isAlertCheck callback negb].
    rewrite app_nil_r. split; reflexivity.
  - cbn [set_alertCheckInterval set_browser browser timers fst snd].
    rewrite !filter_app_single. cbn [isAlertCheck callback negb].
    rewrite app_nil_r. split; [|reflexivity].
    replace (List.filter isAlertCheck (timers (browser w))) with (@nil Timer);
      [reflexivity|].
    symmetry. destruct Hok as (Ht & _ & _).
    induction (timers (browser w)) as [|t l IH]; [reflexivity|]. simpl.
    destruct (isAlertCheck t) eqn:Hc.
    + apply isAlertCheck_true in Hc. apply (Ht t) in Hc; [|now left].
      rewrite Hh in Hc. discriminate.
    + apply IH. intros t' Hin. apply Ht. now right.
Qed.

(** C9, as the code has it.  In a world where the timers and the handles
    agree: disabling alerts leaves no alert check pending, clears the handle,
    and leaves every other timer, the refresh timer among them, and the handle
    of the refresh timer as they were; enabling alerts sends no request, and
    arms one alert interval whose first check is due one full check interval
    after the moment of enabling, every other timer being left as it was. *)
Theorem toggleAlerts_timers (w : World) :
  scheduler_ok w ->
  (let w' := toggleAlerts false w in
   List.filter isAlertCheck (timers (browser w')) = []
   /\ alertCheckInterval (this w') = None
   /\ List.filter (fun t => negb (isAlertCheck t)) (timers (browser w'))
      = List.filter (fun t => negb (isAlertCheck t)) (timers (browser w))
   /\ refreshTimer (this w') = refreshTimer (this w)
   /\ requests (browser w') = requests (browser w))
  /\
  (let w' := toggleAlerts true w in
   List.filter isAlertCheck (timers (browser w')) = [alertTimerArmedIn w]
   /\ due (alertTimerArmedIn w)
      = (clock (browser w) + CONFIG.ALERTS.CHECK_INTERVAL)%Z
   /\ alertCheckInterval (this w') = Some (handle (alertTimerArmedIn w))
   /\ List.filter (fun t => negb (isAlertCheck t)) (timers (browser w'))
      = List.filter (fun t => negb (isAlertCheck t)) (timers (browser w))
   /\ refreshTimer (this w') = refreshTimer (this w)
   /\ requests (browser w') = requests (browser w)
   /\ firstPollImmediate w w' = false).
Proof.
  intros Hok. split; cbv zeta.
  - unfold toggleAlerts.
    destruct (alertCheckInterval (this w)) as [h|] eqn:Hh.
    + destruct (clear_alert_timer w h Hok Hh) as [Hnone Hsame].
      cbn [set_alertCheckInterval browser this alertCheckInterval refreshTimer].
      repeat split; assumption || reflexivity.
    + repeat split; try assumption.
      destruct Hok as (Ht & _ & _).
      induction (timers (browser w)) as [|t l IH]; [reflexivity|]. simpl.
      destruct (isAlertCheck t) eqn:Hc.
      * apply isAlertCheck_true in Hc. apply (Ht t) in Hc; [|now left].
        rewrite Hh in Hc. discriminate.
      * apply IH. intros t' Hin. apply Ht. now right.
  - destruct (startAlertChecking_timers w Hok) as [Hone Hsame].
    cbn [toggleAlerts].
    assert (Hreq : requests (browser (startAlertChecking w)) = requests (browser w))
      by (unfold startAlertChecking; destruct (alertCheckInterval (this w)); reflexivity).
    assert (Href : refreshTimer (this (startAlertChecking w)) = refreshTimer (this w))
      by (unfold startAlertChecking; destruct (alertCheckInterval (this w)); reflexivity).
    assert (Hhandle : alertCheckInterval (this (startAlertChecking w))
                      = Some (nextHandle (browser w)))
      by (unfold startAlertChecking; destruct (alertCheckInterval (this w)); reflexivity).
    repeat split; try assumption.
    unfold firstPollImmediate. rewrite Hreq, Nat.eqb_refl. cbn [negb orb].
    destruct (existsb _ _) eqn:Hex; [|reflexivity].
    apply existsb_exists in Hex as (t & Hin & Ht).
    apply andb_true_iff in Ht as [Hc Hdue].
    assert (Hin' : In t (List.filter isAlertCheck (timers (browser (startAlertChecking w)))))
      by (apply filter_In; split; assumption).
    rewrite Hone in Hin'. destruct Hin' as [<-|[]].
    cbn [alertTimerArmedIn due] in Hdue. apply Z.ltb_lt in Hdue. lia.
Qed.

(** The scenario world is one the application reaches. *)
Lemma ready_reachable : reachable Scenario.ready.
Proof.
  unfold Scenario.ready.
  eapply reachable_step; [apply reachable_new | apply step_search].
Qed.

Lemma toggleAlerts_timers_witness :
  scheduler_ok Scenario.ready
  /\ firstPollImmediate Scenario.ready (toggleAlerts true Scenario.ready) = false.
Proof.
  assert (Hok : scheduler_ok Scenario.ready)
    by exact (reachable_scheduler_ok _ ready_reachable).
  split; [exact Hok|].
  apply (toggleAlerts_timers Scenario.ready Hok).
Defined.

(** C9, as stated, fails.  With the snapshot held and both timers armed at
    time 0, the user switches alerts off and, ten seconds later, on again:
    no request is sent at that moment, and the only alert check pending is
    due a full check interval after the moment of re-enabling (at 910 000 ms),
    so the first poll after re-enabling is not immediate. *)
Lemma reenabling_polls_after_full_interval :
  let off := wait 10000 (alertsToggle_change false Scenario.ready) in
  let on := alertsToggle_change true off in
  firstPollImmediate off on = false
  /\ requests (browser on) = requests (browser off)
  /\ List.filter isAlertCheck (timers (browser on))
     = [{| handle := 3; callback := AlertCheck;
           due := 10000 + CONFIG.ALERTS.CHECK_INTERVAL;
           period := Some CONFIG.ALERTS.CHECK_INTERVAL |}]
  /\ List.filter isAutoRefresh (timers (browser on))
     = List.filter isAutoRefresh (timers (browser Scenario.ready)).
Proof. vm_compute. repeat split. Qed.

End AlertToggle.

(** ** The full refresh after a failure *)

Section Refresh.

Import WeatherApp.

Variable net : Provider.

Lemma fetchWeatherData_failure (w : World) (location : Location) (error : Error) :
  currentLocation (this w) = Some location ->
  fetchFailsWith net location error ->
  exists sent',
    fetchWeatherData net w
    = hideLoading (showError (message error)
        (set_browser
           {| clock := clock (browser w); timers := timers (browser w);
              nextHandle := nextHandle (browser w);
              permission := permission (browser w);
              localStorage := localStorage (browser w);
              notifications := notifications (browser w);
              requests := sent' |} (showLoading w))).
Proof.
  intros Hloc Hfail. unfold fetchWeatherData. rewrite Hloc.
  destruct Hfail as [H|(o & Ho & Hc)].
  - rewrite H. eexists. reflexivity.
  - rewrite Ho, Hc. eexists. reflexivity.
Qed.

(** When the armed refresh timer fires and the fetch fails, the error is
    shown and the snapshot is kept, and no refresh timer is pending
    afterwards: the refresh is re-armed only at the end of a fetch that
    succeeded. *)
Lemma failed_refresh_disarms (w : World) (h : positive) (t : Timer)
  (location : Location) (error : Error) :
  scheduler_ok w ->
  find (fun t => Pos.eqb (handle t) h) (timers (browser w)) = Some t ->
  callback t = AutoRefresh -> period t = None ->
  currentLocation (this w) = Some location ->
  fetchFailsWith net location error ->
  let w' := fire net h w in
  errorVisible (page w') = true
  /\ errorText (page w') = message error
  /\ weatherData (this w') = weatherData (this w)
  /\ List.filter isAutoRefresh (timers (browser w')) = [].
Proof.
  intros Hok Hfind Hcb Hper Hloc Hfail. cbv zeta.
  unfold fire. rewrite Hfind, Hper, Hcb. cbn [run]. unfold autoRefresh.
  cbn [set_browser this]. rewrite Hloc.
  match goal with
  | |- context [fetchWeatherData net ?w0] =>
      destruct (fetchWeatherData_failure w0 location error Hloc Hfail) as [sent' ->]
  end.
  cbn. repeat split.
  rewrite filter_app_single. cbn [isAutoRefresh callback]. rewrite app_nil_r.
  apply filter_filter_none. intros t' Hin Hne.
  apply negb_true_iff, Pos.eqb_neq in Hne.
  destruct (isAutoRefresh t') eqn:Hc; [|reflexivity].
  apply isAutoRefresh_true in Hc.
  apply find_some in Hfind as [Hin0 Hh]. apply Pos.eqb_eq in Hh.
  destruct Hok as (Ht & _ & _).
  apply (Ht t' Hin) in Hc. apply (Ht t Hin0) in Hcb. congruence.
Qed.

Lemma refresh_timers_fold_notifyOne (l : list Alert) (acc : World * list string) :
  List.filter isAutoRefresh (timers (browser (fst (fold_left notifyOne l acc))))
  = List.filter isAutoRefresh (timers (browser (fst acc))).
Proof.
  revert acc. induction l as [|a l IH]; intros acc; [reflexivity|].
  cbn [fold_left]. rewrite IH. destruct acc as [w shown].
  unfold notifyOne. cbn [raise fst snd].
  destruct (negb _); cbn [fst]; [|reflexivity].
  unfold setTimeout, addTimer. cbn [snd set_browser browser timers].
  rewrite filter_app_single. cbn [isAutoRefresh callback]. apply app_nil_r.
Qed.

Lemma refresh_timers_processAlerts (w : World) :
  List.filter isAutoRefresh (timers (browser (processAlerts w)))
  = List.filter isAutoRefresh (timers (browser w)).
Proof.
  unfold processAlerts.
  destruct (weatherData (this w)) as [data|]; [|reflexivity].
  destruct (alerts data) as [|a l]; [reflexivity|].
  destruct (permission (browser w)); try reflexivity.
  unfold showAlertNotifications.
  destruct (List.filter _ (a :: l)) as [|b new] eqn:Hnew; [reflexivity|].
  pose proof (refresh_timers_fold_notifyOne (b :: new) (w, shownAlerts w)) as H.
  destruct (fold_left notifyOne (b :: new) (w, shownAlerts w)) as [w' shown'].
  exact H.
Qed.

Lemma refresh_timers_checkAlerts (w : World) :
  List.filter isAutoRefresh (timers (browser (checkAlerts net w)))
  = List.filter isAutoRefresh (timers (browser w)).
Proof.
  unfold checkAlerts.
  destruct (currentLocation (this w)) as [location|]; [|reflexivity].
  destruct (alertsToggle_checked (page w)); [|reflexivity].
  destruct (WeatherService.getOneCallData service net location true) as [o|e];
    [|reflexivity].
  cbn [sent set_browser this].
  destruct (weatherData (this w)) as [data|]; [|reflexivity].
  rewrite refresh_timers_processAlerts. reflexivity.
Qed.

(** While no refresh timer is pending, no timer that fires arms one: only a
    fetch that succeeds does, and only the refresh timer and the user start
    a fetch. *)
Lemma fire_keeps_refresh_disarmed (w : World) (h : positive) :
  List.filter isAutoRefresh (timers (browser w)) = [] ->
  List.filter isAutoRefresh (timers (browser (fire net h w))) = [].
Proof.
  intros Hnone. unfold fire.
  destruct (find _ (timers (browser w))) as [t|] eqn:Hfind; [|exact Hnone].
  apply find_some in Hfind as [Hin _].
  assert (Hcb : isAutoRefresh t = false).
  { destruct (isAutoRefresh t) eqn:Hc; [|reflexivity].
    assert (Hin' : In t (List.filter isAutoRefresh (timers (browser w))))
      by (apply filter_In; split; assumption).
    rewrite Hnone in Hin'. contradiction. }
  assert (Hrest : List.filter isAutoRefresh
                    (List.filter (fun t' => negb (Pos.eqb (handle t') h))
                       (timers (browser w))) = []).
  { apply filter_filter_none. intros t' Hin' _.
    destruct (isAutoRefresh t') eqn:Hc; [|reflexivity].
    assert (Hin'' : In t' (List.filter isAutoRefresh (timers (browser w))))
      by (apply filter_In; split; assumption).
    rewrite Hnone in Hin''. contradiction. }
  assert (Hpending :
            List.filter isAutoRefresh
              match period t with
              | Some p =>
                  (List.filter (fun t' => negb (Pos.eqb (handle t') h))
                     (timers (browser w))
                   ++ [{| handle := h; callback := callback t;
                          due := (due t + p)%Z; period := Some p |}])%list
              | None =>
                  List.filter (fun t' => negb (Pos.eqb (handle t') h))
                    (timers (browser w))
              end = []).
  { destruct (period t); [|exact Hrest].
    rewrite filter_app_single, Hrest. unfold isAutoRefresh in *. cbn [callback].
    destruct (callback t); try reflexivity. discriminate. }
  unfold isAutoRefresh in Hcb.
  destruct (callback t); try discriminate; cbn [run].
  - rewrite refresh_timers_checkAlerts. exact Hpending.
  - exact Hpending.
  - exact Hpending.
Qed.

End Refresh.

(** After the failure, whatever timers fire and whatever the provider then
    answers, the refresh stays disarmed. *)
Lemma refresh_stays_disarmed (firings : list (Provider * positive))
  (w : WeatherApp.World) :
  List.filter isAutoRefresh (WeatherApp.timers (WeatherApp.browser w)) = [] ->
  List.filter isAutoRefresh
    (WeatherApp.timers
       (WeatherApp.browser
          (fold_left (fun w f => WeatherApp.fire (fst f) (snd f) w) firings w))) = [].
Proof.
  revert w. induction firings as [|[net h] firings IH]; intros w Hnone; [exact Hnone|].
  cbn [fold_left fst snd]. apply IH. now apply fire_keeps_refresh_disarmed.
Qed.

Lemma failed_refresh_disarms_witness :
  let before := WeatherApp.fire (Scenario.answering [] []) 1 Scenario.ready in
  let after := WeatherApp.fire Scenario.halfDown 2 before in
  WeatherApp.errorText (WeatherApp.page after) = "Weather API error: 500 Internal Server Error"
  /\ WeatherApp.weatherData (WeatherApp.this after)
     = WeatherApp.weatherData (WeatherApp.this before)
  /\ List.filter isAutoRefresh (WeatherApp.timers (WeatherApp.browser after)) = [].
Proof.
  cbv zeta.
  assert (Hok : scheduler_ok (WeatherApp.fire (Scenario.answering [] []) 1 Scenario.ready)).
  { apply reachable_scheduler_ok. eapply WeatherApp.reachable_step;
      [apply ready_reachable|apply WeatherApp.step_fire]. }
  destruct (failed_refresh_disarms Scenario.halfDown
              (WeatherApp.fire (Scenario.answering [] []) 1 Scenario.ready) 2
              {| WeatherApp.handle := 2; WeatherApp.callback := WeatherApp.AutoRefresh;
                 WeatherApp.due := CONFIG.DEFAULTS.REFRESH_INTERVAL;
                 WeatherApp.period := None |}
              Scenario.london (ApiError "Weather" 500 "Internal Server Error") Hok)
    as (_ & Htext & Hdata & Hnone).
  - vm_compute. reflexivity.
  - reflexivity.
  - reflexivity.
  - reflexivity.
  - right. eexists. split; reflexivity.
  - repeat split; assumption.
Defined.

(** C4 at a concrete input.  The snapshot is held and the refresh timer
    (handle 2) is armed; the alert check fires while the provider answers;
    the provider then goes down and the refresh timer fires.  The error is
    shown and the snapshot is the one held before, but no refresh timer is
    pending any more, and the handle the instance holds is the spent one:
    the next full refresh is not rescheduled. *)
Example failed_refresh_is_not_rescheduled :
  let before := WeatherApp.fire (Scenario.answering [] []) 1 Scenario.ready in
  let after := WeatherApp.fire Scenario.unavailable 2 before in
  List.filter isAutoRefresh (WeatherApp.timers (WeatherApp.browser before))
  = [{| WeatherApp.handle := 2; WeatherApp.callback := WeatherApp.AutoRefresh;
        WeatherApp.due := CONFIG.DEFAULTS.REFRESH_INTERVAL;
        WeatherApp.period := None |}]
  /\ WeatherApp.errorVisible (WeatherApp.page after) = true
  /\ WeatherApp.errorText (WeatherApp.page after)
     = "OneCall API error: 503 Service Unavailable"
  /\ WeatherApp.weatherData (WeatherApp.this after)
     = WeatherApp.weatherData (WeatherApp.this before)
  /\ WeatherApp.weatherData (WeatherApp.this before) <> None
  /\ List.filter isAutoRefresh (WeatherApp.timers (WeatherApp.browser after)) = []
  /\ WeatherApp.refreshTimer (WeatherApp.this after) = Some 2%positive
  /\ map WeatherApp.callback (WeatherApp.timers (WeatherApp.browser after))
     = [WeatherApp.AlertCheck; WeatherApp.HideError].
Proof. vm_compute. repeat split. discriminate. Qed.

(** ** Alert notification deduplication *)

Section Deduplication.

Import WeatherApp.

Lemma fold_notifyOne (l : list Alert) (w : World) (shown : list string) :
  snd (fold_left notifyOne l (w, shown)) = (shown ++ map alertId l)%list
  /\ notifications (browser (fst (fold_left notifyOne l (w, shown))))
     = (notifications (browser w) ++ map notificationFor l)%list
  /\ localStorage (browser (fst (fold_left notifyOne l (w, shown))))
     = localStorage (browser w).
Proof.
  revert w shown. induction l as [|a l IH]; intros w shown.
  - simpl. rewrite !app_nil_r. repeat split.
  - cbn [fold_left].
    destruct (notifyOne (w, shown) a) as [w1 shown1] eqn:Hone.
    destruct (IH w1 shown1) as (Hs & Hn & Hl).
    rewrite Hs, Hn, Hl.
    unfold notifyOne in Hone. cbn in Hone.
    destruct (negb _) in Hone; injection Hone as <- <-; cbn;
      rewrite <- !app_assoc; repeat split.
Qed.

(** What one run of the step adds: a notification for each alert it takes for
    new, in order, and their identities at the end of the log. *)
Lemma showAlertNotifications_effect (alerts : list Alert) (w : World) :
  notifications (browser (showAlertNotifications alerts w))
  = (notifications (browser w) ++ map notificationFor (newAlerts alerts w))%list
  /\ shownAlerts (showAlertNotifications alerts w)
     = (shownAlerts w ++ map alertId (newAlerts alerts w))%list.
Proof.
  unfold showAlertNotifications, newAlerts.
  destruct alerts as [|a alerts]; [simpl; rewrite !app_nil_r; split; reflexivity|].
  destruct (List.filter _ (a :: alerts)) as [|b new] eqn:Hnew;
    [simpl; rewrite !app_nil_r; split; reflexivity|].
  destruct (fold_notifyOne (b :: new) w (shownAlerts w)) as (Hs & Hn & Hl).
  destruct (fold_left notifyOne (b :: new) (w, shownAlerts w)) as [w' shown'].
  cbn [fst snd] in Hs, Hn, Hl. subst shown'. split.
  - exact Hn.
  - unfold shownAlerts at 1. cbn [set_localStorage set_browser browser localStorage].
    rewrite lookup_insert_eq. reflexivity.
Qed.

Lemma pollAll_notifications (polls : list (list Alert)) (w : World) :
  notifications (browser (pollAll polls w))
  = (notifications (browser w) ++ map notificationFor (notifiedAll polls w))%list.
Proof.
  revert w. induction polls as [|alerts rest IH]; intros w; cbn [pollAll notifiedAll].
  - simpl. now rewrite app_nil_r.
  - rewrite IH. destruct (showAlertNotifications_effect alerts w) as [-> _].
    now rewrite map_app, app_assoc.
Qed.

Lemma array_includes_In (l : list string) (x : string) :
  JS.array_includes l x = true <-> In x l.
Proof.
  unfold JS.array_includes. rewrite existsb_exists. split.
  - intros (y & Hin & Heq). apply String.eqb_eq in Heq. now subst.
  - intros Hin. exists x. split; [exact Hin|apply String.eqb_refl].
Qed.

Lemma sameIdentity_alertId (a b : Alert) :
  sameIdentity a b = true -> alertId a = alertId b.
Proof.
  unfold sameIdentity, alertId. intros H.
  apply andb_true_iff in H as [H He]. apply andb_true_iff in H as [Hev Hs].
  apply String.eqb_eq in Hev. apply Z.eqb_eq in Hs, He. congruence.
Qed.

Lemma NoDup_map_filter {A B} (f : A -> B) (p : A -> bool) (l : list A) :
  List.NoDup (map f l) -> List.NoDup (map f (List.filter p l)).
Proof.
  induction l as [|x l IH]; simpl; intros H; [constructor|].
  inversion H as [|? ? Hnotin Hnd]; subst.
  destruct (p x); simpl; [|now apply IH].
  constructor; [|now apply IH].
  intros Hin. apply Hnotin. apply in_map_iff in Hin as (y & Hy & Hin).
  apply filter_In in Hin as [Hin _]. apply in_map_iff. now exists y.
Qed.

(** Across polls none of which lists an identity twice, the alerts taken for
    new have pairwise distinct identities, none of them in the log the first
    poll found. *)
Lemma notifiedAll_distinct (polls : list (list Alert)) (w : World) :
  (forall alerts, In alerts polls -> List.NoDup (map alertId alerts)) ->
  List.NoDup (map alertId (notifiedAll polls w))
  /\ (forall a, In a (notifiedAll polls w) -> ~ In (alertId a) (shownAlerts w)).
Proof.
  revert w. induction polls as [|alerts rest IH]; intros w Hpolls.
  - split; [constructor|intros a []].
  - cbn [notifiedAll].
    destruct (IH (showAlertNotifications alerts w)) as [Hnd Hfresh];
      [intros p Hp; apply Hpolls; now right|].
    destruct (showAlertNotifications_effect alerts w) as [_ Hshown].
    rewrite Hshown in Hfresh.
    assert (Hnew : forall a, In a (newAlerts alerts w) ->
                             ~ In (alertId a) (shownAlerts w)).
    { intros a Hin Hs. apply filter_In in Hin as [_ Hneg].
      apply negb_true_iff in Hneg. apply array_includes_In in Hs. congruence. }
    split.
    + rewrite map_app. apply List.NoDup_app.
      * apply NoDup_map_filter, Hpolls. now left.
      * exact Hnd.
      * intros i Hi1 Hi2. apply in_map_iff in Hi2 as (b & <- & Hb).
        apply (Hfresh b Hb). apply in_or_app. now right.
    + intros a Hin. apply in_app_or in Hin as [Hin|Hin]; [now apply Hnew|].
      intros Hs. apply (Hfresh a Hin). apply in_or_app. now left.
Qed.

Lemma NoDup_map_filter_le_1 {A B} (f : A -> B) (p : A -> bool) (l : list A) (i : B) :
  List.NoDup (map f l) -> (forall x, p x = true -> f x = i) ->
  (length (List.filter p l) <= 1)%nat.
Proof.
  intros Hnd Hp. induction l as [|x l IH]; simpl; [lia|].
  inversion Hnd as [|? ? Hnotin Hnd']; subst.
  specialize (IH Hnd').
  destruct (p x) eqn:Hx; [|exact IH].
  simpl. destruct (List.filter p l) as [|y rest] eqn:Hf; [simpl; lia|].
  exfalso. apply Hnotin.
  assert (Hy : In y (List.filter p l)) by (rewrite Hf; now left).
  apply filter_In in Hy as [Hy Hpy].
  apply in_map_iff. exists y. split; [|exact Hy].
  rewrite (Hp x Hx), (Hp y Hpy). reflexivity.
Qed.

(** Across repeated polls, none of which lists the same identity twice, the
    step raises exactly one notification per alert it takes for new, and at
    most one of them is for the occurrence of a given alert, whatever the
    descriptions; the log ends with the identities of the new alerts. *)
Theorem at_most_once_across_polls (polls : list (list Alert)) (w : World) (a : Alert) :
  (forall alerts, In alerts polls -> List.NoDup (map alertId alerts)) ->
  notifications (browser (pollAll polls w))
  = (notifications (browser w) ++ map notificationFor (notifiedAll polls w))%list
  /\ (length (List.filter (sameIdentity a) (notifiedAll polls w)) <= 1)%nat
  /\ (In (alertId a) (shownAlerts w) ->
      List.filter (sameIdentity a) (notifiedAll polls w) = []).
Proof.
  intros Hpolls. destruct (notifiedAll_distinct polls w Hpolls) as [Hnd Hfresh].
  split; [apply pollAll_notifications|]. split.
  - apply (NoDup_map_filter_le_1 alertId _ _ (alertId a) Hnd).
    intros b Hb. symmetry. now apply sameIdentity_alertId.
  - intros Hshown.
    destruct (List.filter (sameIdentity a) (notifiedAll polls w)) as [|b rest] eqn:Hf;
      [reflexivity|].
    assert (Hb : In b (List.filter (sameIdentity a) (notifiedAll polls w)))
      by (rewrite Hf; now left).
    apply filter_In in Hb as [Hb Hsame].
    apply sameIdentity_alertId in Hsame.
    exfalso. apply (Hfresh b Hb). now rewrite <- Hsame.
Qed.

Lemma at_most_once_across_polls_witness :
  let w := new PermissionGranted true in
  let polls := [[Scenario.floodWarning]; [Scenario.floodWarningReworded];
                [Scenario.floodWarning]] in
  (length (List.filter (sameIdentity Scenario.floodWarning) (notifiedAll polls w)) <= 1)%nat
  /\ notifications (browser (pollAll polls w))
     = [notificationFor Scenario.floodWarning].
Proof.
  cbv zeta.
  assert (Hpolls : forall alerts,
             In alerts [[Scenario.floodWarning]; [Scenario.floodWarningReworded];
                        [Scenario.floodWarning]] ->
             List.NoDup (map alertId alerts)).
  { intros alerts [<-|[<-|[<-|[]]]]; repeat constructor; simpl; tauto. }
  split.
  - apply (at_most_once_across_polls _ (new PermissionGranted true)
             Scenario.floodWarning Hpolls).
  - vm_compute. reflexivity.
Defined.

End Deduplication.

(** C2 at a concrete input.  One poll lists the same occurrence twice, with
    two descriptions.  The log is read once, before the loop, so both alerts
    pass the filter: two notifications are raised for the one identity, and
    the identity is appended to the log twice. *)
Example duplicate_in_one_poll_notifies_twice :
  let w := WeatherApp.new WeatherApp.PermissionGranted true in
  let poll := [Scenario.floodWarning; Scenario.floodWarningReworded] in
  let w' := WeatherApp.showAlertNotifications poll w in
  sameIdentity Scenario.floodWarning Scenario.floodWarningReworded = true
  /\ WeatherApp.notifications (WeatherApp.browser w')
     = [WeatherApp.notificationFor Scenario.floodWarning;
        WeatherApp.notificationFor Scenario.floodWarningReworded]
  /\ length (List.filter (sameIdentity Scenario.floodWarning) (notifiedAll [poll] w)) = 2%nat
  /\ WeatherApp.shownAlerts w'
     = ["Flood Warning-1000-2000"; "Flood Warning-1000-2000"].
Proof. vm_compute. repeat split. Qed.

(** ** The gateway *)

Section Gateway.

Variable net : Provider.

(** C6. The request of the combined fetch carries [exclude=minutely] when the
    include-hourly flag is true and [exclude=minutely,hourly] when it is
    false, for every location and every provider; the gateway returns the
    provider's body as it is, removing nothing: the result has the hourly
    entries the provider sent.  With the flag false it has none when the
    provider leaves out what the request excludes. *)
Theorem getOneCallData_exclude (this : WeatherService.t) (location : Location) :
  param "exclude" (params (WeatherService.oneCallRequest this location true))
  = Some (PText "minutely")
  /\ excluded (WeatherService.oneCallRequest this location true) = ["minutely"]
  /\ param "exclude" (params (WeatherService.oneCallRequest this location false))
     = Some (PText "minutely,hourly")
  /\ excluded (WeatherService.oneCallRequest this location false)
     = ["minutely"; "hourly"]
  /\ (forall includeHourly,
        WeatherService.getOneCallData this net location includeHourly
        = WeatherService.receive "OneCall"
            (onecall net (WeatherService.oneCallRequest this location includeHourly)))
  /\ (forall includeHourly data,
        WeatherService.getOneCallData this net location includeHourly = Return data <->
        onecall net (WeatherService.oneCallRequest this location includeHourly) = Ok data)
  /\ (honours_exclude net ->
      forall data,
        WeatherService.getOneCallData this net location false = Return data ->
        OneCall.hourly data = None /\ hourlyEntries data = []).
Proof.
  split; [reflexivity|]. split; [reflexivity|].
  split; [reflexivity|]. split; [reflexivity|].
  split; [reflexivity|]. split.
  - intros includeHourly data.
    unfold WeatherService.getOneCallData, WeatherService.receive.
    destruct (onecall net _) as [m|st txt|body]; split; congruence.
  - intros Hnet data Hdata.
    unfold WeatherService.getOneCallData, WeatherService.receive in Hdata.
    destruct (onecall net _) as [m|st txt|body] eqn:Hresp; try discriminate.
    injection Hdata as <-.
    assert (Hnone : OneCall.hourly body = None).
    { apply (Hnet _ _ Hresp). simpl. tauto. }
    split; [exact Hnone|]. unfold hourlyEntries. now rewrite Hnone.
Qed.

(** C7. The gateway asks for at most 5 candidates and returns the provider's
    list as it is, in order and uncut, for every provider: the search fails
    with the no-locations error exactly when the provider answers with an
    empty list, and returns the provider's list exactly when that list is not
    empty; the list has at most 5 entries when the provider keeps to the
    limit; the caller takes the first candidate as the current location, and
    the outcome does not depend on the candidates after the first. *)
Theorem searchLocation_candidates (query : string) :
  let service := WeatherApp.service in
  let request := WeatherService.geocodingRequest service query in
  param "limit" (params request) = Some (PInt 5)
  /\ (WeatherService.searchLocation service net query = Throw (NoLocationsFound query)
      <-> geocoding net request = Ok [])
  /\ (forall data,
        WeatherService.searchLocation service net query = Return data <->
        geocoding net request = Ok data /\ data <> [])
  /\ (honours_limit net ->
      forall data,
        WeatherService.searchLocation service net query = Return data ->
        (length data <= 5)%nat)
  /\ (forall first rest w,
        WeatherService.searchLocation service net query = Return (first :: rest) ->
        WeatherApp.currentLocation (WeatherApp.this (WeatherApp.searchLocation net query w))
        = Some first
        /\ WeatherApp.searchLocation net query w
           = WeatherApp.searchLocation (withGeocoding (fun _ => Ok [first]) net) query w).
Proof.
  cbv zeta.
  split; [reflexivity|]. split; [|split; [|split]].
  - unfold WeatherService.searchLocation, WeatherService.receive.
    destruct (geocoding net _) as [m|st txt|data] eqn:Hresp.
    + split; discriminate.
    + split; discriminate.
    + destruct data as [|c cs]; simpl; split; congruence.
  - intros data.
    unfold WeatherService.searchLocation, WeatherService.receive.
    destruct (geocoding net _) as [m|st txt|body] eqn:Hresp.
    + split; [discriminate|intros [H _]; discriminate].
    + split; [discriminate|intros [H _]; discriminate].
    + destruct body as [|c cs]; simpl.
      * split; [discriminate|]. intros [H Hne]. injection H as <-. now destruct Hne.
      * split.
        -- intros H. injection H as <-. split; [reflexivity|discriminate].
        -- intros [H _]. now injection H as <-.
  - intros Hnet data H.
    unfold WeatherService.searchLocation, WeatherService.receive in H.
    destruct (geocoding net _) as [m|st txt|body] eqn:Hresp; try discriminate.
    destruct body as [|c cs]; simpl in H; [discriminate|].
    injection H as <-.
    specialize (Hnet _ _ 5%Z Hresp eq_refl). lia.
  - intros first rest w H.
    unfold WeatherApp.searchLocation. rewrite H.
    unfold WeatherService.searchLocation at 1. cbn [withGeocoding geocoding].
    cbn [WeatherService.receive length Nat.eqb].
    assert (Hfetch : forall w0,
               WeatherApp.fetchWeatherData (withGeocoding (fun _ => Ok [first]) net) w0
               = WeatherApp.fetchWeatherData net w0) by reflexivity.
    rewrite Hfetch. split; [|reflexivity].
    cbn [WeatherApp.hideLoading WeatherApp.set_page WeatherApp.this].
    rewrite currentLocation_fetchWeatherData. destruct first; reflexivity.
Qed.

End Gateway.

Lemma getOneCallData_exclude_witness :
  honours_exclude (Scenario.answering [] [])
  /\ (forall data,
        WeatherService.getOneCallData WeatherService.new (Scenario.answering [] [])
          Scenario.london false = Return data ->
        OneCall.hourly data = None /\ hourlyEntries data = [])
  /\ (exists data,
        WeatherService.getOneCallData WeatherService.new (Scenario.answering [] [])
          Scenario.london true = Return data
        /\ hourlyEntries data = Scenario.hours).
Proof.
  assert (H : honours_exclude (Scenario.answering [] [])).
  { intros req body Hresp Hin.
    assert (Hex : existsb (String.eqb "hourly") (excluded req) = true).
    { apply existsb_exists. exists "hourly". split; [exact Hin|reflexivity]. }
    unfold Scenario.answering, onecall in Hresp. rewrite Hex in Hresp.
    injection Hresp as <-. reflexivity. }
  split; [exact H|]. split.
  - destruct (getOneCallData_exclude (Scenario.answering [] []) WeatherService.new
                Scenario.london) as (_ & _ & _ & _ & _ & _ & Hnone).
    exact (Hnone H).
  - eexists. split; reflexivity.
Defined.

(** The gateway filters nothing: a provider that takes no notice of
    [exclude] is asked to leave the hourly part out, sends it all the same,
    and the result of the fetch with the flag false has its hourly entry. *)
Lemma getOneCallData_returns_unrequested_hourly :
  let request := WeatherService.oneCallRequest WeatherService.new Scenario.london false in
  In "hourly" (excluded request)
  /\ exists data,
       WeatherService.getOneCallData WeatherService.new (Cases.heedless [])
         Scenario.london false = Return data
       /\ OneCall.hourly data = Some Scenario.hours
       /\ hourlyEntries data = Scenario.hours
       /\ hourlyEntries data <> [].
Proof.
  cbv zeta. split; [simpl; tauto|].
  eexists. split; [reflexivity|]. repeat split. discriminate.
Qed.

Lemma searchLocation_candidates_witness :
  let net := Scenario.answering [] [Scenario.london; Scenario.londonOntario] in
  honours_limit net
  /\ WeatherService.searchLocation WeatherApp.service net "London"
     = Return [Scenario.london; Scenario.londonOntario]
  /\ (forall data,
        WeatherService.searchLocation WeatherApp.service net "London" = Return data ->
        (length data <= 5)%nat)
  /\ WeatherApp.currentLocation
       (WeatherApp.this
          (WeatherApp.searchLocation net "London"
             (WeatherApp.new WeatherApp.PermissionGranted true)))
     = Some Scenario.london.
Proof.
  cbv zeta.
  assert (H : honours_limit
                (Scenario.answering [] [Scenario.london; Scenario.londonOntario])).
  { intros req data n Hresp Hlimit Hn. unfold Scenario.answering in Hresp.
    unfold geocoding in Hresp. rewrite Hlimit in Hresp.
    injection Hresp as <-. rewrite length_firstn. lia. }
  destruct (searchLocation_candidates
              (Scenario.answering [] [Scenario.london; Scenario.londonOntario])
              "London") as (_ & _ & _ & Hbound & Hcaller).
  split; [exact H|]. split; [reflexivity|]. split; [exact (Hbound H)|].
  apply (Hcaller Scenario.london [Scenario.londonOntario]). reflexivity.
Defined.

(** The gateway does not cut the list: a provider that takes no notice of
    [limit] is asked for at most 5 candidates, answers with six, and the
    search returns all six, in the provider's order. *)
Lemma searchLocation_returns_six :
  param "limit" (params (WeatherService.geocodingRequest WeatherApp.service "Place"))
  = Some (PInt 5)
  /\ WeatherService.searchLocation WeatherApp.service (Cases.heedless Cases.sixPlaces)
       "Place"
     = Return Cases.sixPlaces
  /\ length Cases.sixPlaces = 6%nat
  /\ WeatherApp.currentLocation
       (WeatherApp.this
          (WeatherApp.searchLocation (Cases.heedless Cases.sixPlaces) "Place"
             (WeatherApp.new WeatherApp.PermissionGranted true)))
     = Some (Scenario.place 1).
Proof. repeat split. Qed.

(** ** The local user registry *)

Section Registry.

Import UserService.

Lemma users_key_ne_session : "weather_app_" ++ "currentUser" <> "weather_app_" ++ "users".
Proof. discriminate. Qed.

Lemma storedUsers_alert (m : string) (st : State) :
  storedUsers (alert m st) = storedUsers st.
Proof. reflexivity. Qed.

Lemma storedUsers_set_users (users : list User.t) (st : State) :
  storedUsers (setStoredItem "users" (StoredUsers users) st) = users.
Proof.
  unfold storedUsers, getStoredItem, setStoredItem. cbn [localStorage].
  now rewrite lookup_insert_eq.
Qed.

Lemma storedUsers_set_session (v : Stored) (st : State) :
  storedUsers (setStoredItem "currentUser" v st) = storedUsers st.
Proof.
  unfold storedUsers, getStoredItem, setStoredItem. cbn [localStorage].
  now rewrite lookup_insert_ne by exact users_key_ne_session.
Qed.

Lemma storedUsers_remove_session (st : State) :
  storedUsers (removeStoredItem "currentUser" st) = storedUsers st.
Proof.
  unfold storedUsers, getStoredItem, removeStoredItem. cbn [localStorage].
  now rewrite lookup_delete_ne by exact users_key_ne_session.
Qed.

Lemma find_existsb_Some {A} (p : A -> bool) (l : list A) :
  existsb p l = true <-> exists x, find p l = Some x.
Proof.
  rewrite existsb_find. destruct (find p l) as [x|]; split;
    intros H; try discriminate; eauto.
  destruct H as [x H]. discriminate.
Qed.

(** *** Saving a location at the limit *)

Lemma saveLocation_rejects (st : State) (session : Object) (location : Location)
  (now : Z) :
  currentUser st = Some session ->
  (CONFIG.UI.SAVED_LOCATIONS_LIMIT <= length (savedLocations st))%nat ->
  saveLocation (Some location) now st
  = alert (if alreadySaved location (savedLocations st)
           then "This location is already saved" else limitMessage) st.
Proof.
  intros Huser Hfull. unfold saveLocation, alreadySaved. rewrite Huser.
  rewrite existsb_find.
  destruct (find _ (savedLocations st)); [reflexivity|].
  apply Nat.leb_le in Hfull. rewrite Hfull. reflexivity.
Qed.

Lemma assignSavedLocations_bound (p : User.t -> bool)
  (locations : list SavedLocation.t) (users users' : list User.t) (n : nat) :
  (length locations <= n)%nat ->
  (forall user, In user users -> (length (User.savedLocations user) <= n)%nat) ->
  assignSavedLocations p locations users = Some users' ->
  forall user, In user users' -> (length (User.savedLocations user) <= n)%nat.
Proof.
  intros Hloc. revert users'.
  induction users as [|u users IH]; intros users' Hall Hassign; [discriminate|].
  cbn [assignSavedLocations] in Hassign. destruct (p u).
  - injection Hassign as <-. intros user [<-|Hin]; [exact Hloc|].
    apply Hall. now right.
  - destruct (assignSavedLocations p locations users) as [rest|] eqn:Hrest;
      [|discriminate].
    injection Hassign as <-. intros user [<-|Hin].
    + apply Hall. now left.
    + apply (IH rest); [intros x Hx; apply Hall; now right|reflexivity|exact Hin].
Qed.

Lemma withinLimit_updateUserSavedLocations (st : State) :
  withinLimit st -> withinLimit (updateUserSavedLocations st).
Proof.
  intros [Hmem Hstored]. unfold updateUserSavedLocations.
  destruct (currentUser st); [|split; assumption].
  destruct (assignSavedLocations _ _ _) as [users|] eqn:Hassign; [|split; assumption].
  split; [exact Hmem|]. rewrite storedUsers_set_users.
  exact (assignSavedLocations_bound _ _ _ _ _ Hmem Hstored Hassign).
Qed.

Lemma withinLimit_login (email password : string) (st : State) :
  withinLimit st -> withinLimit (login email password st).
Proof.
  intros [Hmem Hstored]. unfold login.
  destruct (find _ (storedUsers st)) as [user|] eqn:Hfind; [|split; assumption].
  apply find_some in Hfind as [Hin _].
  split; [exact (Hstored user Hin)|].
  rewrite storedUsers_set_session. exact Hstored.
Qed.

Lemma withinLimit_loadUserData (st : State) :
  withinLimit st -> withinLimit (loadUserData st).
Proof.
  intros [Hmem Hstored]. unfold loadUserData.
  destruct (getStoredItem "currentUser" st) as [[l|l|l|session]|];
    try (split; [exact Hmem|exact Hstored]).
  match goal with
  | |- context [find ?p ?l] => destruct (find p l) as [user|] eqn:Hfind
  end.
  - apply find_some in Hfind as [Hin _].
    split; [exact (Hstored user Hin)|exact Hstored].
  - split; [exact Hmem|exact Hstored].
Qed.

Lemma withinLimit_new (storage : gmap string Stored) :
  (forall users, storage !! ("weather_app_" ++ "users") = Some (StoredUsers users) ->
     forall user, In user users ->
       (length (User.savedLocations user) <= CONFIG.UI.SAVED_LOCATIONS_LIMIT)%nat) ->
  withinLimit (new storage).
Proof.
  intros Hstorage. apply withinLimit_loadUserData.
  split; [simpl; lia|].
  intros user Hin. unfold storedUsers, getStoredItem in Hin. cbn [localStorage] in Hin.
  destruct (storage !! ("weather_app_" ++ "users")) as [[l|l|users|o]|] eqn:Hget;
    try contradiction.
  exact (Hstorage users eq_refl user Hin).
Qed.

Lemma withinLimit_step (st st' : State) :
  step st st' -> withinLimit st -> withinLimit st'.
Proof.
  intros Hstep Hok. destruct Hstep.
  - (* register *)
    unfold register. destruct (find _ (storedUsers st)); [exact Hok|].
    apply withinLimit_login. destruct Hok as [Hmem Hstored].
    split; [exact Hmem|]. rewrite storedUsers_set_users.
    intros user Hin. apply in_app_or in Hin as [Hin|[<-|[]]];
      [now apply Hstored|simpl; lia].
  - now apply withinLimit_login.
  - (* logout *)
    destruct Hok as [_ Hstored]. unfold logout.
    split; [simpl; lia|]. rewrite storedUsers_remove_session. exact Hstored.
  - (* saveLocation *)
    unfold saveLocation.
    destruct (currentUser st) as [session|] eqn:Huser; [|exact Hok].
    destruct location as [location|]; [|exact Hok].
    destruct (find _ (savedLocations st)); [exact Hok|].
    destruct (_ <=? _)%nat eqn:Hfull; [exact Hok|].
    apply Nat.leb_gt in Hfull.
    apply withinLimit_updateUserSavedLocations.
    destruct Hok as [_ Hstored]. split; [|exact Hstored].
    cbn [savedLocations]. rewrite length_app. simpl. lia.
  - (* removeLocation *)
    unfold removeLocation. destruct (currentUser st); [|exact Hok].
    apply withinLimit_updateUserSavedLocations.
    destruct Hok as [Hmem Hstored]. split; [|exact Hstored].
    cbn [savedLocations].
    pose proof (List.filter_length_le
                  (fun location => negb (String.eqb (SavedLocation.id location) locationId))
                  (savedLocations st)).
    lia.
  - (* reload *)
    apply withinLimit_new. destruct Hok as [_ Hstored].
    intros users Hget user Hin. apply Hstored.
    unfold storedUsers, getStoredItem. rewrite Hget. exact Hin.
Qed.

Lemma reachable_withinLimit (st : State) : reachable st -> withinLimit st.
Proof.
  induction 1 as [|st st' _ IH Hstep].
  - apply withinLimit_new. intros users Hget. rewrite lookup_empty in Hget. discriminate.
  - exact (withinLimit_step st st' Hstep IH).
Qed.

(** C5. For a logged-in user whose saved locations already number the
    configured maximum, saving any further location only shows a message
    (that the limit is reached, or, for a location saved before, that it is
    already saved): the saved locations in memory and the whole storage stay
    as they were.  Consequently, in every state the service reaches, neither
    the saved locations in memory nor those of any stored user exceed the
    maximum. *)
Theorem saveLocation_limit :
  CONFIG.UI.SAVED_LOCATIONS_LIMIT = 5%nat
  /\ (forall st session location now,
        currentUser st = Some session ->
        (CONFIG.UI.SAVED_LOCATIONS_LIMIT <= length (savedLocations st))%nat ->
        let st' := saveLocation (Some location) now st in
        savedLocations st' = savedLocations st
        /\ localStorage st' = localStorage st
        /\ currentUser st' = currentUser st
        /\ alerted st'
           = (alerted st ++ [if alreadySaved location (savedLocations st)
                             then "This location is already saved"
                             else limitMessage])%list)
  /\ (forall st, reachable st ->
        (length (savedLocations st) <= CONFIG.UI.SAVED_LOCATIONS_LIMIT)%nat
        /\ (forall user, In user (storedUsers st) ->
              (length (User.savedLocations user) <= CONFIG.UI.SAVED_LOCATIONS_LIMIT)%nat)).
Proof.
  split; [reflexivity|]. split.
  - intros st session location now Huser Hfull. cbv zeta.
    rewrite (saveLocation_rejects st session location now Huser Hfull).
    repeat split.
  - intros st Hreach. exact (reachable_withinLimit st Hreach).
Qed.

(** The limit at work: with five places saved, a sixth is refused with the
    limit message, a place saved before with the other message, and the list
    keeps its five entries. *)
Example saveLocation_sixth_refused :
  reachable Scenario.adaWithFive
  /\ length (savedLocations Scenario.adaWithFive) = 5%nat
  /\ (let st' := saveLocation (Some (Scenario.place 6)) 1700000000006 Scenario.adaWithFive in
      savedLocations st' = savedLocations Scenario.adaWithFive
      /\ alerted st' = ["You can only save up to 5 locations. Please remove one first."])
  /\ (let st' := saveLocation (Some (Scenario.place 3)) 1700000000006 Scenario.adaWithFive in
      savedLocations st' = savedLocations Scenario.adaWithFive
      /\ alerted st' = ["This location is already saved"])
  /\ map (fun user => length (User.savedLocations user)) (storedUsers Scenario.adaWithFive)
     = [5%nat].
Proof.
  split.
  - unfold Scenario.adaWithFive. cbn [fold_left].
    repeat (eapply reachable_step; [|apply step_saveLocation]).
    eapply reachable_step; [apply reachable_new|apply step_register].
  - vm_compute. repeat split.
Qed.

(** *** The session record *)

Lemma sessionsBare_login (email password : string) (st : State) :
  sessionsBare st -> sessionsBare (login email password st).
Proof.
  intros [Hmem Hstored]. unfold login.
  destruct (find _ (storedUsers st)) as [user|]; [|split; assumption].
  split.
  - intros session [= <-]. reflexivity.
  - intros v Hget. unfold getStoredItem, setStoredItem in Hget.
    cbn [localStorage] in Hget. rewrite lookup_insert_eq in Hget.
    injection Hget as <-. eexists. split; reflexivity.
Qed.

Lemma sessionsBare_set_users (users : list User.t) (st : State) :
  sessionsBare st -> sessionsBare (setStoredItem "users" (StoredUsers users) st).
Proof.
  intros [Hmem Hstored]. split; [exact Hmem|].
  intros v Hget. apply Hstored. unfold getStoredItem, setStoredItem in *.
  cbn [localStorage] in Hget.
  rewrite lookup_insert_ne in Hget; [exact Hget|].
  intros Heq. symmetry in Heq. exact (users_key_ne_session Heq).
Qed.

Lemma sessionsBare_updateUserSavedLocations (st : State) :
  sessionsBare st -> sessionsBare (updateUserSavedLocations st).
Proof.
  intros Hok. unfold updateUserSavedLocations.
  destruct (currentUser st); [|exact Hok].
  destruct (assignSavedLocations _ _ _); [|exact Hok].
  now apply sessionsBare_set_users.
Qed.

Lemma sessionsBare_loadUserData (st : State) :
  (forall v, getStoredItem "currentUser" st = Some v ->
     exists session, v = StoredObject session
                     /\ keys session = ["id"; "name"; "email"]) ->
  sessionsBare (loadUserData st).
Proof.
  intros Hstored. unfold loadUserData.
  destruct (getStoredItem "currentUser" st) as [v|] eqn:Hget.
  - destruct (Hstored v eq_refl) as (session & -> & Hkeys).
    match goal with
    | |- context [find ?p ?l] => destruct (find p l)
    end; (split; [intros o [= <-]; exact Hkeys|]);
      intros v Hv; change (getStoredItem "currentUser" st = Some v) in Hv;
      rewrite Hget in Hv; injection Hv as <-; eauto.
  - split; [discriminate|].
    intros v Hv. change (getStoredItem "currentUser" st = Some v) in Hv.
    rewrite Hget in Hv. discriminate.
Qed.

Lemma sessionsBare_step (st st' : State) :
  step st st' -> sessionsBare st -> sessionsBare st'.
Proof.
  intros Hstep Hok. destruct Hstep.
  - unfold register. destruct (find _ (storedUsers st)); [exact Hok|].
    now apply sessionsBare_login, sessionsBare_set_users.
  - now apply sessionsBare_login.
  - unfold logout. split; [discriminate|].
    intros v Hget. unfold getStoredItem, removeStoredItem in Hget.
    cbn [localStorage] in Hget. rewrite lookup_delete_eq in Hget. discriminate.
  - unfold saveLocation.
    destruct (currentUser st) eqn:Huser; [|exact Hok].
    destruct location; [|exact Hok].
    destruct (find _ (savedLocations st)); [exact Hok|].
    destruct (_ <=? _)%nat; [exact Hok|].
    apply sessionsBare_updateUserSavedLocations.
    destruct Hok as [Hmem Hstored]. rewrite <- Huser.
    split; [exact Hmem|exact Hstored].
  - unfold removeLocation. destruct (currentUser st) eqn:Huser; [|exact Hok].
    apply sessionsBare_updateUserSavedLocations.
    destruct Hok as [Hmem Hstored]. rewrite <- Huser.
    split; [exact Hmem|exact Hstored].
  - destruct Hok as [_ Hstored]. apply sessionsBare_loadUserData. exact Hstored.
Qed.

(** In every state the service reaches, the session in memory and the one
    in the storage have the properties [id], [name] and [email] only. *)
Lemma reachable_sessionsBare (st : State) : reachable st -> sessionsBare st.
Proof.
  induction 1 as [|st st' _ IH Hstep].
  - apply sessionsBare_loadUserData.
    intros v Hv. unfold getStoredItem in Hv. cbn [localStorage] in Hv.
    rewrite lookup_empty in Hv. discriminate.
  - exact (sessionsBare_step st st' Hstep IH).
Qed.

(** C10. After a login that succeeds, the session held in memory and the
    one written under the [currentUser] key are the same record, made of the
    user's [id], [name] and [email] and nothing else: it has no [password]
    property.  The list of registered users is not touched, and the user, with
    the password, is still in it. *)
Theorem login_session_without_password (email password : string) (st : State)
  (user : User.t) :
  find (credentialsMatch email password) (storedUsers st) = Some user ->
  let st' := login email password st in
  currentUser st' = Some (sessionOf user)
  /\ getStoredItem "currentUser" st' = Some (StoredObject (sessionOf user))
  /\ keys (sessionOf user) = ["id"; "name"; "email"]
  /\ prop (sessionOf user) "password" = None
  /\ prop (sessionOf user) "id" = Some (User.id user)
  /\ prop (sessionOf user) "name" = Some (User.name user)
  /\ prop (sessionOf user) "email" = Some (User.email user)
  /\ storedUsers st' = storedUsers st
  /\ In user (storedUsers st')
  /\ User.password user = password.
Proof.
  intros Hfind. cbv zeta. unfold login, credentialsMatch in *. rewrite Hfind.
  rewrite storedUsers_set_session.
  apply find_some in Hfind as [Hin Hmatch].
  apply andb_true_iff in Hmatch as [_ Hpw]. apply String.eqb_eq in Hpw.
  repeat split; try assumption.
  unfold getStoredItem, setStoredItem. cbn [localStorage].
  apply lookup_insert_eq.
Qed.

End Registry.

Lemma login_session_without_password_witness :
  let st := UserService.logout Scenario.adaWithFive in
  let st' := UserService.login "ada@example.org" "s3cret" st in
  UserService.currentUser st = None
  /\ UserService.currentUser st'
     = Some [("id", "1700000000000"); ("name", "Ada"); ("email", "ada@example.org")]
  /\ UserService.getStoredItem "currentUser" st'
     = Some (StoredObject
               [("id", "1700000000000"); ("name", "Ada"); ("email", "ada@example.org")]).
Proof.
  cbv zeta.
  assert (Hfind : find (credentialsMatch "ada@example.org" "s3cret")
                    (UserService.storedUsers (UserService.logout Scenario.adaWithFive))
                  = Some {| User.id := "1700000000000"; User.name := "Ada";
                            User.email := "ada@example.org"; User.password := "s3cret";
                            User.savedLocations :=
                              UserService.savedLocations Scenario.adaWithFive |})
    by (vm_compute; reflexivity).
  split; [reflexivity|].
  destruct (login_session_without_password _ _ _ _ Hfind) as (Hmem & Hstored & _).
  split; [exact Hmem|exact Hstored].
Defined.

(** ** Formatting a temperature *)

Section Formatting.

Variable exponential : Q -> string.

(** [double_21_549] is the double that the literal [21.549] denotes: its
    significand has 53 bits at exponent -48, and it lies within half a unit
    in the last place (2^-49) of 21.549. *)
Lemma double_21_549_nearest :
  (double_21_549 == 6065504273137926 / 2 ^ 48)%Q
  /\ (2 ^ 52 <= 6065504273137926 < 2 ^ 53)%Z
  /\ (Qabs (double_21_549 - 21549 / 1000) < 1 / 2 ^ 49)%Q.
Proof.
  split; [reflexivity|]. split; [lia|]. reflexivity.
Qed.

(** C8. Under the configured metric units and one decimal place, the
    temperature 21.549 is rendered as "21.5°C", and [null] as the placeholder
    "--". *)
Theorem formatTemperature_examples :
  WeatherService.units WeatherService.new = "metric"
  /\ CONFIG.UI.TEMPERATURE_DECIMAL_PLACES = 1%nat
  /\ WeatherService.formatTemperature exponential WeatherService.new
       (JS.Num (JS.Finite double_21_549)) = "21.5°C"
  /\ WeatherService.formatTemperature exponential WeatherService.new
       (JS.Num (JS.Finite (21549 / 1000))) = "21.5°C"
  /\ WeatherService.formatTemperature exponential WeatherService.new JS.Null = "--".
Proof. repeat split. Qed.

Lemma formatTemperature_215 (q : Q) :
  (2145 # 100 <= q)%Q -> (q < 2155 # 100)%Q ->
  WeatherService.formatTemperature exponential WeatherService.new (JS.Num (JS.Finite q))
  = "21.5°C".
Proof.
  intros Hlo Hhi.
  assert (Hpos : (0 < q)%Q) by (eapply Qlt_le_trans; [|exact Hlo]; reflexivity).
  unfold WeatherService.formatTemperature.
  assert (Hne : Qeq_bool q 0 = false).
  { destruct (Qeq_bool q 0) eqn:Heq; [|reflexivity].
    apply Qeq_bool_eq in Heq. rewrite Heq in Hpos. discriminate. }
  cbn [JS.falsy JS.strict_ne_zero JS.Number]. rewrite Hne. cbn [andb].
  unfold JS.toFixed.
  destruct (Qlt_le_dec q 0) as [Hneg|_];
    [exfalso; exact (Qlt_irrefl _ (Qlt_trans _ _ _ Hneg Hpos))|].
  assert (Habs : Qabs q = q).
  { destruct q as [n d]. unfold Qlt in Hpos. simpl in Hpos.
    unfold Qabs. rewrite Z.abs_eq by lia. reflexivity. }
  rewrite Habs.
  assert (Hsmall : Qle_bool (10 ^ 21) q = false).
  { destruct (Qle_bool (10 ^ 21) q) eqn:Hle; [|reflexivity].
    apply Qle_bool_iff in Hle.
    exfalso. apply (Qlt_irrefl q). eapply Qlt_le_trans; [exact Hhi|].
    eapply Qle_trans; [|exact Hle]. discriminate. }
  rewrite Hsmall.
  assert (Hn : JS.toFixed_integer q CONFIG.UI.TEMPERATURE_DECIMAL_PLACES = 215%Z).
  { destruct q as [n d]. unfold JS.toFixed_integer. cbn [Qnum Qden].
    unfold Qle, Qlt in Hlo, Hhi. cbn [Qnum Qden] in Hlo, Hhi.
    change (10 ^ Z.of_nat CONFIG.UI.TEMPERATURE_DECIMAL_PLACES)%Z with 10%Z.
    symmetry. apply Z.div_unique with (r := (2 * (n * 10) + Z.pos d - 2 * Z.pos d * 215)%Z);
      lia. }
  rewrite Hn. reflexivity.
Qed.

(** [double_21_45] and [double_21_55] are the doubles that the literals
    [21.45] and [21.55] denote: each has a 53-bit significand at exponent
    -48 and lies within half a unit in the last place of its literal, the
    first below 21.45 and the second above 21.55. *)
Lemma double_21_45_21_55_nearest :
  (double_21_45 == 6037638250443571 / 2 ^ 48)%Q
  /\ (double_21_55 == 6065785748114637 / 2 ^ 48)%Q
  /\ (2 ^ 52 <= 6037638250443571 < 2 ^ 53)%Z
  /\ (2 ^ 52 <= 6065785748114637 < 2 ^ 53)%Z
  /\ (Qabs (double_21_45 - 2145 / 100) < 1 / 2 ^ 49)%Q
  /\ (Qabs (double_21_55 - 2155 / 100) < 1 / 2 ^ 49)%Q
  /\ (ulp_16_32 == 1 / 2 ^ 48)%Q.
Proof.
  split; [reflexivity|]. split; [reflexivity|]. split; [lia|]. split; [lia|].
  repeat split.
Qed.

(** With metric units and one decimal place, a temperature is rendered by
    the tenth nearest to its exact value: every number whose exact value lies
    from 21.45 up to, but not including, 21.55 is rendered as "21.5°C".
    Neither bound is a double.  The double that the literal [21.45] denotes
    lies below 21.45 and is rendered as "21.4°C"; the next double, the first
    one of the range, as "21.5°C"; so is the last double below 21.55; the
    double that the literal [21.55] denotes lies above 21.55 and is rendered
    as "21.6°C".  No double of the range is half-way between two tenths; the
    double 21.25 is, and is rendered by the larger tenth, "21.3°C". *)
Lemma formatTemperature_nearest_tenth :
  let render q :=
    WeatherService.formatTemperature exponential WeatherService.new (JS.Num (JS.Finite q)) in
  (forall q, (2145 # 100 <= q)%Q -> (q < 2155 # 100)%Q -> render q = "21.5°C")
  /\ (double_21_45 < 2145 # 100)%Q
  /\ render double_21_45 = "21.4°C"
  /\ (2145 # 100 < double_21_45 + ulp_16_32)%Q
  /\ render (double_21_45 + ulp_16_32)%Q = "21.5°C"
  /\ (double_21_55 - ulp_16_32 < 2155 # 100)%Q
  /\ render (double_21_55 - ulp_16_32)%Q = "21.5°C"
  /\ (2155 # 100 < double_21_55)%Q
  /\ render double_21_55 = "21.6°C"
  /\ render (2125 # 100) = "21.3°C".
Proof.
  cbv zeta. split; [exact formatTemperature_215|]. repeat split.
Qed.

(** The other inputs without a value are rendered as the placeholder too,
    and zero is a value. *)
Lemma formatTemperature_placeholder :
  WeatherService.formatTemperature exponential WeatherService.new JS.Undefined = "--"
  /\ WeatherService.formatTemperature exponential WeatherService.new (JS.Num JS.NaN) = "--"
  /\ WeatherService.formatTemperature exponential WeatherService.new (JS.Num (JS.Finite 0))
     = "0.0°C"
  /\ WeatherService.formatTemperature exponential WeatherService.new
       (JS.Num (JS.Finite (-4 / 100))) = "-0.0°C".
Proof. repeat split. Qed.

End Formatting.

(** The sibling path: when the fetch succeeds, the refresh is armed again,
    one refresh interval after the moment the timer fired. *)
Example successful_refresh_is_rescheduled :
  let before := WeatherApp.fire (Scenario.answering [] []) 1 Scenario.ready in
  let after := WeatherApp.fire (Scenario.answering [Scenario.floodWarning] []) 2 before in
  WeatherApp.clock (WeatherApp.browser after) = CONFIG.DEFAULTS.REFRESH_INTERVAL
  /\ List.filter isAutoRefresh (WeatherApp.timers (WeatherApp.browser after))
     = [{| WeatherApp.handle := 4; WeatherApp.callback := WeatherApp.AutoRefresh;
           WeatherApp.due := 2 * CONFIG.DEFAULTS.REFRESH_INTERVAL;
           WeatherApp.period := None |}]
  /\ WeatherApp.refreshTimer (WeatherApp.this after) = Some 4%positive
  /\ WeatherApp.notifications (WeatherApp.browser after)
     = [WeatherApp.notificationFor Scenario.floodWarning].
Proof. vm_compute. repeat split. Qed.

Lemma refresh_stays_disarmed_witness :
  let before := WeatherApp.fire (Scenario.answering [] []) 1 Scenario.ready in
  let after := WeatherApp.fire Scenario.unavailable 2 before in
  List.filter isAutoRefresh
    (WeatherApp.timers
       (WeatherApp.browser
          (fold_left (fun w f => WeatherApp.fire (fst f) (snd f) w)
             [(Scenario.answering [] [], 3%positive);
              (Scenario.answering [Scenario.floodWarning] [], 1%positive);
              (Scenario.answering [] [], 1%positive)]
             after))) = [].
Proof.
  cbv zeta. apply refresh_stays_disarmed. vm_compute. reflexivity.
Defined.

Lemma reachable_sessionsBare_witness :
  sessionsBare Scenario.adaWithFive
  /\ UserService.currentUser Scenario.adaWithFive
     = Some [("id", "1700000000000"); ("name", "Ada"); ("email", "ada@example.org")].
Proof.
  split; [|vm_compute; reflexivity].
  apply reachable_sessionsBare.
  unfold Scenario.adaWithFive. cbn [fold_left].
  repeat (eapply UserService.reachable_step; [|apply UserService.step_saveLocation]).
  eapply UserService.reachable_step;
    [apply UserService.reachable_new|apply UserService.step_register].
Defined.

Lemma formatTemperature_nearest_tenth_witness :
  WeatherService.formatTemperature (fun _ => "") WeatherService.new
    (JS.Num (JS.Finite double_21_549)) = "21.5°C"
  /\ WeatherService.formatTemperature (fun _ => "") WeatherService.new
       (JS.Num (JS.Finite (double_21_45 + ulp_16_32))) = "21.5°C".
Proof.
  pose proof (formatTemperature_nearest_tenth (fun _ => "")) as [Hrange _].
  split; apply Hrange; (discriminate || reflexivity).
Defined.

(** ** The registry: registration, credentials, persistence *)

Section RegistryMore.

Import UserService.

Lemma new_localStorage (storage : gmap string Stored) :
  localStorage (new storage) = storage.
Proof.
  unfold new, loadUserData, getStoredItem at 1. cbn [localStorage].
  destruct (storage !! ("weather_app_" ++ "currentUser")) as [[l|l|l|session]|];
    try reflexivity.
  match goal with |- context [find ?p ?l] => destruct (find p l) end; reflexivity.
Qed.

Lemma new_currentUser (storage : gmap string Stored) :
  currentUser (new storage)
  = match storage !! ("weather_app_" ++ "currentUser") with
    | Some (StoredObject session) => Some session
    | _ => None
    end.
Proof.
  unfold new, loadUserData, getStoredItem at 1. cbn [localStorage].
  destruct (storage !! ("weather_app_" ++ "currentUser")) as [[l|l|l|session]|];
    try reflexivity.
  match goal with |- context [find ?p ?l] => destruct (find p l) end; reflexivity.
Qed.

Lemma storedUsers_new (storage : gmap string Stored) (st : State) :
  localStorage st = storage -> storedUsers (new storage) = storedUsers st.
Proof.
  intros <-. unfold storedUsers, getStoredItem. now rewrite new_localStorage.
Qed.

Lemma assignSavedLocations_emails (p : User.t -> bool)
  (locations : list SavedLocation.t) (users users' : list User.t) :
  assignSavedLocations p locations users = Some users' ->
  map User.email users' = map User.email users
  /\ map User.id users' = map User.id users
  /\ map User.password users' = map User.password users.
Proof.
  revert users'. induction users as [|u users IH]; intros users' H; [discriminate|].
  cbn [assignSavedLocations] in H. destruct (p u).
  - injection H as <-. repeat split.
  - destruct (assignSavedLocations p locations users) as [rest|]; [|discriminate].
    injection H as <-. destruct (IH rest eq_refl) as (He & Hi & Hp).
    cbn [map]. now rewrite He, Hi, Hp.
Qed.

Lemma storedUsers_updateUserSavedLocations (st : State) :
  map User.email (storedUsers (updateUserSavedLocations st))
  = map User.email (storedUsers st)
  /\ map User.id (storedUsers (updateUserSavedLocations st))
     = map User.id (storedUsers st).
Proof.
  unfold updateUserSavedLocations.
  destruct (currentUser st); [|split; reflexivity].
  destruct (assignSavedLocations _ _ _) as [users|] eqn:Hassign; [|split; reflexivity].
  rewrite storedUsers_set_users.
  destruct (assignSavedLocations_emails _ _ _ _ Hassign) as (He & Hi & _).
  split; assumption.
Qed.

Lemma storedUsers_login (email password : string) (st : State) :
  storedUsers (login email password st) = storedUsers st.
Proof.
  unfold login. destruct (find _ (storedUsers st)); [|reflexivity].
  now rewrite storedUsers_set_session.
Qed.

Lemma find_email_None (email : string) (users : list User.t) :
  find (fun user => String.eqb (User.email user) email) users = None <->
  ~ In email (map User.email users).
Proof.
  induction users as [|u users IH]; simpl; [tauto|].
  destruct (String.eqb (User.email u) email) eqn:He.
  - apply String.eqb_eq in He. split; [discriminate|]. intros H. exfalso. apply H. now left.
  - apply String.eqb_neq in He. rewrite IH. tauto.
Qed.

(** The stored users after each operation, as far as their emails go. *)
Lemma emails_step (st st' : State) :
  step st st' ->
  List.NoDup (map User.email (storedUsers st)) ->
  List.NoDup (map User.email (storedUsers st')).
Proof.
  intros Hstep Hnd. destruct Hstep.
  - unfold register.
    destruct (find _ (storedUsers st)) eqn:Hfind; [exact Hnd|].
    rewrite storedUsers_login, storedUsers_set_users, map_app. cbn [map User.email].
    apply find_email_None in Hfind.
    apply List.NoDup_app; [exact Hnd|repeat constructor; intros []|].
    intros e He [<-|[]]. contradiction.
  - now rewrite storedUsers_login.
  - unfold logout. now rewrite storedUsers_remove_session.
  - unfold saveLocation.
    destruct (currentUser st) eqn:Huser; [|exact Hnd].
    destruct location; [|exact Hnd].
    destruct (find _ (savedLocations st)); [exact Hnd|].
    destruct (_ <=? _)%nat; [exact Hnd|].
    match goal with
    | |- context [updateUserSavedLocations ?s] =>
        destruct (storedUsers_updateUserSavedLocations s) as [-> _]
    end. exact Hnd.
  - unfold removeLocation. destruct (currentUser st) eqn:Huser; [|exact Hnd].
    match goal with
    | |- context [updateUserSavedLocations ?s] =>
        destruct (storedUsers_updateUserSavedLocations s) as [-> _]
    end. exact Hnd.
  - now rewrite (storedUsers_new (localStorage st) st eq_refl).
Qed.

(** No two registered users share an email (compared as [===] compares
    strings, letter case included), in every state the service reaches; and
    registering an email that is taken changes nothing but shows the message. *)
Theorem registered_emails_distinct (st : State) :
  reachable st ->
  List.NoDup (map User.email (storedUsers st))
  /\ (forall name email password now,
        In email (map User.email (storedUsers st)) ->
        register name email password now st
        = alert "User with this email already exists" st).
Proof.
  intros Hreach. split.
  - induction Hreach as [|st st' _ IH Hstep].
    + unfold storedUsers, getStoredItem.
      rewrite new_localStorage, lookup_empty. constructor.
    + exact (emails_step st st' Hstep IH).
  - intros name email password now Hin. unfold register.
    destruct (find _ (storedUsers st)) eqn:Hfind; [reflexivity|].
    apply find_email_None in Hfind. contradiction.
Qed.

End RegistryMore.

Section RegistrySessions.

Import UserService.

Lemma find_app_last {A} (p : A -> bool) (l : list A) (x : A) :
  (forall y, In y l -> p y = false) -> p x = true ->
  find p (l ++ [x])%list = Some x.
Proof.
  intros Hl Hx. induction l as [|y l IH]; simpl.
  - now rewrite Hx.
  - rewrite (Hl y) by now left. apply IH. intros z Hz. apply Hl. now right.
Qed.

Lemma login_found (email password : string) (st : State) (user : User.t) :
  find (credentialsMatch email password) (storedUsers st) = Some user ->
  login email password st
  = setStoredItem "currentUser" (StoredObject (sessionOf user))
      {| currentUser := Some (sessionOf user);
         savedLocations := User.savedLocations user;
         localStorage := localStorage st;
         alerted := alerted st |}.
Proof. intros Hfind. unfold login, credentialsMatch in *. now rewrite Hfind. Qed.

Lemma storedUsers_same_storage (st st' : State) :
  localStorage st = localStorage st' -> storedUsers st = storedUsers st'.
Proof. intros H. unfold storedUsers, getStoredItem. now rewrite H. Qed.

Lemma storedUsers_logout (st : State) : storedUsers (logout st) = storedUsers st.
Proof. unfold logout. now rewrite storedUsers_remove_session. Qed.

(** Registering an email that is not taken appends the user to the stored
    list with no saved location, shows no message, and logs the user in; after
    a logout the same email and password log the same user in again. *)
Theorem register_then_login (name email password : string) (now : Z) (st : State) :
  ~ In email (map User.email (storedUsers st)) ->
  let user := newUser name email password now in
  let st1 := register name email password now st in
  let st2 := login email password (logout st1) in
  storedUsers st1 = (storedUsers st ++ [user])%list
  /\ currentUser st1 = Some (sessionOf user)
  /\ savedLocations st1 = []
  /\ alerted st1 = alerted st
  /\ currentUser (logout st1) = None
  /\ currentUser st2 = Some (sessionOf user)
  /\ savedLocations st2 = []
  /\ storedUsers st2 = storedUsers st1.
Proof.
  intros Hfresh. cbv zeta.
  assert (Hnone : find (fun user => String.eqb (User.email user) email) (storedUsers st)
                  = None) by now apply find_email_None.
  assert (Hfind : forall st0,
             storedUsers st0 = (storedUsers st ++ [newUser name email password now])%list ->
             find (credentialsMatch email password) (storedUsers st0)
             = Some (newUser name email password now)).
  { intros st0 ->. apply find_app_last.
    - intros u Hu. unfold credentialsMatch.
      destruct (String.eqb (User.email u) email) eqn:He; [|reflexivity].
      apply String.eqb_eq in He. exfalso. apply Hfresh.
      apply in_map_iff. now exists u.
    - unfold credentialsMatch, newUser. cbn [User.email User.password].
      now rewrite !String.eqb_refl. }
  assert (Hreg : register name email password now st
                 = login email password
                     (setStoredItem "users"
                        (StoredUsers (storedUsers st ++ [newUser name email password now]))
                        st)).
  { unfold register. now rewrite Hnone. }
  set (user := newUser name email password now) in *.
  set (stU := setStoredItem "users" (StoredUsers (storedUsers st ++ [user])) st) in *.
  assert (HstU : storedUsers stU = (storedUsers st ++ [user])%list)
    by apply storedUsers_set_users.
  assert (Hst1 : storedUsers (login email password stU) = (storedUsers st ++ [user])%list).
  { now rewrite storedUsers_login. }
  rewrite Hreg.
  assert (Hout : storedUsers (logout (login email password stU))
                 = (storedUsers st ++ [user])%list).
  { now rewrite storedUsers_logout. }
  split; [exact Hst1|].
  rewrite (login_found email password _ _ (Hfind _ HstU)).
  split; [reflexivity|]. split; [reflexivity|]. split; [reflexivity|].
  split; [reflexivity|].
  rewrite <- (login_found email password _ _ (Hfind _ HstU)).
  rewrite (login_found email password _ _ (Hfind _ Hout)).
  split; [reflexivity|]. split; [reflexivity|].
  rewrite storedUsers_set_session.
  rewrite Hst1, <- Hout. apply storedUsers_same_storage. reflexivity.
Qed.

Lemma register_then_login_witness :
  let st1 := register "Grace" "grace@example.org" "h0pper" 1700000000500 Cases.adaLoggedOut in
  map User.email (storedUsers st1) = ["ada@example.org"; "grace@example.org"]
  /\ currentUser (login "grace@example.org" "h0pper" (logout st1))
     = Some [("id", "1700000000500"); ("name", "Grace"); ("email", "grace@example.org")].
Proof.
  cbv zeta.
  assert (Hfresh : ~ In "grace@example.org" (map User.email (storedUsers Cases.adaLoggedOut))).
  { vm_compute. intros [H|[]]. discriminate. }
  destruct (register_then_login "Grace" "grace@example.org" "h0pper" 1700000000500
              Cases.adaLoggedOut Hfresh) as (Husers & _ & _ & _ & _ & Hsession & _).
  split; [rewrite Husers; vm_compute; reflexivity|exact Hsession].
Defined.

(** A login opens a session only for an email and password that a registered
    user has: when no registered user matches, nothing changes but the message
    shown; and whenever a session is held after a login that was not held
    before, it is the session of a registered user with that email and that
    password. *)
Theorem login_needs_credentials (email password : string) (st : State) :
  ((forall user, In user (storedUsers st) ->
      credentialsMatch email password user = false) ->
   login email password st = alert "Invalid email or password" st)
  /\ (forall session,
        currentUser (login email password st) = Some session ->
        currentUser st = Some session
        \/ exists user, In user (storedUsers st)
                        /\ User.email user = email /\ User.password user = password
                        /\ session = sessionOf user).
Proof.
  split.
  - intros Hnone. unfold login.
    destruct (find _ (storedUsers st)) as [user|] eqn:Hfind; [|reflexivity].
    apply find_some in Hfind as [Hin Hmatch].
    unfold credentialsMatch in Hnone. rewrite (Hnone user Hin) in Hmatch. discriminate.
  - intros session Hsession. unfold login in Hsession.
    destruct (find _ (storedUsers st)) as [user|] eqn:Hfind.
    + right. exists user. apply find_some in Hfind as [Hin Hmatch].
      apply andb_true_iff in Hmatch as [He Hp].
      apply String.eqb_eq in He, Hp.
      cbn in Hsession. injection Hsession as <-.
      repeat split; assumption.
    + left. exact Hsession.
Qed.

End RegistrySessions.

(** ** Invariants of the saved lists *)

Section SavedLists.

Import UserService.

Variable P : list SavedLocation.t -> Prop.

Hypothesis P_nil : P [].

Hypothesis P_remove : forall locationId l, P l -> P (withoutId locationId l).

Hypothesis P_add : forall l location now,
  P l -> alreadySaved location l = false ->
  (length l < CONFIG.UI.SAVED_LOCATIONS_LIMIT)%nat ->
  P (l ++ [savedAs location now])%list.

Lemma assignSavedLocations_all (p : User.t -> bool)
  (locations : list SavedLocation.t) (users users' : list User.t) :
  P locations ->
  (forall user, In user users -> P (User.savedLocations user)) ->
  assignSavedLocations p locations users = Some users' ->
  forall user, In user users' -> P (User.savedLocations user).
Proof.
  intros Hloc. revert users'.
  induction users as [|u users IH]; intros users' Hall Hassign; [discriminate|].
  cbn [assignSavedLocations] in Hassign. destruct (p u).
  - injection Hassign as <-. intros user [<-|Hin]; [exact Hloc|].
    apply Hall. now right.
  - destruct (assignSavedLocations p locations users) as [rest|] eqn:Hrest;
      [|discriminate].
    injection Hassign as <-. intros user [<-|Hin].
    + apply Hall. now left.
    + apply (IH rest); [intros x Hx; apply Hall; now right|reflexivity|exact Hin].
Qed.

Lemma everywhere_updateUserSavedLocations (st : State) :
  everywhere P st -> everywhere P (updateUserSavedLocations st).
Proof.
  intros [Hmem Hstored]. unfold updateUserSavedLocations.
  destruct (currentUser st); [|split; assumption].
  destruct (assignSavedLocations _ _ _) as [users|] eqn:Hassign; [|split; assumption].
  split; [exact Hmem|]. rewrite storedUsers_set_users.
  exact (assignSavedLocations_all _ _ _ _ Hmem Hstored Hassign).
Qed.

Lemma everywhere_login (email password : string) (st : State) :
  everywhere P st -> everywhere P (login email password st).
Proof.
  intros [Hmem Hstored]. unfold login.
  destruct (find _ (storedUsers st)) as [user|] eqn:Hfind; [|split; assumption].
  apply find_some in Hfind as [Hin _].
  split; [exact (Hstored user Hin)|].
  rewrite storedUsers_set_session. exact Hstored.
Qed.

Lemma everywhere_new (st : State) :
  everywhere P st -> everywhere P (new (localStorage st)).
Proof.
  intros [_ Hstored].
  assert (Husers : forall user, In user (storedUsers (new (localStorage st))) ->
                                P (User.savedLocations user)).
  { rewrite (storedUsers_new (localStorage st) st eq_refl). exact Hstored. }
  split; [|exact Husers].
  unfold new, loadUserData.
  destruct (getStoredItem "currentUser" _) as [[l|l|l|session]|]; try exact P_nil.
  match goal with
  | |- context [find ?p ?l] => destruct (find p l) as [user|] eqn:Hfind
  end; [|exact P_nil].
  apply find_some in Hfind as [Hin _]. cbn [savedLocations]. apply Hstored.
  erewrite storedUsers_same_storage; [exact Hin|reflexivity].
Qed.

Lemma everywhere_step (st st' : State) :
  step st st' -> everywhere P st -> everywhere P st'.
Proof.
  intros Hstep Hok. destruct Hstep.
  - unfold register. destruct (find _ (storedUsers st)); [exact Hok|].
    apply everywhere_login. destruct Hok as [Hmem Hstored].
    split; [exact Hmem|]. rewrite storedUsers_set_users.
    intros user Hin. apply in_app_or in Hin as [Hin|[<-|[]]];
      [now apply Hstored|exact P_nil].
  - now apply everywhere_login.
  - destruct Hok as [_ Hstored]. unfold logout.
    split; [exact P_nil|]. rewrite storedUsers_remove_session. exact Hstored.
  - unfold saveLocation.
    destruct (currentUser st) as [session|] eqn:Huser; [|exact Hok].
    destruct location as [location|]; [|exact Hok].
    destruct (find _ (savedLocations st)) eqn:Hfind; [exact Hok|].
    destruct (_ <=? _)%nat eqn:Hfull; [exact Hok|].
    apply Nat.leb_gt in Hfull.
    apply everywhere_updateUserSavedLocations.
    destruct Hok as [Hmem Hstored]. split; [|exact Hstored].
    cbn [savedLocations]. apply (P_add _ location now Hmem); [|exact Hfull].
    unfold alreadySaved. rewrite existsb_find, Hfind. reflexivity.
  - unfold removeLocation. destruct (currentUser st); [|exact Hok].
    apply everywhere_updateUserSavedLocations.
    destruct Hok as [Hmem Hstored]. split; [|exact Hstored].
    cbn [savedLocations]. exact (P_remove locationId _ Hmem).
  - now apply everywhere_new.
Qed.

Lemma reachable_everywhere (st : State) : reachable st -> everywhere P st.
Proof.
  induction 1 as [|st st' _ IH Hstep].
  - split; [exact P_nil|]. intros user Hin.
    unfold storedUsers, getStoredItem in Hin.
    rewrite new_localStorage, lookup_empty in Hin. contradiction.
  - exact (everywhere_step st st' Hstep IH).
Qed.

End SavedLists.

Section SavedPlaces.

Import UserService.

Lemma distinctPlaces_filter (p : SavedLocation.t -> bool) (l : list SavedLocation.t) :
  distinctPlaces l -> distinctPlaces (List.filter p l).
Proof.
  induction l as [|a l IH]; [trivial|]. intros [Ha Hl]. cbn [List.filter].
  destruct (p a); [|now apply IH].
  split; [|now apply IH].
  intros b Hb. apply filter_In in Hb as [Hb _]. now apply Ha.
Qed.

Lemma distinctPlaces_snoc (l : list SavedLocation.t) (x : SavedLocation.t) :
  distinctPlaces l -> (forall a, In a l -> samePlace a x = false) ->
  distinctPlaces (l ++ [x])%list.
Proof.
  induction l as [|a l IH]; intros Hl Hx.
  - split; [intros b []|exact I].
  - destruct Hl as [Ha Hl]. split.
    + intros b Hb. apply in_app_or in Hb as [Hb|[<-|[]]]; [now apply Ha|].
      apply Hx. now left.
    + apply IH; [exact Hl|]. intros b Hb. apply Hx. now right.
Qed.

Lemma alreadySaved_samePlace (location : Location) (now : Z) (l : list SavedLocation.t) :
  alreadySaved location l = false <->
  forall a, In a l -> samePlace a (savedAs location now) = false.
Proof.
  unfold alreadySaved, samePlace, savedAs. cbn [SavedLocation.lat SavedLocation.lon].
  split.
  - intros H a Ha. destruct (_ && _) eqn:Hsame; [|reflexivity].
    assert (Hex : existsb
                    (fun loc =>
                       JS.number_strict_eq (SavedLocation.lat loc) (lat location)
                       && JS.number_strict_eq (SavedLocation.lon loc) (lon location))
                    l = true) by (apply existsb_exists; now exists a).
    congruence.
  - intros H. destruct (existsb _ l) eqn:Hex; [|reflexivity].
    apply existsb_exists in Hex as (a & Ha & Hsame). rewrite (H a Ha) in Hsame.
    discriminate.
Qed.

(** In every state the service reaches, no saved list (the one in memory, or
    that of any registered user in the storage) holds two entries whose
    latitude and longitude are both strictly equal; and a logged-in user who
    saves a place whose coordinates an entry already has only gets the message
    that it is already saved. *)
Theorem saved_places_distinct (st : State) :
  reachable st ->
  distinctPlaces (savedLocations st)
  /\ (forall user, In user (storedUsers st) -> distinctPlaces (User.savedLocations user))
  /\ (forall location now saved session,
        currentUser st = Some session ->
        In saved (savedLocations st) ->
        samePlace saved (savedAs location now) = true ->
        saveLocation (Some location) now st = alert "This location is already saved" st).
Proof.
  intros Hreach.
  destruct (reachable_everywhere distinctPlaces) with (st := st) as [Hmem Hstored].
  - exact I.
  - intros locationId l. apply distinctPlaces_filter.
  - intros l location now Hl Hnew _. apply distinctPlaces_snoc; [exact Hl|].
    now apply alreadySaved_samePlace.
  - exact Hreach.
  - split; [exact Hmem|]. split; [exact Hstored|].
    intros location now saved session Huser Hin Hsame.
    unfold saveLocation. rewrite Huser.
    destruct (find _ (savedLocations st)) eqn:Hfind; [reflexivity|].
    assert (Hnot : alreadySaved location (savedLocations st) = false)
      by (unfold alreadySaved; now rewrite existsb_find, Hfind).
    rewrite (alreadySaved_samePlace location now) in Hnot.
    rewrite (Hnot saved Hin) in Hsame. discriminate.
Qed.

End SavedPlaces.

Section Removal.

Import UserService.

Lemma savedLocations_updateUserSavedLocations (st : State) :
  savedLocations (updateUserSavedLocations st) = savedLocations st
  /\ currentUser (updateUserSavedLocations st) = currentUser st
  /\ alerted (updateUserSavedLocations st) = alerted st.
Proof.
  unfold updateUserSavedLocations.
  destruct (currentUser st) eqn:Huser; [|now rewrite Huser].
  destruct (assignSavedLocations _ _ _); cbn; now rewrite ?Huser.
Qed.

Lemma withoutId_fresh (locationId : string) (l : list SavedLocation.t) :
  (forall a, In a l -> SavedLocation.id a <> locationId) -> withoutId locationId l = l.
Proof.
  intros H. unfold withoutId. induction l as [|a l IH]; [reflexivity|].
  cbn [List.filter].
  destruct (String.eqb (SavedLocation.id a) locationId) eqn:He.
  - apply String.eqb_eq in He. exfalso. exact (H a (or_introl eq_refl) He).
  - cbn [negb]. f_equal. apply IH. intros b Hb. apply H. now right.
Qed.

(** Removing by identifier drops from the list in memory every entry that
    carries the identifier and keeps the others in their order, shows no
    message, and does nothing at all when nobody is logged in; so a place
    saved and then removed by the identifier it was given leaves the list as
    it was, provided no earlier entry carries that identifier (an identifier
    is the time of saving in milliseconds; an earlier entry saved in the same
    millisecond goes with it). *)
Theorem removeLocation_after_save (st : State) (session : Object)
  (location : Location) (now : Z) :
  currentUser st = Some session ->
  alreadySaved location (savedLocations st) = false ->
  (length (savedLocations st) < CONFIG.UI.SAVED_LOCATIONS_LIMIT)%nat ->
  let st1 := saveLocation (Some location) now st in
  let st2 := removeLocation (JS.int_to_string now) st1 in
  savedLocations st1 = (savedLocations st ++ [savedAs location now])%list
  /\ alerted st1 = alerted st
  /\ savedLocations st2 = withoutId (JS.int_to_string now) (savedLocations st)
  /\ alerted st2 = alerted st
  /\ ((forall a, In a (savedLocations st) -> SavedLocation.id a <> JS.int_to_string now) ->
      savedLocations st2 = savedLocations st).
Proof.
  intros Huser Hnew Hroom. cbv zeta.
  assert (Hsave : saveLocation (Some location) now st
                  = updateUserSavedLocations
                      {| currentUser := currentUser st;
                         savedLocations := (savedLocations st ++ [savedAs location now])%list;
                         localStorage := localStorage st;
                         alerted := alerted st |}).
  { unfold saveLocation, alreadySaved in *. rewrite Huser.
    rewrite existsb_find in Hnew.
    destruct (find _ (savedLocations st)); [discriminate|].
    apply Nat.leb_gt in Hroom. rewrite Hroom. reflexivity. }
  rewrite Hsave.
  match goal with
  | |- context [updateUserSavedLocations ?s] =>
      destruct (savedLocations_updateUserSavedLocations s) as (Hl1 & Hu1 & Ha1);
      set (st1 := updateUserSavedLocations s) in *
  end.
  cbn [savedLocations currentUser alerted] in Hl1, Hu1, Ha1.
  assert (Hremove : savedLocations (removeLocation (JS.int_to_string now) st1)
                    = withoutId (JS.int_to_string now) (savedLocations st)
                    /\ alerted (removeLocation (JS.int_to_string now) st1) = alerted st).
  { unfold removeLocation. rewrite Hu1, Huser.
    match goal with
    | |- context [updateUserSavedLocations ?s] =>
        destruct (savedLocations_updateUserSavedLocations s) as (Hl2 & _ & Ha2)
    end.
    rewrite Hl2, Ha2. cbn [savedLocations alerted]. rewrite Hl1, Ha1.
    split; [|reflexivity].
    unfold withoutId. rewrite List.filter_app. cbn [List.filter savedAs SavedLocation.id].
    rewrite String.eqb_refl. cbn [negb]. now rewrite app_nil_r. }
  destruct Hremove as [Hl2 Ha2].
  split; [exact Hl1|]. split; [exact Ha1|]. split; [exact Hl2|]. split; [exact Ha2|].
  intros Hfresh. rewrite Hl2. now apply withoutId_fresh.
Qed.

End Removal.

(** ** Memory and storage across a reload *)

Section Reload.

Import UserService.

Lemma find_ext {A} (p q : A -> bool) (l : list A) :
  (forall x, p x = q x) -> find p l = find q l.
Proof.
  intros H. induction l as [|a l IH]; [reflexivity|]. simpl. now rewrite H, IH.
Qed.

Lemma find_app_first {A} (p : A -> bool) (l l' : list A) (x : A) :
  find p l = Some x -> find p (l ++ l')%list = Some x.
Proof.
  induction l as [|a l IH]; [discriminate|]. simpl. destruct (p a); auto.
Qed.

Lemma isCurrent_session (st st' : State) (user : User.t) :
  currentUser st = currentUser st' -> isCurrent st user = isCurrent st' user.
Proof. intros H. unfold isCurrent. now rewrite H. Qed.

Lemma isCurrent_withSavedLocations (st : State) (locations : list SavedLocation.t)
  (user : User.t) :
  isCurrent st (withSavedLocations locations user) = isCurrent st user.
Proof. reflexivity. Qed.

Lemma assignSavedLocations_find (p : User.t -> bool)
  (locations : list SavedLocation.t) (users : list User.t) (user : User.t) :
  (forall l u, p (withSavedLocations l u) = p u) ->
  find p users = Some user ->
  exists users',
    assignSavedLocations p locations users = Some users'
    /\ find p users' = Some (withSavedLocations locations user).
Proof.
  intros Hp. induction users as [|u users IH]; [discriminate|].
  cbn [find assignSavedLocations]. destruct (p u) eqn:Hu.
  - intros [= <-]. eexists. split; [reflexivity|].
    cbn [find]. fold (withSavedLocations locations u). now rewrite Hp, Hu.
  - intros Hfind. destruct (IH Hfind) as (users' & -> & Hfind').
    eexists. split; [reflexivity|]. cbn [find]. now rewrite Hu.
Qed.

Lemma find_by_id (users : list User.t) (user : User.t) :
  List.NoDup (map User.id users) -> In user users ->
  find (fun x => String.eqb (User.id x) (User.id user)) users = Some user.
Proof.
  induction users as [|u users IH]; [intros _ []|].
  cbn [map find]. intros Hnd [->|Hin].
  - now rewrite String.eqb_refl.
  - apply List.NoDup_cons_iff in Hnd as [Hnot Hnd].
    destruct (String.eqb (User.id u) (User.id user)) eqn:He; [|now apply IH].
    apply String.eqb_eq in He. exfalso. apply Hnot. rewrite He.
    apply in_map_iff. now exists user.
Qed.

Lemma getStoredItem_set_users (users : list User.t) (st : State) :
  getStoredItem "currentUser" (setStoredItem "users" (StoredUsers users) st)
  = getStoredItem "currentUser" st.
Proof.
  unfold getStoredItem, setStoredItem. cbn [localStorage].
  now rewrite lookup_insert_ne by (intros H; exact (users_key_ne_session (eq_sym H))).
Qed.

Lemma inSync_alert (m : string) (st : State) : inSync st -> inSync (alert m st).
Proof. trivial. Qed.

(** Writing the list in memory to the record of the logged-in user brings the
    two in agreement, whatever the record held. *)
Lemma inSync_updateUserSavedLocations (st : State) (session : Object) (user : User.t) :
  currentUser st = Some session ->
  getStoredItem "currentUser" st = Some (StoredObject session) ->
  find (isCurrent st) (storedUsers st) = Some user ->
  inSync (updateUserSavedLocations st).
Proof.
  intros Huser Hstored Hfind.
  destruct (assignSavedLocations_find (isCurrent st) (savedLocations st)
              (storedUsers st) user (isCurrent_withSavedLocations st) Hfind)
    as (users' & Hassign & Hfind').
  unfold updateUserSavedLocations. rewrite Huser, Hassign.
  unfold inSync. cbn [setStoredItem currentUser savedLocations]. rewrite Huser.
  split.
  - fold (setStoredItem "users" (StoredUsers users') st).
    now rewrite getStoredItem_set_users.
  - exists (withSavedLocations (savedLocations st) user). split; [|reflexivity].
    fold (setStoredItem "users" (StoredUsers users') st).
    rewrite storedUsers_set_users.
    rewrite <- Hfind'. apply find_ext. intros x. apply isCurrent_session.
    reflexivity.
Qed.

Lemma inSync_login (email password : string) (st : State) :
  List.NoDup (map User.id (storedUsers st)) ->
  inSync st -> inSync (login email password st).
Proof.
  intros Hnd Hsync. unfold login.
  destruct (find _ (storedUsers st)) as [user|] eqn:Hfind; [|exact Hsync].
  apply find_some in Hfind as [Hin _].
  unfold inSync. cbn [setStoredItem currentUser savedLocations localStorage].
  split.
  - unfold getStoredItem, setStoredItem. cbn [localStorage].
    now rewrite lookup_insert_eq.
  - exists user. split; [|reflexivity].
    rewrite storedUsers_set_session.
    rewrite <- (find_by_id (storedUsers st) user Hnd Hin).
    erewrite storedUsers_same_storage by reflexivity.
    apply find_ext. intros x. reflexivity.
Qed.

Lemma inSync_set_users (st : State) (extra : list User.t) :
  inSync st ->
  inSync (setStoredItem "users" (StoredUsers (storedUsers st ++ extra)) st).
Proof.
  unfold inSync. cbn [setStoredItem currentUser savedLocations].
  fold (setStoredItem "users" (StoredUsers (storedUsers st ++ extra)) st).
  rewrite getStoredItem_set_users, storedUsers_set_users.
  destruct (currentUser st) as [session|] eqn:Huser; [|trivial].
  intros (Hstored & user & Hfind & Hsaved). split; [exact Hstored|].
  exists user. split; [|exact Hsaved].
  apply find_app_first. rewrite <- Hfind. apply find_ext. intros x.
  apply isCurrent_session. cbn. now rewrite Huser.
Qed.

(** A reload over a state in agreement gives back the session and the saved
    list; the messages shown belong to the page that is gone. *)
Lemma new_inSync (st : State) :
  inSync st ->
  new (localStorage st)
  = {| currentUser := currentUser st; savedLocations := savedLocations st;
       localStorage := localStorage st; alerted := [] |}.
Proof.
  unfold inSync. intros Hsync. unfold new, loadUserData.
  match goal with
  | |- context [getStoredItem "currentUser" ?s] =>
      change (getStoredItem "currentUser" s) with (getStoredItem "currentUser" st)
  end.
  destruct (currentUser st) as [session|] eqn:Huser.
  - destruct Hsync as (Hstored & user & Hfind & Hsaved). rewrite Hstored.
    match goal with
    | |- context [find ?p ?l] =>
        replace (find p l) with (find (isCurrent st) (storedUsers st))
    end.
    + rewrite Hfind. cbn [localStorage alerted]. now rewrite Hsaved.
    + erewrite (storedUsers_same_storage st) by reflexivity.
      apply find_ext. intros x. apply isCurrent_session. now rewrite Huser.
  - destruct Hsync as (Hstored & Hsaved). rewrite Hstored. cbn. now rewrite Hsaved.
Qed.

Lemma ids_step (st st' : State) :
  step st st' ->
  exists extra,
    map User.id (storedUsers st') = (map User.id (storedUsers st) ++ extra)%list.
Proof.
  intros Hstep. destruct Hstep.
  - unfold register. destruct (find _ (storedUsers st)).
    + exists []. now rewrite app_nil_r.
    + rewrite storedUsers_login, storedUsers_set_users, map_app. eauto.
  - exists []. now rewrite storedUsers_login, app_nil_r.
  - exists []. now rewrite storedUsers_logout, app_nil_r.
  - exists []. rewrite app_nil_r. unfold saveLocation.
    destruct (currentUser st); [|reflexivity].
    destruct location; [|reflexivity].
    destruct (find _ (savedLocations st)); [reflexivity|].
    destruct (_ <=? _)%nat; [reflexivity|].
    match goal with
    | |- context [updateUserSavedLocations ?s] =>
        destruct (storedUsers_updateUserSavedLocations s) as [_ ->]
    end.
    reflexivity.
  - exists []. rewrite app_nil_r. unfold removeLocation.
    destruct (currentUser st); [|reflexivity].
    match goal with
    | |- context [updateUserSavedLocations ?s] =>
        destruct (storedUsers_updateUserSavedLocations s) as [_ ->]
    end.
    reflexivity.
  - exists []. now rewrite (storedUsers_new (localStorage st) st eq_refl), app_nil_r.
Qed.

Lemma inSync_step (st st' : State) :
  step st st' ->
  List.NoDup (map User.id (storedUsers st')) ->
  inSync st -> inSync st'.
Proof.
  intros Hstep Hnd Hsync. destruct Hstep.
  - unfold register in *. destruct (find _ (storedUsers st)); [exact Hsync|].
    rewrite storedUsers_login in Hnd.
    apply inSync_login; [exact Hnd|]. now apply inSync_set_users.
  - rewrite storedUsers_login in Hnd. now apply inSync_login.
  - unfold logout, inSync, removeStoredItem, getStoredItem.
    cbn [currentUser savedLocations localStorage].
    split; [now rewrite lookup_delete_eq|reflexivity].
  - unfold saveLocation.
    destruct (currentUser st) as [session|] eqn:Huser; [|exact Hsync].
    destruct location as [location|]; [|exact Hsync].
    destruct (find _ (savedLocations st)); [exact Hsync|].
    destruct (_ <=? _)%nat; [exact Hsync|].
    unfold inSync in Hsync. rewrite Huser in Hsync.
    destruct Hsync as (Hstored & user & Hfind & _).
    apply (inSync_updateUserSavedLocations _ session user);
      [reflexivity|exact Hstored|].
    rewrite <- Hfind. erewrite (storedUsers_same_storage _ st) by reflexivity.
    apply find_ext. intros x. apply isCurrent_session. cbn. now rewrite Huser.
  - unfold removeLocation.
    destruct (currentUser st) as [session|] eqn:Huser; [|exact Hsync].
    unfold inSync in Hsync. rewrite Huser in Hsync.
    destruct Hsync as (Hstored & user & Hfind & _).
    apply (inSync_updateUserSavedLocations _ session user);
      [reflexivity|exact Hstored|].
    rewrite <- Hfind. erewrite (storedUsers_same_storage _ st) by reflexivity.
    apply find_ext. intros x. apply isCurrent_session. cbn. now rewrite Huser.
  - rewrite (new_inSync st Hsync). exact Hsync.
Qed.

Lemma reachable_inSync (st : State) :
  reachable st -> List.NoDup (map User.id (storedUsers st)) -> inSync st.
Proof.
  induction 1 as [|st st' _ IH Hstep]; intros Hnd.
  - unfold inSync. rewrite new_currentUser, lookup_empty.
    unfold getStoredItem. rewrite new_localStorage, lookup_empty.
    split; reflexivity.
  - apply (inSync_step st st' Hstep Hnd). apply IH.
    destruct (ids_step st st' Hstep) as [extra Hids]. rewrite Hids in Hnd.
    exact (List.NoDup_app_remove_r _ _ Hnd).
Qed.

(** As long as no two registered users carry the same identifier (an
    identifier is the time of registration in milliseconds), every state the
    service reaches survives a reload of the page: the service constructed
    anew over the storage holds the same session and the same saved
    locations, and the storage is as it was. *)
Theorem reload_restores_session (st : State) :
  reachable st ->
  List.NoDup (map User.id (storedUsers st)) ->
  currentUser (reloaded st) = currentUser st
  /\ savedLocations (reloaded st) = savedLocations st
  /\ localStorage (reloaded st) = localStorage st.
Proof.
  intros Hreach Hnd. unfold reloaded.
  rewrite (new_inSync st (reachable_inSync st Hreach Hnd)). repeat split.
Qed.

End Reload.

(** ** The registry at work *)

Lemma adaLoggedOut_reachable : UserService.reachable Cases.adaLoggedOut.
Proof.
  unfold Cases.adaLoggedOut.
  eapply UserService.reachable_step; [|apply UserService.step_logout].
  eapply UserService.reachable_step; [|apply UserService.step_register].
  apply UserService.reachable_new.
Qed.

Lemma graceWithOne_reachable : UserService.reachable Cases.graceWithOne.
Proof.
  unfold Cases.graceWithOne.
  eapply UserService.reachable_step; [|apply UserService.step_saveLocation].
  eapply UserService.reachable_step; [|apply UserService.step_register].
  exact adaLoggedOut_reachable.
Qed.

Lemma graceWithOne_ids :
  List.NoDup (map User.id (UserService.storedUsers Cases.graceWithOne)).
Proof.
  vm_compute. constructor; [intros [H|[]]; discriminate|].
  constructor; [intros []|constructor].
Qed.

Lemma registered_emails_distinct_witness :
  map User.email (UserService.storedUsers Cases.graceWithOne)
  = ["ada@example.org"; "grace@example.org"]
  /\ List.NoDup (map User.email (UserService.storedUsers Cases.graceWithOne))
  /\ UserService.alerted
       (UserService.register "Eve" "ada@example.org" "guess" 1700000001000
          Cases.graceWithOne)
     = ["User with this email already exists"].
Proof.
  destruct (registered_emails_distinct Cases.graceWithOne graceWithOne_reachable)
    as [Hnd Htaken].
  split; [vm_compute; reflexivity|]. split; [exact Hnd|].
  rewrite (Htaken "Eve" "ada@example.org" "guess" 1700000001000%Z).
  - vm_compute. reflexivity.
  - vm_compute. now left.
Defined.

Lemma login_needs_credentials_witness :
  UserService.login "ada@example.org" "guess" Cases.adaLoggedOut
  = UserService.alert "Invalid email or password" Cases.adaLoggedOut
  /\ UserService.currentUser
       (UserService.login "ada@example.org" "guess" Cases.adaLoggedOut) = None.
Proof.
  destruct (login_needs_credentials "ada@example.org" "guess" Cases.adaLoggedOut)
    as [Hwrong _].
  assert (H : UserService.login "ada@example.org" "guess" Cases.adaLoggedOut
              = UserService.alert "Invalid email or password" Cases.adaLoggedOut).
  { apply Hwrong. intros user Hin. vm_compute in Hin.
    destruct Hin as [<-|[]]. vm_compute. reflexivity. }
  split; [exact H|]. rewrite H. vm_compute. reflexivity.
Defined.

Lemma saved_places_distinct_witness :
  length (UserService.savedLocations Cases.graceWithOne) = 1%nat
  /\ distinctPlaces (UserService.savedLocations Cases.graceWithOne)
  /\ UserService.saveLocation (Some (Scenario.place 7)) 1700000002000 Cases.graceWithOne
     = UserService.alert "This location is already saved" Cases.graceWithOne.
Proof.
  destruct (saved_places_distinct Cases.graceWithOne graceWithOne_reachable)
    as (Hmem & _ & Hagain).
  split; [vm_compute; reflexivity|]. split; [exact Hmem|].
  apply (Hagain (Scenario.place 7) 1700000002000%Z
           (savedAs (Scenario.place 7) 1700000000900)
           [("id", "1700000000500"); ("name", "Grace"); ("email", "grace@example.org")]).
  - vm_compute. reflexivity.
  - vm_compute. now left.
  - vm_compute. reflexivity.
Defined.

Lemma removeLocation_after_save_witness :
  let st1 := UserService.saveLocation (Some (Scenario.place 8)) 1700000003000
               Cases.graceWithOne in
  length (UserService.savedLocations st1) = 2%nat
  /\ UserService.savedLocations (UserService.removeLocation "1700000003000" st1)
     = UserService.savedLocations Cases.graceWithOne.
Proof.
  cbv zeta.
  assert (Huser : UserService.currentUser Cases.graceWithOne
                  = Some [("id", "1700000000500"); ("name", "Grace");
                          ("email", "grace@example.org")])
    by (vm_compute; reflexivity).
  assert (Hnew : alreadySaved (Scenario.place 8)
                   (UserService.savedLocations Cases.graceWithOne) = false)
    by (vm_compute; reflexivity).
  assert (Hroom : (length (UserService.savedLocations Cases.graceWithOne)
                   < CONFIG.UI.SAVED_LOCATIONS_LIMIT)%nat)
    by (vm_compute; lia).
  destruct (removeLocation_after_save Cases.graceWithOne _ (Scenario.place 8)
              1700000003000 Huser Hnew Hroom) as (Hsaved & _ & _ & _ & Hback).
  split.
  - rewrite Hsaved, length_app. vm_compute. reflexivity.
  - apply Hback. intros a Ha. vm_compute in Ha. destruct Ha as [<-|[]].
    vm_compute. discriminate.
Defined.

Lemma reload_restores_session_witness :
  UserService.currentUser (reloaded Cases.graceWithOne)
  = Some [("id", "1700000000500"); ("name", "Grace"); ("email", "grace@example.org")]
  /\ UserService.savedLocations (reloaded Cases.graceWithOne)
     = [savedAs (Scenario.place 7) 1700000000900].
Proof.
  destruct (reload_restores_session Cases.graceWithOne graceWithOne_reachable
              graceWithOne_ids) as (Huser & Hsaved & _).
  rewrite Huser, Hsaved. split; vm_compute; reflexivity.
Defined.

(** ** Properties kept by every operation of the scheduler *)

Section Preservation.

Import WeatherApp.

Variable I : World -> Prop.

Hypothesis I_page : forall v w, I w -> I (set_page v w).

Hypothesis I_sent : forall r w, I w -> I (sent r w).

Hypothesis I_weatherData : forall v w, I w -> I (set_weatherData v w).

Hypothesis I_showError : forall m w, I w -> I (showError m w).

Hypothesis I_notify : forall alerts w,
  permission (browser w) = PermissionGranted -> I w -> I (showAlertNotifications alerts w).

Hypothesis I_startAlertChecking : forall w, I w -> I (startAlertChecking w).

Hypothesis I_setupAutoRefresh : forall w, I w -> I (setupAutoRefresh w).

Hypothesis I_locate : forall location w,
  I w -> I (saveLocation (set_currentLocation (Some location) w)).

Hypothesis I_stop : forall h w,
  alertCheckInterval (this w) = Some h ->
  I w -> I (set_alertCheckInterval None (clearTimer h w)).

Hypothesis I_due : forall h t w,
  find (fun t => Pos.eqb (handle t) h) (timers (browser w)) = Some t ->
  I w ->
  I (set_browser
       {| clock := Z.max (clock (browser w)) (due t);
          timers :=
            match period t with
            | None =>
                List.filter (fun t' => negb (Pos.eqb (handle t') h)) (timers (browser w))
            | Some p =>
                (List.filter (fun t' => negb (Pos.eqb (handle t') h)) (timers (browser w))
                 ++ [{| handle := h; callback := callback t;
                        due := (due t + p)%Z; period := Some p |}])%list
            end;
          nextHandle := nextHandle (browser w);
          permission := permission (browser w);
          localStorage := localStorage (browser w);
          notifications := notifications (browser w);
          requests := requests (browser w) |} w).

Hypothesis I_permission : forall answer w,
  I w ->
  I (set_browser
       {| clock := clock (browser w); timers := timers (browser w);
          nextHandle := nextHandle (browser w);
          permission := answer;
          localStorage := localStorage (browser w);
          notifications := notifications (browser w);
          requests := requests (browser w) |} w).

Hypothesis I_wait : forall elapsed w, I w -> I (wait elapsed w).

Lemma kept_showLoading (w : World) : I w -> I (showLoading w).
Proof. apply I_page. Qed.

Lemma kept_hideLoading (w : World) : I w -> I (hideLoading w).
Proof. apply I_page. Qed.

Lemma kept_processAlerts (w : World) : I w -> I (processAlerts w).
Proof.
  intros Hw. unfold processAlerts.
  destruct (weatherData (this w)) as [data|]; [|exact Hw].
  destruct (alerts data); [exact Hw|].
  destruct (permission (browser w)) eqn:Hp; try exact Hw.
  now apply I_notify.
Qed.

Lemma kept_fetchWeatherData (net : Provider) (w : World) :
  I w -> I (fetchWeatherData net w).
Proof.
  intros Hw. unfold fetchWeatherData.
  destruct (currentLocation (this w)) as [location|]; [|exact Hw].
  destruct (WeatherService.getOneCallData service net location true) as [o|e].
  2: now apply kept_hideLoading, I_showError, I_sent, kept_showLoading.
  destruct (WeatherService.getCurrentWeather service net location) as [c|e].
  2: now apply kept_hideLoading, I_showError, I_sent, I_sent, kept_showLoading.
  render_cases.
  2: now apply kept_hideLoading, I_showError, I_weatherData, I_sent, I_sent,
       kept_showLoading.
  apply kept_hideLoading, I_setupAutoRefresh.
  match goal with
  | |- I (match permission (browser ?w') with _ => _ end) => assert (H3 : I w')
  end.
  { now apply kept_processAlerts, I_weatherData, I_sent, I_sent, kept_showLoading. }
  destruct (permission (browser _)); try exact H3.
  now apply I_startAlertChecking.
Qed.

Lemma kept_checkAlerts (net : Provider) (w : World) : I w -> I (checkAlerts net w).
Proof.
  intros Hw. unfold checkAlerts.
  destruct (currentLocation (this w)) as [location|]; [|exact Hw].
  destruct (alertsToggle_checked (page w)); [|exact Hw].
  destruct (WeatherService.getOneCallData service net location true) as [o|e];
    [|now apply I_sent].
  cbn [sent set_browser this].
  destruct (weatherData (this w)) as [data|]; [|now apply (I_sent _ w)].
  apply kept_processAlerts, I_weatherData. now apply (I_sent _ w).
Qed.

Lemma kept_run (net : Provider) (cb : Callback) (w : World) : I w -> I (run net cb w).
Proof.
  intros Hw. destruct cb; cbn [run].
  - now apply kept_checkAlerts.
  - unfold autoRefresh. destruct (currentLocation (this w)); [|exact Hw].
    now apply kept_fetchWeatherData.
  - now apply I_page.
  - exact Hw.
Qed.

Lemma kept_fire (net : Provider) (h : positive) (w : World) : I w -> I (fire net h w).
Proof.
  intros Hw. unfold fire.
  destruct (find _ (timers (browser w))) as [t|] eqn:Hfind; [|exact Hw].
  apply kept_run. now apply I_due.
Qed.

Lemma kept_toggleAlerts (enabled : bool) (w : World) : I w -> I (toggleAlerts enabled w).
Proof.
  intros Hw. unfold toggleAlerts. destruct enabled; [now apply I_startAlertChecking|].
  destruct (alertCheckInterval (this w)) as [h|] eqn:Hh; [|exact Hw].
  now apply I_stop.
Qed.

Lemma kept_alertsToggle_change (enabled : bool) (w : World) :
  I w -> I (alertsToggle_change enabled w).
Proof.
  intros Hw. unfold alertsToggle_change. cbn [set_page this].
  destruct (currentLocation (this w)).
  - now apply kept_toggleAlerts, I_page.
  - now apply I_page.
Qed.

Lemma kept_requestNotificationPermission (answer : Permission) (w : World) :
  I w -> I (requestNotificationPermission answer w).
Proof.
  intros Hw. unfold requestNotificationPermission. cbn [set_browser this].
  destruct answer; try now apply I_permission.
  destruct (currentLocation (this w)).
  - now apply I_startAlertChecking, I_permission.
  - now apply I_permission.
Qed.

Lemma kept_searchLocation (net : Provider) (query : string) (w : World) :
  I w -> I (searchLocation net query w).
Proof.
  intros Hw. unfold searchLocation.
  destruct (WeatherService.searchLocation service net query) as [[|location rest]|e].
  - now apply kept_hideLoading, I_showError, I_sent, kept_showLoading.
  - apply kept_hideLoading, kept_fetchWeatherData, I_locate.
    now apply I_sent, kept_showLoading.
  - now apply kept_hideLoading, I_showError, I_sent, kept_showLoading.
Qed.

Lemma kept_getCurrentLocation (reverse : Request -> Response (list Location))
  (net : Provider) (device : Locating.Geolocation) (w : World) :
  I w -> I (Locating.getCurrentLocation reverse net device w).
Proof.
  intros Hw. unfold Locating.getCurrentLocation. destruct device.
  - now apply I_showError.
  - destruct (Locating.reverseGeocode _ _ _ _).
    + apply kept_hideLoading, kept_fetchWeatherData, I_locate.
      now apply I_sent, kept_showLoading.
    + now apply kept_hideLoading, I_showError, I_sent, kept_showLoading.
  - now apply kept_hideLoading, I_showError, kept_showLoading.
Qed.

Lemma kept_loadSavedLocation (reverse : Request -> Response (list Location))
  (net : Provider) (lat lon : JS.value) (w : World) :
  I w -> I (Locating.loadSavedLocation reverse net lat lon w).
Proof.
  intros Hw. unfold Locating.loadSavedLocation.
  destruct (JS.falsy lat || JS.falsy lon); [exact Hw|].
  destruct (Locating.reverseGeocode _ _ _ _).
  - apply kept_fetchWeatherData, I_locate. now apply I_sent, kept_showLoading.
  - now apply kept_hideLoading, I_showError, I_sent, kept_showLoading.
Qed.

Lemma kept_app_step (w w' : World) : WeatherApp.step w w' -> I w -> I w'.
Proof.
  intros Hstep Hw. destruct Hstep.
  - now apply kept_searchLocation.
  - now apply kept_alertsToggle_change.
  - now apply kept_requestNotificationPermission.
  - now apply kept_fire.
  - now apply I_wait.
Qed.

Lemma kept_step (w w' : World) : Locating.step w w' -> I w -> I w'.
Proof.
  intros Hstep Hw. destruct Hstep.
  - now apply (kept_app_step w).
  - now apply kept_getCurrentLocation.
  - now apply kept_loadSavedLocation.
Qed.

Lemma kept_reachable (w : World) :
  (forall storage p toggle, I (Locating.construct storage p toggle)) ->
  Locating.reachable w -> I w.
Proof.
  intros Hstart. induction 1 as [reverse net storage p toggle|w w' _ IH Hstep].
  - apply kept_loadSavedLocation, Hstart.
  - exact (kept_step w w' Hstep IH).
Qed.

End Preservation.

(** ** Operations that raise nothing and store nothing *)

Section Quiet.

Import WeatherApp.

Lemma quiet_set_page (v : Page) (w : World) : quiet w (set_page v w).
Proof. repeat split. Qed.

Lemma quiet_sent (r : Request) (w : World) : quiet w (sent r w).
Proof. repeat split. Qed.

Lemma quiet_set_weatherData (v : option WeatherData) (w : World) :
  quiet w (set_weatherData v w).
Proof. repeat split. Qed.

Lemma quiet_showError (m : string) (w : World) : quiet w (showError m w).
Proof. repeat split. Qed.

Lemma quiet_clearTimer (h : positive) (w : World) : quiet w (clearTimer h w).
Proof. repeat split. Qed.

Lemma quiet_startAlertChecking (w : World) : quiet w (startAlertChecking w).
Proof.
  unfold startAlertChecking. destruct (alertCheckInterval (this w)); repeat split.
Qed.

Lemma quiet_setupAutoRefresh (w : World) : quiet w (setupAutoRefresh w).
Proof.
  unfold setupAutoRefresh. destruct (refreshTimer (this w)); repeat split.
Qed.

Lemma quiet_stop (h : positive) (w : World) :
  quiet w (set_alertCheckInterval None (clearTimer h w)).
Proof. repeat split. Qed.

Lemma quiet_wait (elapsed : Z) (w : World) : quiet w (wait elapsed w).
Proof. repeat split. Qed.

Lemma shownAlerts_saveLocation (location : Location) (w : World) :
  shownAlerts (saveLocation (set_currentLocation (Some location) w)) = shownAlerts w.
Proof.
  unfold shownAlerts, saveLocation.
  cbn [set_currentLocation this currentLocation set_localStorage set_browser browser
       localStorage].
  now rewrite lookup_insert_ne by discriminate.
Qed.

Lemma localStorage_showAlertNotifications (alerts : list Alert) (w : World) (key : string) :
  key <> "shownAlerts" ->
  localStorage (browser (showAlertNotifications alerts w)) !! key
  = localStorage (browser w) !! key.
Proof.
  intros Hkey. unfold showAlertNotifications.
  destruct alerts as [|a alerts]; [reflexivity|].
  destruct (List.filter _ (a :: alerts)) as [|b new]; [reflexivity|].
  destruct (fold_left notifyOne (b :: new) (w, shownAlerts w)) as [w' shown] eqn:Hfold.
  cbn [set_localStorage set_browser browser localStorage].
  rewrite lookup_insert_ne by congruence.
  destruct (fold_notifyOne (b :: new) w (shownAlerts w)) as (_ & _ & Hstorage).
  rewrite Hfold in Hstorage. cbn [fst] in Hstorage. now rewrite Hstorage.
Qed.



End Quiet.

Section QuietKept.

Import WeatherApp.

Variable I : World -> Prop.

Hypothesis I_quiet : forall w w', quiet w w' -> I w -> I w'.

Hypothesis I_notify : forall alerts w,
  permission (browser w) = PermissionGranted -> I w -> I (showAlertNotifications alerts w).

Hypothesis I_locate : forall location w,
  I w -> I (saveLocation (set_currentLocation (Some location) w)).

Ltac quietly :=
  intros;
  first [ apply I_notify; assumption
        | apply I_locate; assumption
        | eapply I_quiet; [|eassumption];
          first [ apply quiet_set_page | apply quiet_sent | apply quiet_set_weatherData
                | apply quiet_showError | apply quiet_startAlertChecking
                | apply quiet_setupAutoRefresh | apply quiet_stop | apply quiet_wait
                | repeat split ] ].

Lemma calm_fetchWeatherData (net : Provider) (w : World) :
  I w -> I (fetchWeatherData net w).
Proof. apply kept_fetchWeatherData; quietly. Qed.

Lemma calm_fire (net : Provider) (h : positive) (w : World) : I w -> I (fire net h w).
Proof. apply kept_fire; quietly. Qed.

Lemma calm_alertsToggle_change (enabled : bool) (w : World) :
  I w -> I (alertsToggle_change enabled w).
Proof. apply kept_alertsToggle_change; quietly. Qed.

Lemma calm_searchLocation (net : Provider) (query : string) (w : World) :
  I w -> I (searchLocation net query w).
Proof. apply kept_searchLocation; quietly. Qed.

Lemma calm_getCurrentLocation (reverse : Request -> Response (list Location))
  (net : Provider) (device : Locating.Geolocation) (w : World) :
  I w -> I (Locating.getCurrentLocation reverse net device w).
Proof. apply kept_getCurrentLocation; quietly. Qed.

Lemma calm_loadSavedLocation (reverse : Request -> Response (list Location))
  (net : Provider) (lat lon : JS.value) (w : World) :
  I w -> I (Locating.loadSavedLocation reverse net lat lon w).
Proof. apply kept_loadSavedLocation; quietly. Qed.

Hypothesis I_permission : forall answer w,
  I w ->
  I (set_browser
       {| clock := clock (browser w); timers := timers (browser w);
          nextHandle := nextHandle (browser w);
          permission := answer;
          localStorage := localStorage (browser w);
          notifications := notifications (browser w);
          requests := requests (browser w) |} w).

Lemma calm_step (w w' : World) : Locating.step w w' -> I w -> I w'.
Proof. apply kept_step; first [exact I_permission|quietly]. Qed.

Lemma calm_reachable (w : World) :
  (forall storage p toggle, I (Locating.construct storage p toggle)) ->
  Locating.reachable w -> I w.
Proof. apply kept_reachable; first [exact I_permission|quietly]. Qed.

End QuietKept.

(** ** Notifications and the log of shown alerts *)

Section Logged.

Import WeatherApp.

Lemma notifiedSince_quiet (w0 w w' : World) (notified : list Alert) :
  quiet w w' -> notifiedSince w0 w notified -> notifiedSince w0 w' notified.
Proof.
  intros (Hn & _ & Hs & _) [Hnotified Hshown]. unfold notifiedSince, shownAlerts in *.
  now rewrite Hn, Hs.
Qed.

Lemma notifiedSince_refl (w : World) : notifiedSince w w [].
Proof. unfold notifiedSince. cbn [map]. now rewrite !app_nil_r. Qed.

Lemma notifiedSince_showAlertNotifications (w0 w : World) (alerts notified : list Alert) :
  notifiedSince w0 w notified ->
  notifiedSince w0 (showAlertNotifications alerts w) (notified ++ newAlerts alerts w).
Proof.
  intros [Hnotified Hshown].
  destruct (showAlertNotifications_effect alerts w) as [Hn Hs].
  unfold notifiedSince. rewrite Hn, Hs, Hnotified, Hshown, !map_app, !app_assoc.
  split; reflexivity.
Qed.

Lemma notifiedSince_saveLocation (w0 w : World) (location : Location)
  (notified : list Alert) :
  notifiedSince w0 w notified ->
  notifiedSince w0 (saveLocation (set_currentLocation (Some location) w)) notified.
Proof.
  intros [Hnotified Hshown]. unfold notifiedSince.
  rewrite shownAlerts_saveLocation. split; [exact Hnotified|exact Hshown].
Qed.

Lemma notifiedSince_step (w0 w w' : World) :
  Locating.step w w' ->
  (exists notified, notifiedSince w0 w notified) ->
  exists notified, notifiedSince w0 w' notified.
Proof.
  apply (calm_step (fun w => exists notified, notifiedSince w0 w notified)).
  - intros w1 w2 Hquiet [notified H]. exists notified.
    exact (notifiedSince_quiet w0 w1 w2 notified Hquiet H).
  - intros alerts w1 _ [notified H]. eexists.
    exact (notifiedSince_showAlertNotifications w0 w1 alerts notified H).
  - intros location w1 [notified H]. exists notified.
    now apply notifiedSince_saveLocation.
  - intros answer w1 [notified H]. exists notified. exact H.
Qed.

(** Whatever happens to the application from a world [w0] on (searches, the
    position button, the saved list, the alerts toggle, the permission
    prompt, timers firing, time passing), the notifications raised since and
    the identities added to the log of shown alerts since are those of one
    and the same list of alerts, in the same order: a notification is raised
    exactly when its alert's identity is logged. *)
Theorem notifications_logged (w0 w : World) :
  rtc Locating.step w0 w ->
  exists notified,
    notifications (browser w)
    = (notifications (browser w0) ++ map notificationFor notified)%list
    /\ shownAlerts w = (shownAlerts w0 ++ map alertId notified)%list.
Proof.
  intros Hsteps.
  enough (H : exists notified, notifiedSince w0 w notified) by exact H.
  revert w Hsteps.
  apply (rtc_ind_r (fun w => exists notified, notifiedSince w0 w notified)).
  - exists []. apply notifiedSince_refl.
  - intros w1 w2 _ Hstep IH. exact (notifiedSince_step _ _ _ Hstep IH).
Qed.

(** No step of the application raises a notification, or adds to the log of
    shown alerts, unless the notification permission was granted before the
    step; answering the permission prompt raises none either. *)
Theorem no_notification_without_permission (w w' : World) :
  Locating.step w w' ->
  permission (browser w) <> PermissionGranted ->
  notifications (browser w') = notifications (browser w)
  /\ shownAlerts w' = shownAlerts w.
Proof.
  intros Hstep Hdenied.
  set (J := fun w1 : World =>
              permission (browser w1) = permission (browser w)
              /\ notifications (browser w1) = notifications (browser w)
              /\ shownAlerts w1 = shownAlerts w).
  assert (J_quiet : forall w1 w2, quiet w1 w2 -> J w1 -> J w2).
  { intros w1 w2 (Hn & Hp & Hs & _) (Jp & Jn & Js). unfold J, shownAlerts in *.
    now rewrite Hn, Hp, Hs. }
  assert (J_notify : forall alerts w1,
             permission (browser w1) = PermissionGranted ->
             J w1 -> J (showAlertNotifications alerts w1)).
  { intros alerts w1 Hgranted (Jp & _). congruence. }
  assert (J_locate : forall location w1,
             J w1 -> J (saveLocation (set_currentLocation (Some location) w1))).
  { intros location w1 (Jp & Jn & Js). unfold J.
    rewrite shownAlerts_saveLocation. repeat split; assumption. }
  assert (J0 : J w) by (repeat split).
  assert (Hout : forall w1, J w1 ->
                   notifications (browser w1) = notifications (browser w)
                   /\ shownAlerts w1 = shownAlerts w).
  { intros w1 (_ & Hn & Hs). split; assumption. }
  destruct Hstep as [w w' Happ|reverse net device w|reverse net lat lon w].
  - destruct Happ.
    + now apply Hout, (calm_searchLocation J).
    + now apply Hout, (calm_alertsToggle_change J).
    + unfold requestNotificationPermission. cbn [set_browser this].
      destruct answer; [|split; reflexivity..].
      destruct (currentLocation (this w)); [|split; reflexivity].
      match goal with
      | |- context [startAlertChecking ?w1] =>
          destruct (quiet_startAlertChecking w1) as (Hn & _ & Hs & _)
      end.
      unfold shownAlerts. rewrite Hn, Hs. split; reflexivity.
    + now apply Hout, (calm_fire J).
    + split; reflexivity.
  - now apply Hout, (calm_getCurrentLocation J).
  - now apply Hout, (calm_loadSavedLocation J).
Qed.

End Logged.

(** ** The stored location *)

Section StoredLocation.

Import WeatherApp.

Lemma locationStored_quiet (w w' : World) :
  quiet w w' -> locationStored w -> locationStored w'.
Proof.
  intros (_ & _ & Hs & Hl) H location. rewrite Hl, Hs. apply H.
Qed.

Lemma locationStored_showAlertNotifications (alerts : list Alert) (w : World) :
  locationStored w -> locationStored (showAlertNotifications alerts w).
Proof.
  intros H location. rewrite this_showAlertNotifications.
  rewrite localStorage_showAlertNotifications by discriminate. apply H.
Qed.

Lemma locationStored_saveLocation (location : Location) (w : World) :
  locationStored (saveLocation (set_currentLocation (Some location) w)).
Proof.
  intros l. unfold saveLocation.
  cbn [set_currentLocation this currentLocation set_localStorage set_browser browser
       localStorage].
  intros [= <-]. now rewrite lookup_insert_eq.
Qed.

(** In every world the application reaches, the location it holds is the one
    stored under [weatherLocation]: whichever way a location is chosen (a
    search, the device's position, a saved place), it is stored before the
    weather is fetched, and nothing else writes that key. *)
Theorem current_location_is_stored (w : World) (location : Location) :
  Locating.reachable w ->
  currentLocation (this w) = Some location ->
  localStorage (browser w) !! "weatherLocation" = Some (StoredLocation location).
Proof.
  intros Hreach. revert location.
  change (locationStored w). revert Hreach.
  apply (calm_reachable locationStored).
  - exact locationStored_quiet.
  - intros alerts w1 _. apply locationStored_showAlertNotifications.
  - intros location w1 _. apply locationStored_saveLocation.
  - intros answer w1 H. exact H.
  - intros storage p toggle location. discriminate.
Qed.

End StoredLocation.

(** ** The pending timers *)

Section Tidy.

Import WeatherApp.

Lemma handlesDistinct_frame (w w' : World) :
  timers (browser w') = timers (browser w) -> handlesDistinct w -> handlesDistinct w'.
Proof. unfold handlesDistinct. now intros ->. Qed.

Lemma tidy_frame (w w' : World) :
  timers (browser w') = timers (browser w) ->
  nextHandle (browser w') = nextHandle (browser w) ->
  alertCheckInterval (this w') = alertCheckInterval (this w) ->
  refreshTimer (this w') = refreshTimer (this w) ->
  tidy w -> tidy w'.
Proof.
  intros Ht Hn Ha Hr [Hok Hnd]. split.
  - exact (scheduler_ok_frame w w' Ht Hn Ha Hr Hok).
  - exact (handlesDistinct_frame w w' Ht Hnd).
Qed.

Lemma handlesDistinct_addTimer (cb : Callback) (delay : Z) (repeat : bool) (w : World) :
  scheduler_ok w -> handlesDistinct w ->
  handlesDistinct (snd (addTimer cb delay repeat w)).
Proof.
  intros (Ht & _) Hnd. unfold handlesDistinct, addTimer in *.
  cbn [snd set_browser browser timers]. rewrite map_app. cbn [map handle].
  apply List.NoDup_app; [exact Hnd|repeat constructor; intros []|].
  intros h Hin [<-|[]]. apply in_map_iff in Hin as (t & Hh & Hin).
  destruct (Ht t Hin) as (Hlt & _). lia.
Qed.

Lemma handlesDistinct_clearTimer (h : positive) (w : World) :
  handlesDistinct w -> handlesDistinct (clearTimer h w).
Proof.
  unfold handlesDistinct, clearTimer. cbn [set_timers set_browser browser timers].
  apply NoDup_map_filter.
Qed.

Lemma tidy_addTimer (cb : Callback) (delay : Z) (repeat : bool) (w : World) :
  cb <> AlertCheck -> cb <> AutoRefresh ->
  tidy w -> tidy (snd (addTimer cb delay repeat w)).
Proof.
  intros Ha Hr [Hok Hnd]. split.
  - now apply scheduler_ok_addTimer.
  - now apply handlesDistinct_addTimer.
Qed.

Lemma tidy_showError (m : string) (w : World) : tidy w -> tidy (showError m w).
Proof.
  intros Hw. unfold showError, setTimeout.
  apply tidy_addTimer; [discriminate|discriminate|].
  revert Hw. apply tidy_frame; reflexivity.
Qed.

Lemma tidy_notifyOne (acc : World * list string) (a : Alert) :
  tidy (fst acc) -> tidy (fst (notifyOne acc a)).
Proof.
  destruct acc as [w shown]. cbn [fst]. intros Hw. unfold notifyOne.
  cbn [raise]. 
  match goal with
  | |- context [set_browser ?b w] => assert (H1 : tidy (set_browser b w))
        by (revert Hw; apply tidy_frame; reflexivity)
  end.
  destruct (negb _); cbn [fst]; [|exact H1].
  unfold setTimeout. apply tidy_addTimer; [discriminate|discriminate|exact H1].
Qed.

Lemma tidy_fold_notifyOne (l : list Alert) (acc : World * list string) :
  tidy (fst acc) -> tidy (fst (fold_left notifyOne l acc)).
Proof.
  revert acc. induction l as [|a l IH]; intros acc Hw; [exact Hw|].
  cbn [fold_left]. apply IH. now apply tidy_notifyOne.
Qed.

Lemma tidy_showAlertNotifications (alerts : list Alert) (w : World) :
  tidy w -> tidy (showAlertNotifications alerts w).
Proof.
  intros Hw. unfold showAlertNotifications.
  destruct alerts as [|a alerts]; [exact Hw|].
  destruct (List.filter _ (a :: alerts)) as [|b new]; [exact Hw|].
  pose proof (tidy_fold_notifyOne (b :: new) (w, shownAlerts w) Hw) as H.
  destruct (fold_left notifyOne (b :: new) (w, shownAlerts w)) as [w' shown].
  revert H. apply tidy_frame; reflexivity.
Qed.

Lemma handlesDistinct_startAlertChecking (w : World) :
  tidy w -> handlesDistinct (startAlertChecking w).
Proof.
  intros [Hok Hnd]. unfold startAlertChecking, setInterval.
  destruct (alertCheckInterval (this w)) as [h|].
  - apply (handlesDistinct_frame (snd (addTimer AlertCheck CONFIG.ALERTS.CHECK_INTERVAL true
                                         (clearTimer h w)))); [reflexivity|].
    apply handlesDistinct_addTimer;
      [now apply scheduler_ok_clearTimer|now apply handlesDistinct_clearTimer].
  - apply (handlesDistinct_frame (snd (addTimer AlertCheck CONFIG.ALERTS.CHECK_INTERVAL true
                                         w))); [reflexivity|].
    now apply handlesDistinct_addTimer.
Qed.

Lemma handlesDistinct_setupAutoRefresh (w : World) :
  tidy w -> handlesDistinct (setupAutoRefresh w).
Proof.
  intros [Hok Hnd]. unfold setupAutoRefresh, setTimeout.
  destruct (refreshTimer (this w)) as [h|].
  - apply (handlesDistinct_frame
             (snd (addTimer AutoRefresh CONFIG.DEFAULTS.REFRESH_INTERVAL false
                     (clearTimer h w)))); [reflexivity|].
    apply handlesDistinct_addTimer;
      [now apply scheduler_ok_clearTimer|now apply handlesDistinct_clearTimer].
  - apply (handlesDistinct_frame
             (snd (addTimer AutoRefresh CONFIG.DEFAULTS.REFRESH_INTERVAL false w)));
      [reflexivity|].
    now apply handlesDistinct_addTimer.
Qed.

Lemma tidy_stop (h : positive) (w : World) :
  alertCheckInterval (this w) = Some h ->
  tidy w -> tidy (set_alertCheckInterval None (clearTimer h w)).
Proof.
  intros Hh [Hok Hnd]. split.
  - pose proof (scheduler_ok_toggleAlerts false w Hok) as H.
    unfold toggleAlerts in H. now rewrite Hh in H.
  - apply (handlesDistinct_frame (clearTimer h w)); [reflexivity|].
    now apply handlesDistinct_clearTimer.
Qed.

Lemma tidy_due (h : positive) (t : Timer) (w : World) :
  find (fun t => Pos.eqb (handle t) h) (timers (browser w)) = Some t ->
  tidy w ->
  tidy (set_browser
          {| clock := Z.max (clock (browser w)) (due t);
             timers :=
               match period t with
               | None =>
                   List.filter (fun t' => negb (Pos.eqb (handle t') h)) (timers (browser w))
               | Some p =>
                   (List.filter (fun t' => negb (Pos.eqb (handle t') h))
                      (timers (browser w))
                    ++ [{| handle := h; callback := callback t;
                           due := (due t + p)%Z; period := Some p |}])%list
               end;
             nextHandle := nextHandle (browser w);
             permission := permission (browser w);
             localStorage := localStorage (browser w);
             notifications := notifications (browser w);
             requests := requests (browser w) |} w).
Proof.
  intros Hfind [Hok Hnd].
  apply find_some in Hfind as [Hin Hh]. apply Pos.eqb_eq in Hh.
  assert (Hrest : List.NoDup
                    (map handle
                       (List.filter (fun t' => negb (Pos.eqb (handle t') h))
                          (timers (browser w)))))
    by (now apply NoDup_map_filter).
  split.
  - destruct Hok as (Ht & Ha & Hr).
    split; [|split; assumption].
    cbn [set_browser browser this timers nextHandle].
    assert (Hkept : forall t', In t' (List.filter (fun t' => negb (Pos.eqb (handle t') h))
                                        (timers (browser w))) ->
                               timer_ok w t').
    { intros t' Hin'. apply filter_In in Hin' as [Hin' _]. exact (Ht t' Hin'). }
    intros t' Hin'. unfold timer_ok. cbn [set_browser browser this nextHandle].
    destruct (period t) as [p|].
    + apply in_app_or in Hin' as [Hin'|[<-|[]]]; [exact (Hkept t' Hin')|].
      cbn [handle callback]. rewrite <- Hh. exact (Ht t Hin).
    + exact (Hkept t' Hin').
  - unfold handlesDistinct. cbn [set_browser browser timers].
    destruct (period t) as [p|]; [|exact Hrest].
    rewrite map_app. cbn [map handle].
    apply List.NoDup_app; [exact Hrest|repeat constructor; intros []|].
    intros h' Hin' [<-|[]]. apply in_map_iff in Hin' as (t' & Hh' & Hin').
    apply filter_In in Hin' as [_ Hne]. rewrite Hh', Pos.eqb_refl in Hne. discriminate.
Qed.

Lemma tidy_construct (storage : gmap string Stored) (p : Permission) (toggle : bool) :
  tidy (Locating.construct storage p toggle).
Proof.
  split.
  - repeat split; simpl; intros; try contradiction; discriminate.
  - constructor.
Qed.

Lemma reachable_tidy (w : World) : Locating.reachable w -> tidy w.
Proof.
  apply (kept_reachable tidy).
  - intros v w1. apply tidy_frame; reflexivity.
  - intros r w1. apply tidy_frame; reflexivity.
  - intros v w1. apply tidy_frame; reflexivity.
  - exact tidy_showError.
  - intros alerts w1 _. apply tidy_showAlertNotifications.
  - intros w1 Hw. split; [apply scheduler_ok_startAlertChecking, Hw|].
    now apply handlesDistinct_startAlertChecking.
  - intros w1 Hw. split; [apply scheduler_ok_setupAutoRefresh, Hw|].
    now apply handlesDistinct_setupAutoRefresh.
  - intros location w1. apply tidy_frame; reflexivity.
  - exact tidy_stop.
  - exact tidy_due.
  - intros answer w1. apply tidy_frame; reflexivity.
  - intros elapsed w1. apply tidy_frame; reflexivity.
  - exact tidy_construct.
Qed.

Lemma NoDup_map_filter_In_le_1 {A B} (f : A -> B) (p : A -> bool) (l : list A) (i : B) :
  List.NoDup (map f l) -> (forall x, In x l -> p x = true -> f x = i) ->
  (length (List.filter p l) <= 1)%nat.
Proof.
  induction l as [|a l IH]; cbn [map List.filter]; intros Hnd Hp; [simpl; lia|].
  apply List.NoDup_cons_iff in Hnd as [Hnot Hnd].
  assert (IHl : (length (List.filter p l) <= 1)%nat).
  { apply IH; [exact Hnd|]. intros x Hx. apply Hp. now right. }
  destruct (p a) eqn:Ha; [|exact IHl].
  destruct (List.filter p l) as [|b rest] eqn:Hfilter; [simpl; lia|].
  exfalso. apply Hnot.
  assert (Hb : In b (List.filter p l)) by (rewrite Hfilter; now left).
  apply filter_In in Hb as [Hb Hpb].
  rewrite (Hp a (or_introl eq_refl) Ha), <- (Hp b (or_intror Hb) Hpb).
  apply in_map_iff. now exists b.
Qed.

(** Timers do not pile up: in every world the application reaches, at most
    one alert-check interval and at most one refresh timer are pending, no
    two pending timers share a handle, and with no handle held in
    [alertCheckInterval] no alert check is pending at all. *)
Theorem one_timer_of_each_kind (w : World) :
  Locating.reachable w ->
  (length (List.filter isAlertCheck (timers (browser w))) <= 1)%nat
  /\ (length (List.filter isAutoRefresh (timers (browser w))) <= 1)%nat
  /\ List.NoDup (map handle (timers (browser w)))
  /\ (alertCheckInterval (this w) = None ->
      List.filter isAlertCheck (timers (browser w)) = []).
Proof.
  intros Hreach. destruct (reachable_tidy w Hreach) as [(Ht & Ha & Hr) Hnd].
  split; [|split; [|split; [exact Hnd|]]].
  - destruct (alertCheckInterval (this w)) as [h|] eqn:Hh.
    + apply (NoDup_map_filter_In_le_1 handle isAlertCheck _ h Hnd).
      intros t Hin Hp. apply isAlertCheck_true in Hp.
      destruct (Ht t Hin) as (_ & Hac & _). apply Hac in Hp. congruence.
    + apply (NoDup_map_filter_In_le_1 handle isAlertCheck _ 1%positive Hnd).
      intros t Hin Hp. apply isAlertCheck_true in Hp.
      destruct (Ht t Hin) as (_ & Hac & _). apply Hac in Hp. congruence.
  - destruct (refreshTimer (this w)) as [h|] eqn:Hh.
    + apply (NoDup_map_filter_In_le_1 handle isAutoRefresh _ h Hnd).
      intros t Hin Hp. apply isAutoRefresh_true in Hp.
      destruct (Ht t Hin) as (_ & _ & Har). apply Har in Hp. congruence.
    + apply (NoDup_map_filter_In_le_1 handle isAutoRefresh _ 1%positive Hnd).
      intros t Hin Hp. apply isAutoRefresh_true in Hp.
      destruct (Ht t Hin) as (_ & _ & Har). apply Har in Hp. congruence.
  - intros Hnone.
    destruct (List.filter isAlertCheck (timers (browser w))) as [|t rest] eqn:Hfilter;
      [reflexivity|].
    assert (Hin : In t (List.filter isAlertCheck (timers (browser w))))
      by (rewrite Hfilter; now left).
    apply filter_In in Hin as [Hin Hp]. apply isAlertCheck_true in Hp.
    destruct (Ht t Hin) as (_ & Hac & _). apply Hac in Hp. congruence.
Qed.

End Tidy.

(** ** Choosing a location *)

Section Choosing.

Import WeatherApp.

Variable reverse : Request -> Response (list Location).
Variable net : Provider.

Lemma page_fetchWeatherData_loading (w : World) (location : Location) :
  currentLocation (this w) = Some location ->
  loading (page (fetchWeatherData net w)) = false.
Proof.
  intros Hl. unfold fetchWeatherData. rewrite Hl.
  destruct (WeatherService.getOneCallData service net location true); [|reflexivity].
  destruct (WeatherService.getCurrentWeather service net location); [|reflexivity].
  render_cases; reflexivity.
Qed.

Lemma chosen_location (location : Location) (w : World) :
  let w' := fetchWeatherData net (saveLocation (set_currentLocation (Some location) w)) in
  currentLocation (this w') = Some location
  /\ localStorage (browser w') !! "weatherLocation" = Some (StoredLocation location).
Proof.
  cbv zeta.
  assert (Hl : currentLocation
                 (this (fetchWeatherData net
                          (saveLocation (set_currentLocation (Some location) w))))
               = Some location)
    by (now rewrite currentLocation_fetchWeatherData).
  split; [exact Hl|].
  assert (Hstored : locationStored
                      (fetchWeatherData net
                         (saveLocation (set_currentLocation (Some location) w)))).
  { apply (calm_fetchWeatherData locationStored).
    - exact locationStored_quiet.
    - intros alerts w1 _. apply locationStored_showAlertNotifications.
    - apply locationStored_saveLocation. }
  exact (Hstored location Hl).
Qed.

(** The position button.  Without geolocation an error is shown and nothing
    else happens.  When the device reports an error the message is chosen by
    its code (denied, unavailable, timed out, or a general one for any other
    code), and when the coordinates cannot be named the message is that of the
    failure; either way the location held, the snapshot and the storage stay as
    they were and no weather request is sent.  When the coordinates are named,
    the location held and stored has the device's coordinates with the name
    and country of the first candidate.  The loading indicator is off at the
    end in every case where it was switched on. *)
Theorem getCurrentLocation_outcomes (device : Locating.Geolocation) (w : World) :
  let w' := Locating.getCurrentLocation reverse net device w in
  (device = Locating.Unsupported ->
   errorVisible (page w') = true
   /\ errorText (page w') = "Geolocation is not supported by your browser"
   /\ loading (page w') = loading (page w)
   /\ this w' = this w
   /\ localStorage (browser w') = localStorage (browser w)
   /\ requests (browser w') = requests (browser w))
  /\ (forall code, device = Locating.PositionError code ->
        errorVisible (page w') = true
        /\ errorText (page w') = Locating.positionErrorMessage code
        /\ loading (page w') = false
        /\ this w' = this w
        /\ localStorage (browser w') = localStorage (browser w)
        /\ requests (browser w') = requests (browser w))
  /\ (forall latitude longitude failure,
        device = Locating.Position latitude longitude ->
        Locating.reverseGeocode service reverse latitude longitude
        = Locating.Failed failure ->
        errorVisible (page w') = true
        /\ errorText (page w') = Locating.failureMessage failure
        /\ loading (page w') = false
        /\ this w' = this w
        /\ localStorage (browser w') = localStorage (browser w)
        /\ requests (browser w')
           = (requests (browser w)
              ++ [Locating.reverseGeocodingRequest service latitude longitude])%list)
  /\ (forall latitude longitude locationData,
        device = Locating.Position latitude longitude ->
        Locating.reverseGeocode service reverse latitude longitude
        = Locating.Found locationData ->
        let location := {| lat := latitude; lon := longitude;
                           name := name locationData;
                           country := country locationData |} in
        currentLocation (this w') = Some location
        /\ localStorage (browser w') !! "weatherLocation" = Some (StoredLocation location)
        /\ loading (page w') = false).
Proof.
  cbv zeta. split; [|split; [|split]].
  - intros ->. repeat split.
  - intros code ->. repeat split.
  - intros latitude longitude failure -> Hfail.
    unfold Locating.getCurrentLocation. rewrite Hfail. repeat split.
  - intros latitude longitude locationData -> Hfound.
    unfold Locating.getCurrentLocation. rewrite Hfound.
    match goal with
    | |- context [fetchWeatherData net (saveLocation (set_currentLocation (Some ?l) ?w1))] =>
        destruct (chosen_location l w1) as [Hl Hs]
    end.
    split; [exact Hl|]. split; [exact Hs|reflexivity].
Qed.

(** Opening a saved place.  [loadSavedLocation] does nothing at all when
    either coordinate is falsy ([undefined], [null], [NaN] or zero): so the
    call without arguments that ends [initialize] restores nothing, whatever
    location the storage holds, and a saved place on the equator or on the
    prime meridian cannot be opened from the saved list.  With both
    coordinates truthy, a place that cannot be named leaves the location, the
    snapshot and the storage as they were and shows the failure's message;
    one that can be named becomes the location held and stored, under the
    coordinates given and the name and country of the first candidate. *)
Theorem loadSavedLocation_outcomes (la lo : JS.value) (w : World) :
  let w' := Locating.loadSavedLocation reverse net la lo w in
  (JS.falsy la = true \/ JS.falsy lo = true -> w' = w)
  /\ Locating.initialize reverse net w = w
  /\ (forall storage p toggle,
        currentLocation
          (this (Locating.initialize reverse net (Locating.construct storage p toggle)))
        = None
        /\ requests
             (browser (Locating.initialize reverse net (Locating.construct storage p toggle)))
           = [])
  /\ (forall entry,
        JS.number_strict_eq (SavedLocation.lat entry) (JS.Finite 0) = true
        \/ JS.number_strict_eq (SavedLocation.lon entry) (JS.Finite 0) = true ->
        Locating.savedLocation_click reverse net entry w = w)
  /\ (forall failure,
        JS.falsy la = false -> JS.falsy lo = false ->
        Locating.reverseGeocode service reverse (JS.Number la) (JS.Number lo)
        = Locating.Failed failure ->
        errorVisible (page w') = true
        /\ errorText (page w') = Locating.failureMessage failure
        /\ loading (page w') = false
        /\ this w' = this w
        /\ localStorage (browser w') = localStorage (browser w))
  /\ (forall locationData,
        JS.falsy la = false -> JS.falsy lo = false ->
        Locating.reverseGeocode service reverse (JS.Number la) (JS.Number lo)
        = Locating.Found locationData ->
        let location := {| lat := JS.Number la; lon := JS.Number lo;
                           name := name locationData;
                           country := country locationData |} in
        currentLocation (this w') = Some location
        /\ localStorage (browser w') !! "weatherLocation" = Some (StoredLocation location)
        /\ loading (page w') = false).
Proof.
  cbv zeta. split; [|split; [|split; [|split; [|split]]]].
  - intros Hfalsy. unfold Locating.loadSavedLocation.
    destruct Hfalsy as [-> | ->]; [reflexivity|now rewrite orb_true_r].
  - reflexivity.
  - intros storage p toggle. split; reflexivity.
  - intros entry Hzero. unfold Locating.savedLocation_click, Locating.loadSavedLocation.
    destruct (SavedLocation.lat entry) as [p| | |], (SavedLocation.lon entry) as [q| | |];
      cbn [JS.number_strict_eq JS.falsy orb] in *;
      destruct Hzero as [Hz|Hz]; try discriminate; try reflexivity;
      rewrite ?Hz, ?orb_true_r; reflexivity.
  - intros failure Hlat Hlon Hfail. unfold Locating.loadSavedLocation.
    rewrite Hlat, Hlon, Hfail. repeat split.
  - intros locationData Hlat Hlon Hfound. unfold Locating.loadSavedLocation.
    rewrite Hlat, Hlon, Hfound. cbn [orb].
    match goal with
    | |- context [fetchWeatherData net (saveLocation (set_currentLocation (Some ?l) ?w1))] =>
        destruct (chosen_location l w1) as [Hl Hs]
    end.
    split; [exact Hl|]. split; [exact Hs|].
    eapply page_fetchWeatherData_loading. reflexivity.
Qed.

End Choosing.

(** ** A new location whose weather cannot be fetched *)

Section StaleSnapshot.

Import WeatherApp.

Variable net : Provider.

Lemma fetch_failure_effect (w : World) (location : Location) (error : Error) :
  currentLocation (this w) = Some location ->
  fetchFailsWith net location error ->
  let w' := fetchWeatherData net w in
  this w' = this w
  /\ localStorage (browser w') = localStorage (browser w)
  /\ errorVisible (page w') = true
  /\ errorText (page w') = message error
  /\ loading (page w') = false.
Proof.
  intros Hl Hfail. cbv zeta.
  destruct (fetchWeatherData_failure net w location error Hl Hfail) as [sent' ->].
  repeat split.
Qed.

(** A search that finds a place whose weather then cannot be fetched still
    makes that place the location held and stored, shows the error of the
    failed request, and leaves the snapshot as it was: the snapshot of the
    place held before, if there was one, stays in memory under the new
    location. *)
Theorem search_with_failed_fetch (query : string) (first : Location)
  (rest : list Location) (error : Error) (w : World) :
  WeatherService.searchLocation service net query = Return (first :: rest) ->
  fetchFailsWith net first error ->
  let w' := searchLocation net query w in
  currentLocation (this w') = Some first
  /\ localStorage (browser w') !! "weatherLocation" = Some (StoredLocation first)
  /\ weatherData (this w') = weatherData (this w)
  /\ alertCheckInterval (this w') = alertCheckInterval (this w)
  /\ refreshTimer (this w') = refreshTimer (this w)
  /\ errorVisible (page w') = true
  /\ errorText (page w') = message error
  /\ loading (page w') = false.
Proof.
  intros Hsearch Hfail. cbv zeta. unfold searchLocation. rewrite Hsearch.
  replace {| lat := lat first; lon := lon first; name := name first;
             country := country first |} with first by (now destruct first).
  match goal with
  | |- context [fetchWeatherData net ?w1] =>
      destruct (fetch_failure_effect w1 first error eq_refl Hfail)
        as (Hthis & Hstorage & Hvisible & Htext & Hloading);
      set (w2 := fetchWeatherData net w1) in *
  end.
  cbn [hideLoading set_page this page browser loading errorVisible errorText].
  rewrite Hthis, Hstorage, Hvisible, Htext.
  cbn [saveLocation set_currentLocation this currentLocation set_localStorage
       set_browser browser localStorage weatherData alertCheckInterval refreshTimer].
  rewrite lookup_insert_eq. repeat split.
Qed.

End StaleSnapshot.

(** ** Timers after a successful fetch *)

Section Rearmed.

Import WeatherApp.

Variable net : Provider.









Lemma page_fold_notifyOne (l : list Alert) (acc : World * list string) :
  page (fst (fold_left notifyOne l acc)) = page (fst acc).
Proof.
  revert acc. induction l as [|a l IH]; intros acc; [reflexivity|].
  cbn [fold_left]. rewrite IH. destruct acc as [w shown]. unfold notifyOne.
  cbn [raise]. destruct (negb _); reflexivity.
Qed.

Lemma page_processAlerts (w : World) : page (processAlerts w) = page w.
Proof.
  unfold processAlerts.
  destruct (weatherData (this w)) as [data|]; [|reflexivity].
  destruct (alerts data) as [|a l]; [reflexivity|].
  destruct (permission (browser w)); try reflexivity.
  unfold showAlertNotifications.
  destruct (List.filter _ (a :: l)) as [|b new]; [reflexivity|].
  pose proof (page_fold_notifyOne (b :: new) (w, shownAlerts w)) as H.
  destruct (fold_left notifyOne (b :: new) (w, shownAlerts w)) as [w' shown].
  exact H.
Qed.

(** An alert check replaces nothing of the snapshot but its alerts, touches
    neither the page nor the location nor the handles held, sends one
    request at most, and is silent when the request fails: no error is
    shown.  With the alerts toggle unchecked, or with no location, it does
    nothing at all. *)
Theorem checkAlerts_replaces_only_alerts (w : World) :
  let w' := checkAlerts net w in
  page w' = page w
  /\ currentLocation (this w') = currentLocation (this w)
  /\ alertCheckInterval (this w') = alertCheckInterval (this w)
  /\ refreshTimer (this w') = refreshTimer (this w)
  /\ option_map current (weatherData (this w')) = option_map current (weatherData (this w))
  /\ option_map forecast (weatherData (this w'))
     = option_map forecast (weatherData (this w))
  /\ option_map hourly (weatherData (this w')) = option_map hourly (weatherData (this w))
  /\ (alertsToggle_checked (page w) = false \/ currentLocation (this w) = None -> w' = w)
  /\ (forall location error,
        currentLocation (this w) = Some location ->
        alertsToggle_checked (page w) = true ->
        WeatherService.getOneCallData service net location true = Throw error ->
        w' = sent (WeatherService.oneCallRequest service location true) w)
  /\ (forall location oneCallData data,
        currentLocation (this w) = Some location ->
        alertsToggle_checked (page w) = true ->
        WeatherService.getOneCallData service net location true = Return oneCallData ->
        weatherData (this w) = Some data ->
        option_map alerts (weatherData (this w'))
        = Some (default [] (OneCall.alerts oneCallData))).
Proof.
  cbv zeta. unfold checkAlerts.
  destruct (currentLocation (this w)) as [location|] eqn:Hl.
  2: { repeat match goal with |- _ /\ _ => split end;
         intros; try reflexivity; congruence. }
  destruct (alertsToggle_checked (page w)) eqn:Htoggle.
  2: { repeat match goal with |- _ /\ _ => split end;
         intros; try reflexivity; congruence. }
  destruct (WeatherService.getOneCallData service net location true) as [o|e] eqn:Hone.
  2: { repeat match goal with |- _ /\ _ => split end;
         intros; try reflexivity; try exact Hl; try congruence.
       destruct H; congruence. }
  cbn [sent set_browser this].
  destruct (weatherData (this w)) as [data|] eqn:Hdata.
  2: { repeat match goal with |- _ /\ _ => split end;
         intros; try reflexivity; try exact Hl; try exact Hdata;
         try (cbn [sent set_browser this]; now rewrite Hdata); try congruence.
       destruct H; congruence. }
  match goal with
  | |- context [processAlerts ?w1] =>
      pose proof (this_processAlerts w1) as Hthis;
      pose proof (page_processAlerts w1) as Hpage;
      set (w2 := processAlerts w1) in *
  end.
  cbn [set_weatherData page] in Hpage. cbn [sent set_browser page] in Hpage.
  rewrite Hthis, Hpage.
  cbn [set_weatherData this currentLocation alertCheckInterval refreshTimer weatherData
       option_map current forecast hourly alerts].
  repeat match goal with |- _ /\ _ => split end;
    intros; try reflexivity; try exact Hl; try congruence.
  destruct H; congruence.
Qed.

End Rearmed.

(** ** The scheduler at work *)

Lemma app_step_reachable (w : WeatherApp.World) :
  WeatherApp.reachable w -> Locating.reachable w.
Proof.
  induction 1 as [p toggle|w w' _ IH Hstep].
  - exact (Locating.reachable_initialize Cases.nowhere Scenario.unavailable ∅ p toggle).
  - exact (Locating.reachable_step w w' IH (Locating.step_app w w' Hstep)).
Qed.

Lemma ready_reachable_anyhow : Locating.reachable Scenario.ready.
Proof. exact (app_step_reachable _ ready_reachable). Qed.

Lemma warned_reachable : Locating.reachable Cases.warned.
Proof.
  eapply Locating.reachable_step; [exact ready_reachable_anyhow|].
  apply Locating.step_app. unfold Cases.warned. apply WeatherApp.step_fire.
Qed.

Lemma notifications_logged_witness :
  (exists notified,
     WeatherApp.notifications (WeatherApp.browser Cases.warned)
     = (WeatherApp.notifications (WeatherApp.browser Scenario.ready)
        ++ map WeatherApp.notificationFor notified)%list
     /\ WeatherApp.shownAlerts Cases.warned
        = (WeatherApp.shownAlerts Scenario.ready ++ map WeatherApp.alertId notified)%list)
  /\ WeatherApp.shownAlerts Cases.warned = ["Flood Warning-1000-2000"]
  /\ length (WeatherApp.notifications (WeatherApp.browser Cases.warned)) = 1%nat.
Proof.
  split; [|split; vm_compute; reflexivity].
  apply (notifications_logged Scenario.ready Cases.warned).
  apply rtc_once. apply Locating.step_app. unfold Cases.warned.
  apply WeatherApp.step_fire.
Defined.

Lemma no_notification_without_permission_witness :
  let w := WeatherApp.new WeatherApp.PermissionDenied true in
  let w' := WeatherApp.searchLocation
              (Scenario.answering [Scenario.floodWarning] [Scenario.london]) "London" w in
  option_map WeatherApp.alerts (WeatherApp.weatherData (WeatherApp.this w'))
  = Some [Scenario.floodWarning]
  /\ WeatherApp.notifications (WeatherApp.browser w') = []
  /\ WeatherApp.shownAlerts w' = [].
Proof.
  cbv zeta. split; [vm_compute; reflexivity|].
  apply (no_notification_without_permission
           (WeatherApp.new WeatherApp.PermissionDenied true)).
  - apply Locating.step_app, WeatherApp.step_search.
  - discriminate.
Defined.

Lemma current_location_is_stored_witness :
  WeatherApp.localStorage (WeatherApp.browser Scenario.ready) !! "weatherLocation"
  = Some (StoredLocation Scenario.london).
Proof.
  apply (current_location_is_stored Scenario.ready Scenario.london).
  - exact ready_reachable_anyhow.
  - vm_compute. reflexivity.
Defined.

Lemma one_timer_of_each_kind_witness :
  length (List.filter isAlertCheck (WeatherApp.timers (WeatherApp.browser Cases.warned)))
  = 1%nat
  /\ length (List.filter isAutoRefresh (WeatherApp.timers (WeatherApp.browser Cases.warned)))
     = 1%nat
  /\ List.NoDup (map WeatherApp.handle (WeatherApp.timers (WeatherApp.browser Cases.warned))).
Proof.
  destruct (one_timer_of_each_kind Cases.warned warned_reachable) as (_ & _ & Hnd & _).
  split; [vm_compute; reflexivity|]. split; [vm_compute; reflexivity|exact Hnd].
Defined.

Lemma getCurrentLocation_outcomes_witness :
  let denied := Locating.getCurrentLocation Cases.nowhere Scenario.unavailable
                  (Locating.PositionError Locating.PERMISSION_DENIED) Scenario.ready in
  let unnamed := Locating.getCurrentLocation Cases.nowhere Scenario.unavailable
                   (Locating.Position (JS.Finite 1) (JS.Finite 2)) Scenario.ready in
  WeatherApp.errorText (WeatherApp.page denied)
  = "Location access was denied. Please enable location services."
  /\ WeatherApp.this denied = WeatherApp.this Scenario.ready
  /\ WeatherApp.errorText (WeatherApp.page unnamed)
     = "No location data found for these coordinates"
  /\ WeatherApp.this unnamed = WeatherApp.this Scenario.ready.
Proof.
  cbv zeta.
  destruct (getCurrentLocation_outcomes Cases.nowhere Scenario.unavailable
              (Locating.PositionError Locating.PERMISSION_DENIED) Scenario.ready)
    as (_ & Herror & _).
  destruct (Herror _ eq_refl) as (_ & Htext & _ & Hthis & _).
  destruct (getCurrentLocation_outcomes Cases.nowhere Scenario.unavailable
              (Locating.Position (JS.Finite 1) (JS.Finite 2)) Scenario.ready)
    as (_ & _ & Hfailed & _).
  destruct (Hfailed _ _ Locating.NoLocationData eq_refl eq_refl)
    as (_ & Htext' & _ & Hthis' & _).
  split; [exact Htext|]. split; [exact Hthis|]. split; [exact Htext'|exact Hthis'].
Defined.

Lemma loadSavedLocation_outcomes_witness :
  Locating.savedLocation_click (Cases.naming Scenario.london)
    (Scenario.answering [] []) Cases.quito Scenario.ready
  = Scenario.ready
  /\ WeatherApp.currentLocation
       (WeatherApp.this
          (Locating.loadSavedLocation (Cases.naming Scenario.londonOntario)
             (Scenario.answering [] [])
             (JS.Num (JS.Finite (43 # 1))) (JS.Num (JS.Finite (-81 # 1))) Scenario.ready))
     = Some {| lat := JS.Finite (43 # 1); lon := JS.Finite (-81 # 1);
               name := "London"; country := "CA" |}.
Proof.
  split.
  - destruct (loadSavedLocation_outcomes (Cases.naming Scenario.london)
                (Scenario.answering [] []) JS.Undefined JS.Undefined Scenario.ready)
      as (_ & _ & _ & Hclick & _).
    apply Hclick. left. reflexivity.
  - destruct (loadSavedLocation_outcomes (Cases.naming Scenario.londonOntario)
                (Scenario.answering [] [])
                (JS.Num (JS.Finite (43 # 1))) (JS.Num (JS.Finite (-81 # 1))) Scenario.ready)
      as (_ & _ & _ & _ & _ & Hfound).
    destruct (Hfound Scenario.londonOntario eq_refl eq_refl eq_refl) as (Hl & _).
    exact Hl.
Defined.

Lemma search_with_failed_fetch_witness :
  let w' := WeatherApp.searchLocation (Cases.geocodingOnly [Scenario.londonOntario])
              "London" Scenario.ready in
  WeatherApp.currentLocation (WeatherApp.this Scenario.ready) = Some Scenario.london
  /\ WeatherApp.currentLocation (WeatherApp.this w') = Some Scenario.londonOntario
  /\ WeatherApp.weatherData (WeatherApp.this w')
     = WeatherApp.weatherData (WeatherApp.this Scenario.ready)
  /\ WeatherApp.weatherData (WeatherApp.this Scenario.ready) <> None
  /\ WeatherApp.errorText (WeatherApp.page w')
     = "OneCall API error: 503 Service Unavailable".
Proof.
  cbv zeta.
  assert (Hsearch : WeatherService.searchLocation WeatherApp.service
                      (Cases.geocodingOnly [Scenario.londonOntario]) "London"
                    = Return [Scenario.londonOntario])
    by (vm_compute; reflexivity).
  assert (Hfail : fetchFailsWith (Cases.geocodingOnly [Scenario.londonOntario])
                    Scenario.londonOntario
                    (ApiError "OneCall" 503 "Service Unavailable"))
    by (left; vm_compute; reflexivity).
  destruct (search_with_failed_fetch (Cases.geocodingOnly [Scenario.londonOntario])
              "London" Scenario.londonOntario [] _ Scenario.ready Hsearch Hfail)
    as (Hl & _ & Hdata & _ & _ & _ & Htext & _).
  split; [vm_compute; reflexivity|]. split; [exact Hl|]. split; [exact Hdata|].
  split; [vm_compute; discriminate|].
  rewrite Htext. vm_compute. reflexivity.
Defined.


Lemma checkAlerts_replaces_only_alerts_witness :
  let w' := WeatherApp.checkAlerts Scenario.unavailable Scenario.ready in
  WeatherApp.page w' = WeatherApp.page Scenario.ready
  /\ w' = WeatherApp.sent
            (WeatherService.oneCallRequest WeatherApp.service Scenario.london true)
            Scenario.ready.
Proof.
  cbv zeta.
  destruct (checkAlerts_replaces_only_alerts Scenario.unavailable Scenario.ready)
    as (Hpage & _ & _ & _ & _ & _ & _ & _ & Hsilent & _).
  split; [exact Hpage|].
  apply (Hsilent Scenario.london (ApiError "OneCall" 503 "Service Unavailable"));
    vm_compute; reflexivity.
Defined.

(** ** The theme *)

Section Themes.

Import Theme.

Lemma loaded_S (storedTheme : option string) (n : nat) :
  loaded storedTheme (S n) = themeToggle_click (loaded storedTheme n).
Proof. reflexivity. Qed.

Lemma construct_nonempty (storedTheme : option string) :
  currentTheme (construct storedTheme) <> "".
Proof.
  unfold construct. cbn [currentTheme].
  destruct storedTheme as [theme|]; [|discriminate].
  destruct (String.eqb theme "") eqn:He; [discriminate|].
  now apply String.eqb_neq in He.
Qed.

Lemma loaded_invariant (storedTheme : option string) (n : nat) :
  let st := loaded storedTheme n in
  stored st = Some (currentTheme st)
  /\ attribute st = Some (currentTheme st)
  /\ currentTheme st <> "".
Proof.
  cbv zeta. induction n as [|n IH].
  - repeat split. cbn. apply construct_nonempty.
  - rewrite loaded_S. unfold themeToggle_click, applyTheme.
    cbn [stored attribute currentTheme]. repeat split.
    destruct (String.eqb _ "light"); discriminate.
Qed.

(** The theme across toggles and reloads.  Once the page is loaded, the
    theme in memory is always the one stored under [theme] and set on the
    document, and it is never empty, so a reload restores it exactly.  A
    stored theme that is empty or missing loads as light.  Every click of
    the toggle yields light or dark: light becomes dark, and anything else
    (dark, or a stored value that is neither) becomes light; from light or
    dark two clicks give the theme back. *)
Theorem theme_persists (storedTheme : option string) (n : nat) :
  let st := loaded storedTheme n in
  stored st = Some (currentTheme st)
  /\ attribute st = Some (currentTheme st)
  /\ initialize (construct (stored st)) = st
  /\ ((storedTheme = None \/ storedTheme = Some "") ->
      currentTheme (loaded storedTheme 0) = "light")
  /\ In (currentTheme (themeToggle_click st)) ["light"; "dark"]
  /\ (currentTheme (themeToggle_click st) = "dark" <-> currentTheme st = "light")
  /\ (In (currentTheme st) ["light"; "dark"] ->
      themeToggle_click (themeToggle_click st) = st).
Proof.
  cbv zeta. destruct (loaded_invariant storedTheme n) as (Hstored & Hattribute & Hne).
  generalize dependent (loaded storedTheme n). intros st Hstored Hattribute Hne.
  split; [exact Hstored|]. split; [exact Hattribute|]. split; [|split; [|split; [|split]]].
  - rewrite Hstored. unfold initialize, construct, applyTheme. cbn [currentTheme].
    apply String.eqb_neq in Hne. rewrite Hne.
    destruct st as [theme s a]. cbn in *. congruence.
  - intros [-> | ->]; reflexivity.
  - unfold themeToggle_click, applyTheme. cbn [currentTheme].
    destruct (String.eqb _ "light"); [right; now left|now left].
  - unfold themeToggle_click, applyTheme. cbn [currentTheme].
    destruct (String.eqb (currentTheme st) "light") eqn:He.
    + apply String.eqb_eq in He. tauto.
    + apply String.eqb_neq in He. split; [discriminate|contradiction].
  - intros Hin. destruct st as [theme s a].
    cbn [stored attribute currentTheme] in *. subst s a.
    destruct Hin as [<-|[<-|[]]]; reflexivity.
Qed.

End Themes.

Lemma theme_persists_witness :
  Theme.currentTheme (Theme.loaded (Some "solarized") 0) = "solarized"
  /\ Theme.currentTheme (Theme.loaded (Some "solarized") 1) = "light"
  /\ Theme.initialize (Theme.construct (Theme.stored (Theme.loaded (Some "solarized") 3)))
     = Theme.loaded (Some "solarized") 3
  /\ Theme.themeToggle_click (Theme.themeToggle_click (Theme.loaded None 4))
     = Theme.loaded None 4.
Proof.
  split; [reflexivity|]. split; [reflexivity|].
  destruct (theme_persists (Some "solarized") 3) as (_ & _ & Hreload & _).
  destruct (theme_persists None 4) as (_ & _ & _ & _ & _ & _ & Htwice).
  split; [exact Hreload|]. apply Htwice. vm_compute. now left.
Defined.

(** ** What the panels show *)

Section Panels.

Import WeatherApp Display.

Variable exponential : Q -> string.

Lemma slice_length {A} (start end_ : nat) (l : list A) :
  length (slice start end_ l) = Nat.min (end_ - start) (length l - start).
Proof. unfold slice. now rewrite length_firstn, length_skipn. Qed.

Lemma slice_nth_error {A} (start end_ k : nat) (l : list A) :
  (k < end_ - start)%nat ->
  nth_error (slice start end_ l) k = nth_error l (start + k).
Proof.
  intros Hk. unfold slice. rewrite nth_error_firstn.
  destruct (Nat.ltb_spec k (end_ - start)) as [_|Hge]; [|lia].
  apply nth_error_skipn.
Qed.

Lemma slice_nth_error_beyond {A} (start end_ k : nat) (l : list A) :
  (end_ - start <= k)%nat -> nth_error (slice start end_ l) k = None.
Proof.
  intros Hk. apply nth_error_None. rewrite slice_length. lia.
Qed.

(** The forecast panel skips the first daily entry (today) and shows the
    next five at most, in order: item [k] is entry [k + 1].  It throws when
    the provider left the daily part out.  The hourly panel shows the first
    24 hourly entries at most, in order.  Each item carries the temperatures
    as [formatTemperature] renders them. *)
Theorem forecast_panels (data : WeatherData) :
  (updateForecast exponential data = None <-> forecast data = None)
  /\ (forall days,
        forecast data = Some days ->
        exists items,
          updateForecast exponential data = Some items
          /\ length items = Nat.min 5 (length days - 1)
          /\ (forall k, (k < 5)%nat ->
                nth_error items k
                = option_map (dayTemperatures exponential) (nth_error days (S k)))
          /\ (forall k, (5 <= k)%nat -> nth_error items k = None))
  /\ length (updateHourlyForecast exponential data) = Nat.min 24 (length (hourly data))
  /\ (forall k, (k < 24)%nat ->
        nth_error (updateHourlyForecast exponential data) k
        = option_map
            (fun hour => WeatherService.formatTemperature exponential service (hour_temp hour))
            (nth_error (hourly data) k)).
Proof.
  split; [|split; [|split]].
  - unfold updateForecast. destruct (forecast data); split; congruence.
  - intros days Hdays. unfold updateForecast. rewrite Hdays.
    eexists. split; [reflexivity|]. split; [|split].
    + rewrite length_map, slice_length. reflexivity.
    + intros k Hk. rewrite nth_error_map, slice_nth_error; [reflexivity|].
      unfold CONFIG.UI.MAX_FORECAST_DAYS. lia.
    + intros k Hk. rewrite nth_error_map, slice_nth_error_beyond; [reflexivity|].
      unfold CONFIG.UI.MAX_FORECAST_DAYS. lia.
  - unfold updateHourlyForecast. rewrite length_map, slice_length.
    unfold CONFIG.UI.MAX_HOURLY_FORECAST. f_equal; lia.
  - intros k Hk. unfold updateHourlyForecast.
    rewrite nth_error_map, slice_nth_error; [reflexivity|].
    unfold CONFIG.UI.MAX_HOURLY_FORECAST. lia.
Qed.

Lemma length_append (s u : string) :
  String.length (s ++ u)%string = (String.length s + String.length u)%nat.
Proof.
  induction s as [|c s IH]; [reflexivity|].
  change (S (String.length (s ++ u)%string) = S (String.length s + String.length u)).
  now f_equal.
Qed.

Lemma append_longer (s u t : string) :
  (String.length t < String.length u)%nat -> (s ++ u)%string <> t.
Proof.
  intros Hlen Heq. apply (f_equal String.length) in Heq.
  rewrite length_append in Heq. lia.
Qed.

Lemma append_K (s : string) : (s ++ "K")%string <> "--".
Proof.
  destruct s as [|c [|c' [|c'' s]]]; cbn; discriminate.
Qed.

(** The placeholder of the formatters.  [formatTemperature] and
    [formatWindSpeed] render [--] for exactly the values [undefined], [null]
    and [NaN]; every other number, zero and the infinities included, is
    rendered with its unit: mph under imperial units and m/s under any other
    setting for the wind speed. *)
Theorem placeholder_only_without_value (this : WeatherService.t) (v : JS.value) :
  (WeatherService.formatTemperature exponential this v = "--"
   <-> v = JS.Undefined \/ v = JS.Null \/ v = JS.Num JS.NaN)
  /\ (formatWindSpeed exponential this v = "--"
      <-> v = JS.Undefined \/ v = JS.Null \/ v = JS.Num JS.NaN)
  /\ (JS.falsy v && JS.strict_ne_zero v = false ->
      formatWindSpeed exponential this v
      = (JS.toFixed exponential (JS.Number v) 1
         ++ if String.eqb (WeatherService.units this) "imperial" then " mph" else " m/s")%string).
Proof.
  assert (Hguard : JS.falsy v && JS.strict_ne_zero v = true
                   <-> v = JS.Undefined \/ v = JS.Null \/ v = JS.Num JS.NaN).
  { destruct v as [| |[q| | |]]; cbn.
    - tauto.
    - tauto.
    - destruct (Qeq_bool q 0); cbn; split; try discriminate;
        intros [H|[H|H]]; discriminate.
    - tauto.
    - split; [discriminate|]. intros [H|[H|H]]; discriminate.
    - split; [discriminate|]. intros [H|[H|H]]; discriminate. }
  split; [|split].
  - rewrite <- Hguard. unfold WeatherService.formatTemperature.
    destruct (JS.falsy v && JS.strict_ne_zero v); [tauto|].
    split; [|discriminate]. intros H. exfalso. revert H.
    destruct (String.eqb _ "imperial"); [apply append_longer; cbn; lia|].
    destruct (String.eqb _ "metric"); [apply append_longer; cbn; lia|].
    apply append_K.
  - rewrite <- Hguard. unfold formatWindSpeed.
    destruct (JS.falsy v && JS.strict_ne_zero v); [tauto|].
    split; [|discriminate]. intros H. exfalso. revert H.
    destruct (String.eqb _ "imperial"); apply append_longer; cbn; lia.
  - intros Hvalue. unfold formatWindSpeed. rewrite Hvalue.
    destruct (String.eqb _ "imperial"); reflexivity.
Qed.

End Panels.

(** ** The radar of the maps service *)

Section RadarFrames.

Import MapsService.

Lemma frameOf_url (forecast : bool) (frame : FrameData) : url (frameOf forecast frame) = None.
Proof. reflexivity. Qed.

Lemma framesOf_url (r : Radar) (frame : RadarFrame) :
  In frame (framesOf r) -> url frame = None.
Proof.
  unfold framesOf. intros Hin.
  apply in_app_or in Hin as [Hin|Hin]; apply in_map_iff in Hin as (f & <- & _);
    reflexivity.
Qed.

Lemma radarFrames_startRadarAnimation (st : State) :
  radarFrames (startRadarAnimation st) = radarFrames st
  /\ currentRadarFrame (startRadarAnimation st) = currentRadarFrame st.
Proof.
  unfold startRadarAnimation, showRadarFrame.
  destruct (nth_error (radarFrames st) 0); split; reflexivity.
Qed.

Lemma processRadarFrames_frames (data : RadarData) (r : Radar) (st st' : State) :
  radar data = Some r ->
  processRadarFrames data st = Some st' ->
  radarFrames st' = framesOf r /\ currentRadarFrame st' = Some 0%nat.
Proof.
  intros Hr. unfold processRadarFrames, framesOf. rewrite Hr.
  destruct (past r) as [pastFrames|]; [|discriminate].
  destruct (nowcast r) as [nowcastFrames|]; cbn [from_option id]; intros [= <-].
  - generalize (map (frameOf false) pastFrames ++ map (frameOf true) nowcastFrames)%list.
    intros frames. destruct frames as [|frame frames]; [split; reflexivity|].
    destruct (radarFrames_startRadarAnimation
                (set_radar (frame :: frames) (Some 0%nat) st)) as [-> ->].
    split; reflexivity.
  - cbn [map]. generalize (map (frameOf false) pastFrames ++ [])%list.
    intros frames. destruct frames as [|frame frames]; [split; reflexivity|].
    destruct (radarFrames_startRadarAnimation
                (set_radar (frame :: frames) (Some 0%nat) st)) as [-> ->].
    split; reflexivity.
Qed.

(** The frames [processRadarFrames] builds carry no image: it asks
    [getRadarImageUrl] for the URL with the path of the frame where the feed
    is expected and the time of the frame where the index is expected, and
    for a string the answer is always [null].  So every entry of
    [radarFrames], one per past and forecast frame of the feed and in that
    order, has a [null] URL, although the feed itself, asked with the index
    of a past frame, gives the URL of its image. *)
Theorem radar_frames_have_no_url (data : RadarData) (r : Radar) (st st' : State) :
  radar data = Some r ->
  processRadarFrames data st = Some st' ->
  (forall frame, In frame (radarFrames st') -> url frame = None)
  /\ map timestamp (radarFrames st')
     = (map time (default [] (past r)) ++ map time (default [] (nowcast r)))%list
  /\ (forall s frameIndex zoom x y, getRadarImageUrl (Text s) frameIndex zoom x y = None)
  /\ (forall pastFrames i frame,
        past r = Some pastFrames ->
        nth_error pastFrames i = Some frame ->
        getRadarImageUrl (Feed data) (Z.of_nat i) 5 0 0
        = Some (host data ++ path frame ++ "/5/0/0/0/0_0.png")).
Proof.
  intros Hr Hprocess.
  destruct (processRadarFrames_frames data r st st' Hr Hprocess) as [Hframes _].
  split; [|split; [|split]].
  - intros frame. rewrite Hframes. apply framesOf_url.
  - rewrite Hframes. unfold framesOf. rewrite map_app, !map_map. reflexivity.
  - reflexivity.
  - intros pastFrames i frame Hpast Hnth. unfold getRadarImageUrl.
    rewrite Hr, Hpast.
    destruct (Z.leb_spec 0 (Z.of_nat i)) as [_|Hneg]; [|lia].
    rewrite Nat2Z.id, Hnth. reflexivity.
Qed.

End RadarFrames.

Section RadarAnimation.

Import MapsService.

Variable data : RadarData.
Variable r : Radar.
Variable pastFrames : list FrameData.

Hypothesis data_radar : radar data = Some r.
Hypothesis radar_past : past r = Some pastFrames.
Hypothesis some_frame : framesOf r <> [].

Lemma frames_built :
  (map (frameOf false) pastFrames
   ++ match nowcast r with
      | Some nowcastFrames => map (frameOf true) nowcastFrames
      | None => []
      end)%list
  = framesOf r.
Proof. unfold framesOf. rewrite radar_past. destruct (nowcast r); reflexivity. Qed.

Lemma loadRadarData_loaded (st : State) :
  loadRadarData (Ok data) st
  = set_mapLoading false
      (startRadarAnimation (set_radar (framesOf r) (Some 0%nat) (set_mapLoading true st))).
Proof.
  unfold loadRadarData, processRadarFrames. cbn [WeatherService.receive].
  rewrite data_radar, radar_past, frames_built.
  destruct (framesOf r) as [|frame frames] eqn:Hframes; [contradiction|reflexivity].
Qed.

(** What a load that succeeds leaves. *)
Lemma loadRadarData_effect (st : State) :
  let st' := loadRadarData (Ok data) st in
  timers st' = (timers st ++ [{| handle := nextHandle st; callback := Animate |}])%list
  /\ nextHandle st' = Pos.succ (nextHandle st)
  /\ radarAnimationInterval st' = Some (nextHandle st)
  /\ radarFrames st' = framesOf r
  /\ currentRadarFrame st' = Some 0%nat
  /\ currentLayer st' = Some (ImageOverlay None)
  /\ currentMapType st' = currentMapType st
  /\ markers st' = markers st
  /\ radarTimestamp st' = option_map timestamp (nth_error (framesOf r) 0).
Proof.
  cbv zeta. rewrite loadRadarData_loaded.
  unfold startRadarAnimation, showRadarFrame.
  cbn [set_mapLoading set_radar radarFrames].
  destruct (framesOf r) as [|frame frames] eqn:Hframes; [contradiction|].
  cbn [nth_error]. 
  assert (Hurl : url frame = None).
  { apply (framesOf_url r). rewrite Hframes. now left. }
  rewrite Hurl. repeat split.
Qed.

Lemma animate_effect (st : State) (i : nat) :
  radarFrames st = framesOf r ->
  currentRadarFrame st = Some i ->
  let next := ((i + 1) mod length (framesOf r))%nat in
  currentRadarFrame (animate st) = Some next
  /\ radarFrames (animate st) = framesOf r
  /\ currentLayer (animate st) = Some (ImageOverlay None)
  /\ radarTimestamp (animate st) = option_map timestamp (nth_error (framesOf r) next)
  /\ timers (animate st) = timers st
  /\ nextHandle (animate st) = nextHandle st
  /\ radarAnimationInterval (animate st) = radarAnimationInterval st
  /\ currentMapType (animate st) = currentMapType st
  /\ markers (animate st) = markers st.
Proof.
  intros Hframes Hcurrent. cbv zeta. unfold animate. rewrite Hcurrent, Hframes.
  destruct (framesOf r) as [|frame frames] eqn:Hlist; [contradiction|].
  cbn [length]. unfold showRadarFrame. cbn [set_radar radarFrames].
  assert (Hlt : ((i + 1) mod S (length frames) < length (frame :: frames))%nat)
    by (apply Nat.mod_upper_bound; discriminate).
  destruct (nth_error (frame :: frames) ((i + 1) mod S (length frames))) as [f|] eqn:Hnth.
  - assert (Hurl : url f = None).
    { apply (framesOf_url r). rewrite Hlist. exact (nth_error_In _ _ Hnth). }
    rewrite Hurl. repeat split.
  - apply nth_error_None in Hnth. lia.
Qed.

(** The animation cycles.  After a load that found frames, the step of the
    animation whose handle is held, run [k] times, leaves the frame index at
    [k] modulo the number of frames and shows the timestamp of that frame: the
    frames are visited in order, forever; and the overlay it puts on the map
    each time has no image. *)
Theorem radar_animation_cycles (st : State) (appLocation : option Location)
  (feed : Response RadarData) (k : nat) :
  orderly st ->
  let loaded := loadRadarData (Ok data) st in
  let stepped := Nat.iter k (fire (nextHandle st) appLocation feed) loaded in
  let n := length (framesOf r) in
  radarAnimationInterval loaded = Some (nextHandle st)
  /\ currentRadarFrame stepped = Some (k mod n)%nat
  /\ radarTimestamp stepped = option_map timestamp (nth_error (framesOf r) (k mod n)%nat)
  /\ currentLayer stepped = Some (ImageOverlay None)
  /\ radarFrames stepped = framesOf r
  /\ timers stepped = timers loaded.
Proof.
  intros (Hnd & Hlt & _). cbv zeta.
  destruct (loadRadarData_effect st)
    as (Htimers & _ & Hheld & Hframes & Hcurrent & Hlayer & _ & _ & Hshown).
  split; [exact Hheld|].
  assert (Hn : length (framesOf r) <> 0%nat).
  { destruct (framesOf r); [contradiction|discriminate]. }
  assert (Hfind : find (fun t => Pos.eqb (handle t) (nextHandle st))
                    (timers (loadRadarData (Ok data) st))
                  = Some {| handle := nextHandle st; callback := Animate |}).
  { rewrite Htimers. apply find_app_last.
    - intros t Hin. apply Pos.eqb_neq. specialize (Hlt t Hin). lia.
    - cbn. apply Pos.eqb_refl. }
  induction k as [|k IH].
  - cbn [Nat.iter nat_rect]. rewrite Nat.Div0.mod_0_l.
    rewrite Hcurrent, Hlayer, Hframes, Hshown. repeat split.
  - destruct IH as (IHcurrent & _ & _ & IHframes & IHtimers).
    rewrite Nat.iter_succ.
    set (before := Nat.iter k (fire (nextHandle st) appLocation feed)
                     (loadRadarData (Ok data) st)) in *.
    assert (Hfire : fire (nextHandle st) appLocation feed before = animate before).
    { unfold fire. now rewrite IHtimers, Hfind. }
    rewrite Hfire.
    destruct (animate_effect _ _ IHframes IHcurrent)
      as (Hc & Hf & Hl & Hts & Ht & _).
    assert (Hmod : ((k mod length (framesOf r) + 1) mod length (framesOf r))%nat
                   = (S k mod length (framesOf r))%nat).
    { rewrite Nat.Div0.add_mod_idemp_l. f_equal. lia. }
    rewrite Hmod in Hc, Hts.
    split; [exact Hc|]. split; [exact Hts|]. split; [exact Hl|]. split; [exact Hf|].
    now rewrite Ht.
Qed.

End RadarAnimation.

Section RadarLeak.

Import MapsService.

Variable data : RadarData.
Variable r : Radar.
Variable pastFrames : list FrameData.
Variable location : Location.

Hypothesis data_radar : radar data = Some r.
Hypothesis radar_past : past r = Some pastFrames.
Hypothesis some_frame : framesOf r <> [].

Let isAnimate (t : Timer) : bool :=
  match callback t with Animate => true | Fallback => false end.

Lemma animations_without (h : positive) (l : list Timer) :
  List.NoDup (map handle l) ->
  In {| handle := h; callback := Animate |} l ->
  S (length (List.filter isAnimate
               (List.filter (fun t => negb (Pos.eqb (handle t) h)) l)))
  = length (List.filter isAnimate l).
Proof.
  induction l as [|t l IH]; [intros _ []|].
  cbn [map]. intros Hnd Hin. apply List.NoDup_cons_iff in Hnd as [Hnot Hnd].
  destruct Hin as [->|Hin].
  - cbn [List.filter handle]. rewrite Pos.eqb_refl. cbn [negb isAnimate callback length].
    f_equal. f_equal.
    clear IH Hnd. induction l as [|t l IH]; [reflexivity|].
    cbn [List.filter].
    destruct (Pos.eqb (handle t) h) eqn:He.
    + apply Pos.eqb_eq in He. exfalso. apply Hnot. left. exact He.
    + cbn [negb List.filter]. rewrite IH; [reflexivity|].
      intros Hin. apply Hnot. now right.
  - cbn [List.filter].
    destruct (Pos.eqb (handle t) h) eqn:He.
    + apply Pos.eqb_eq in He. exfalso. apply Hnot. rewrite He.
      apply in_map_iff. now exists {| handle := h; callback := Animate |}.
    + cbn [negb List.filter]. destruct (isAnimate t); cbn [length];
        rewrite <- (IH Hnd Hin); reflexivity.
Qed.

Lemma orderly_clear (h : positive) (st : State) :
  orderly st -> orderly (set_radarAnimationInterval None (clearTimer h st)).
Proof.
  intros (Hnd & Hlt & _). split; [|split].
  - cbn. now apply NoDup_map_filter.
  - cbn. intros t Hin. apply filter_In in Hin as [Hin _]. now apply Hlt.
  - discriminate.
Qed.

Lemma orderly_frame (st st' : State) :
  timers st' = timers st -> nextHandle st' = nextHandle st ->
  radarAnimationInterval st' = radarAnimationInterval st ->
  orderly st -> orderly st'.
Proof. unfold orderly. now intros -> -> ->. Qed.

Lemma orderly_loadRadarData (st : State) :
  orderly st -> orderly (loadRadarData (Ok data) st).
Proof.
  intros (Hnd & Hlt & _).
  destruct (loadRadarData_effect data r pastFrames data_radar radar_past some_frame st)
    as (Htimers & Hnext & Hheld & _).
  unfold orderly. rewrite Htimers, Hnext, Hheld. split; [|split].
  - rewrite map_app. cbn [map handle].
    apply List.NoDup_app; [exact Hnd|repeat constructor; intros []|].
    intros h Hin [<-|[]]. apply in_map_iff in Hin as (t & Hh & Hin).
    specialize (Hlt t Hin). lia.
  - intros t Hin. apply in_app_or in Hin as [Hin|[<-|[]]].
    + specialize (Hlt t Hin). lia.
    + cbn. lia.
  - intros h [= <-]. apply in_or_app. right. now left.
Qed.

(** The state before the switch of [setMapType]: the type stored, the layer
    removed, the animation held cleared. *)
Lemma setMapType_radar (st : State) (feed : Response RadarData) :
  setMapType "radar" (Some location) feed st
  = loadRadarData feed
      (match radarAnimationInterval st with
       | Some h =>
           set_radarAnimationInterval None
             (clearTimer h
                (match currentLayer st with
                 | Some _ => set_currentLayer None (set_currentMapType "radar" st)
                 | None => set_currentMapType "radar" st
                 end))
       | None =>
           match currentLayer st with
           | Some _ => set_currentLayer None (set_currentMapType "radar" st)
           | None => set_currentMapType "radar" st
           end
       end).
Proof.
  unfold setMapType, set_currentMapType. cbn [currentLayer].
  destruct (currentLayer st); cbn [set_currentLayer radarAnimationInterval];
    destruct (radarAnimationInterval st); reflexivity.
Qed.

(** The layer set anew in radar mode, and the second load that [updateMap]
    starts, with an animation held before. *)
Lemma reload_radar (st : State) (h : positive) :
  orderly st -> currentMapType st = "radar" -> radarAnimationInterval st = Some h ->
  let st1 := setMapType (currentMapType st) (Some location) (Ok data) st in
  let st' := if String.eqb (currentMapType st1) "radar"
             then loadRadarData (Ok data) st1 else st1 in
  orderly st'
  /\ currentMapType st' = "radar"
  /\ (exists h', radarAnimationInterval st' = Some h')
  /\ length (animations st') = S (length (animations st))
  /\ markers st' = markers st
  /\ radarFrames st' = framesOf r
  /\ (exists i, currentRadarFrame st' = Some i).
Proof.
  intros Hok Htype Hheld. cbv zeta. rewrite Htype, setMapType_radar, Hheld.
  match goal with
  | |- context [loadRadarData (Ok data) (set_radarAnimationInterval None (clearTimer h ?s))] =>
      set (cleared := set_radarAnimationInterval None (clearTimer h s));
      assert (Hcleared : orderly cleared);
      [|assert (Hcount : S (length (animations cleared)) = length (animations st));
        [|assert (Hmarkers : markers cleared = markers st);
          [|assert (Hmode : currentMapType cleared = "radar")]]]
  end.
  - apply orderly_clear. revert Hok.
    apply orderly_frame; destruct (currentLayer st); reflexivity.
  - destruct Hok as (Hnd & _ & Hin). unfold animations, cleared.
    cbn [set_radarAnimationInterval clearTimer timers].
    replace (timers _) with (timers st) by (destruct (currentLayer st); reflexivity).
    exact (animations_without h (timers st) Hnd (Hin h Hheld)).
  - unfold cleared. destruct (currentLayer st); reflexivity.
  - unfold cleared. destruct (currentLayer st); reflexivity.
  - destruct (loadRadarData_effect data r pastFrames data_radar radar_past some_frame cleared)
      as (Ht1 & Hn1 & Hh1 & Hf1 & Hc1 & Hl1 & Hm1 & Hk1 & _).
    pose proof (orderly_loadRadarData cleared Hcleared) as Hok1.
    set (first := loadRadarData (Ok data) cleared) in *.
    rewrite Hm1, Hmode. cbn [String.eqb Ascii.eqb Bool.eqb].
    destruct (loadRadarData_effect data r pastFrames data_radar radar_past some_frame first)
      as (Ht2 & Hn2 & Hh2 & Hf2 & Hc2 & Hl2 & Hm2 & Hk2 & _).
    pose proof (orderly_loadRadarData first Hok1) as Hok2.
    set (second := loadRadarData (Ok data) first) in *.
    split; [exact Hok2|]. split; [now rewrite Hm2, Hm1|].
    split; [eexists; exact Hh2|]. split; [|split; [|split; [exact Hf2|eexists; exact Hc2]]].
    + unfold animations in *. rewrite Ht2, Ht1, !filter_app_single.
      cbn [callback]. rewrite !length_app. cbn [length]. lia.
    + now rewrite Hk2, Hk1.
Qed.

(** One update of the map in radar mode, with an animation held before. *)
Lemma updateMap_radar (st : State) (h : positive) :
  orderly st -> currentMapType st = "radar" -> radarAnimationInterval st = Some h ->
  let st' := updateMap (Some location) (Some location) (Ok data) (Ok data) st in
  orderly st'
  /\ currentMapType st' = "radar"
  /\ (exists h', radarAnimationInterval st' = Some h')
  /\ length (animations st') = S (length (animations st))
  /\ length (markers st') = S (length (markers st))
  /\ radarFrames st' = framesOf r
  /\ (exists i, currentRadarFrame st' = Some i).
Proof.
  intros Hok Htype Hheld. cbv zeta. unfold updateMap.
  match goal with
  | |- context [setMapType _ _ _ ?s] => set (marked := s)
  end.
  assert (Hok1 : orderly marked) by (revert Hok; apply orderly_frame; reflexivity).
  destruct (reload_radar marked h Hok1 Htype Hheld)
    as (Hok' & Hmode' & Hheld' & Hcount' & Hmarkers' & Hframes' & Hcurrent').
  cbv zeta in Hok', Hmode', Hheld', Hcount', Hmarkers', Hframes', Hcurrent'.
  split; [exact Hok'|]. split; [exact Hmode'|]. split; [exact Hheld'|].
  split; [exact Hcount'|]. split; [|split; [exact Hframes'|exact Hcurrent']].
  rewrite Hmarkers'. unfold marked. cbn [markers]. rewrite length_app. cbn. lia.
Qed.

(** The radar animations pile up.  With a location chosen and a radar feed
    that has frames, choosing the radar map starts one animation; every
    update of the map after that (one follows each successful fetch) clears
    the animation held and starts two, of which it holds the second: after
    [n] updates [n + 1] animations are pending and [n] markers are on the
    map.  Choosing another map type then clears only the animation held; each
    of the [n] left, when it next steps, replaces the layer chosen by a radar
    overlay without an image. *)
Theorem radar_animations_pile_up (n : nat) :
  let radarMode := setMapType "radar" (Some location) (Ok data) new in
  let updated := Nat.iter n (updateMap (Some location) (Some location) (Ok data) (Ok data))
                   radarMode in
  let switched := setMapType "temperature" (Some location) (Ok data) updated in
  length (animations updated) = S n
  /\ (exists h, radarAnimationInterval updated = Some h)
  /\ length (markers updated) = n
  /\ length (animations switched) = n
  /\ radarAnimationInterval switched = None
  /\ currentLayer switched
     = Some (TileLayer (getMapTileUrl WeatherApp.service "temp_new" 5 0 0))
  /\ (forall t, In t (animations switched) ->
        currentLayer (fire (handle t) (Some location) (Ok data) switched)
        = Some (ImageOverlay None)).
Proof.
  cbv zeta.
  set (radarMode := setMapType "radar" (Some location) (Ok data) new).
  assert (Hstart : orderly radarMode
                   /\ currentMapType radarMode = "radar"
                   /\ (exists h, radarAnimationInterval radarMode = Some h)
                   /\ length (animations radarMode) = 1%nat
                   /\ length (markers radarMode) = 0%nat
                   /\ radarFrames radarMode = framesOf r
                   /\ (exists i, currentRadarFrame radarMode = Some i)).
  { unfold radarMode. rewrite setMapType_radar. cbn [new radarAnimationInterval currentLayer].
    match goal with
    | |- context [loadRadarData (Ok data) ?s] =>
        destruct (loadRadarData_effect data r pastFrames data_radar radar_past some_frame s)
          as (Ht & Hn & Hh & Hf & Hc & Hl & Hm & Hk & _);
        assert (Hok : orderly (loadRadarData (Ok data) s))
          by (apply orderly_loadRadarData;
              split; [constructor|split; [intros t []|discriminate]])
    end.
    split; [exact Hok|]. split; [now rewrite Hm|]. split; [eexists; exact Hh|].
    split; [|split; [now rewrite Hk|split; [exact Hf|eexists; exact Hc]]].
    unfold animations. rewrite Ht. reflexivity. }
  assert (Hupdated :
            let updated := Nat.iter n
                             (updateMap (Some location) (Some location) (Ok data) (Ok data))
                             radarMode in
            orderly updated
            /\ currentMapType updated = "radar"
            /\ (exists h, radarAnimationInterval updated = Some h)
            /\ length (animations updated) = S n
            /\ length (markers updated) = n
            /\ radarFrames updated = framesOf r
            /\ (exists i, currentRadarFrame updated = Some i)).
  { cbv zeta. induction n as [|m IH]; [exact Hstart|].
    rewrite Nat.iter_succ.
    destruct IH as (Hok & Hmode & [h Hheld] & Hcount & Hmarkers & _).
    destruct (updateMap_radar _ h Hok Hmode Hheld)
      as (Hok' & Hmode' & Hheld' & Hcount' & Hmarkers' & Hframes' & Hcurrent').
    split; [exact Hok'|]. split; [exact Hmode'|]. split; [exact Hheld'|].
    split; [now rewrite Hcount', Hcount|]. split; [now rewrite Hmarkers', Hmarkers|].
    split; [exact Hframes'|exact Hcurrent']. }
  cbv zeta in Hupdated.
  set (updated := Nat.iter n (updateMap (Some location) (Some location) (Ok data) (Ok data))
                    radarMode) in *.
  destruct Hupdated as (Hok & Hmode & [h Hheld] & Hcount & Hmarkers & Hframes & [i Hcurrent]).
  split; [exact Hcount|]. split; [eexists; exact Hheld|]. split; [exact Hmarkers|].
  assert (Hswitched : setMapType "temperature" (Some location) (Ok data) updated
                      = addTileLayer "temp_new"
                          (set_radarAnimationInterval None
                             (clearTimer h
                                (match currentLayer updated with
                                 | Some _ =>
                                     set_currentLayer None
                                       (set_currentMapType "temperature" updated)
                                 | None => set_currentMapType "temperature" updated
                                 end)))).
  { unfold setMapType, set_currentMapType. cbn [currentLayer].
    destruct (currentLayer updated); cbn [set_currentLayer radarAnimationInterval];
      rewrite Hheld; reflexivity. }
  rewrite Hswitched.
  assert (Htimers : timers (match currentLayer updated with
                            | Some _ =>
                                set_currentLayer None
                                  (set_currentMapType "temperature" updated)
                            | None => set_currentMapType "temperature" updated
                            end) = timers updated)
    by (destruct (currentLayer updated); reflexivity).
  split; [|split; [reflexivity|split; [reflexivity|]]].
  - destruct Hok as (Hnd & _ & Hin). unfold animations.
    cbn [addTileLayer set_currentLayer set_radarAnimationInterval clearTimer timers].
    rewrite Htimers.
    pose proof (animations_without h (timers updated) Hnd (Hin h Hheld)) as Hless.
    unfold animations in Hcount. fold isAnimate in Hcount. fold isAnimate. lia.
  - intros t Hin. unfold animations in Hin. apply filter_In in Hin as [Hin Hanimate].
    unfold fire.
    destruct (find _ _) as [t'|] eqn:Hfind.
    2: { pose proof (find_none _ _ Hfind t Hin) as Hno. cbv beta in Hno.
         rewrite Pos.eqb_refl in Hno. discriminate. }
    assert (Hsame : t' = t).
    { apply find_some in Hfind as [Hin' He]. apply Pos.eqb_eq in He.
      cbn [addTileLayer set_currentLayer set_radarAnimationInterval clearTimer timers]
        in Hin, Hin'.
      rewrite Htimers in Hin, Hin'.
      apply filter_In in Hin as [Hin _]. apply filter_In in Hin' as [Hin' _].
      destruct Hok as (Hnd & _).
      clear -Hnd Hin Hin' He. induction (timers updated) as [|x l IH]; [contradiction|].
      cbn [map] in Hnd. apply List.NoDup_cons_iff in Hnd as [Hnot Hnd].
      destruct Hin as [->|Hin], Hin' as [->|Hin'].
      - reflexivity.
      - exfalso. apply Hnot. rewrite <- He. apply in_map_iff. now exists t'.
      - exfalso. apply Hnot. rewrite He. apply in_map_iff. now exists t.
      - now apply IH. }
    subst t'. destruct (callback t) eqn:Hcb; [|discriminate].
    match goal with
    | |- currentLayer (animate ?s) = _ =>
        destruct (animate_effect r some_frame s i)
          as (_ & _ & Hlayer & _)
    end.
    + cbn. destruct (currentLayer updated); exact Hframes.
    + cbn. destruct (currentLayer updated); exact Hcurrent.
    + exact Hlayer.
Qed.

End RadarLeak.

(** ** The radar at work *)

Lemma radar_frames_have_no_url_witness :
  map MapsService.url
    (MapsService.radarFrames
       (MapsService.loadRadarData (Ok Cases.feed) MapsService.new))
  = [None; None; None]
  /\ MapsService.getRadarImageUrl (MapsService.Feed Cases.feed) 1 5 0 0
     = Some "https://tilecache.rainviewer.com/v2/radar/1700000600/5/0/0/0/0_0.png".
Proof.
  assert (Hprocess : MapsService.processRadarFrames Cases.feed
                       (MapsService.set_mapLoading true MapsService.new)
                     = Some (MapsService.startRadarAnimation
                               (MapsService.set_radar (MapsService.framesOf Cases.sweep)
                                  (Some 0%nat)
                                  (MapsService.set_mapLoading true MapsService.new))))
    by reflexivity.
  destruct (radar_frames_have_no_url Cases.feed Cases.sweep _ _ eq_refl Hprocess)
    as (Hnone & _ & _ & Hurl).
  split.
  - vm_compute. reflexivity.
  - exact (Hurl _ 1%nat _ eq_refl eq_refl).
Defined.

Lemma new_orderly : MapsService.orderly MapsService.new.
Proof. split; [constructor|split; [intros t []|discriminate]]. Qed.

Lemma radar_animation_cycles_witness :
  let stepped := Nat.iter 4 (MapsService.fire 1 (Some Scenario.london) (Ok Cases.feed))
                   (MapsService.loadRadarData (Ok Cases.feed) MapsService.new) in
  MapsService.currentRadarFrame stepped = Some 1%nat
  /\ MapsService.radarTimestamp stepped = Some 1700000600%Z
  /\ MapsService.currentLayer stepped = Some (MapsService.ImageOverlay None).
Proof.
  cbv zeta.
  assert (Hframes : MapsService.framesOf Cases.sweep <> []) by discriminate.
  destruct (radar_animation_cycles Cases.feed Cases.sweep _ eq_refl eq_refl Hframes
              MapsService.new (Some Scenario.london) (Ok Cases.feed) 4 new_orderly)
    as (_ & Hcurrent & Hshown & Hlayer & _).
  split; [exact Hcurrent|]. split; [exact Hshown|exact Hlayer].
Defined.

Lemma radar_animations_pile_up_witness :
  let radarMode := MapsService.setMapType "radar" (Some Scenario.london) (Ok Cases.feed)
                     MapsService.new in
  let updated := Nat.iter 3
                   (MapsService.updateMap (Some Scenario.london) (Some Scenario.london)
                      (Ok Cases.feed) (Ok Cases.feed))
                   radarMode in
  length (MapsService.animations updated) = 4%nat
  /\ length (MapsService.animations
               (MapsService.setMapType "temperature" (Some Scenario.london) (Ok Cases.feed)
                  updated)) = 3%nat.
Proof.
  cbv zeta.
  assert (Hframes : MapsService.framesOf Cases.sweep <> []) by discriminate.
  destruct (radar_animations_pile_up Cases.feed Cases.sweep _ Scenario.london
              eq_refl eq_refl Hframes 3)
    as (Hcount & _ & _ & Hleft & _).
  split; [exact Hcount|exact Hleft].
Defined.

Lemma forecast_panels_witness :
  let week := map (fun n => {| day_dt := n; day_max := JS.Num (JS.Finite (inject_Z n));
                               day_min := JS.Null |}) [10; 11; 12; 13; 14; 15; 16; 17]%Z in
  let data := {| WeatherApp.current := Scenario.conditions;
                 WeatherApp.forecast := Some week;
                 WeatherApp.hourly := Scenario.hours;
                 WeatherApp.alerts := [] |} in
  Display.updateForecast (fun _ => "") data
  = Some ["11.0°C / --"; "12.0°C / --"; "13.0°C / --"; "14.0°C / --"; "15.0°C / --"]
  /\ length (Display.updateHourlyForecast (fun _ => "") data) = 1%nat.
Proof.
  cbv zeta. split; [vm_compute; reflexivity|].
  match goal with
  | |- length (Display.updateHourlyForecast _ ?d) = _ =>
      destruct (forecast_panels (fun _ => "") d) as (_ & _ & Hlen & _)
  end.
  rewrite Hlen. reflexivity.
Defined.

(** ** Logging in again *)

Section Relogin.

Import UserService.

Lemma reachable_emails (st : State) :
  reachable st -> List.NoDup (map User.email (storedUsers st)).
Proof.
  induction 1 as [|st st' _ IH Hstep].
  - unfold storedUsers, getStoredItem. rewrite new_localStorage, lookup_empty. constructor.
  - exact (emails_step st st' Hstep IH).
Qed.

Lemma assignSavedLocations_sessions (p : User.t -> bool)
  (locations : list SavedLocation.t) (users users' : list User.t) :
  assignSavedLocations p locations users = Some users' ->
  map sessionOf users' = map sessionOf users.
Proof.
  revert users'. induction users as [|u users IH]; intros users' H; [discriminate|].
  cbn [assignSavedLocations] in H. destruct (p u).
  - injection H as <-. reflexivity.
  - destruct (assignSavedLocations p locations users) as [rest|]; [|discriminate].
    injection H as <-. cbn [map]. now rewrite (IH rest eq_refl).
Qed.

Lemma sessionKnown_updateUserSavedLocations (st : State) :
  sessionKnown st -> sessionKnown (updateUserSavedLocations st).
Proof.
  intros Hknown. unfold updateUserSavedLocations.
  destruct (currentUser st) as [session|] eqn:Huser; [|exact Hknown].
  destruct (assignSavedLocations _ _ _) as [users|] eqn:Hassign; [|exact Hknown].
  intros session' Hsession. rewrite storedUsers_set_users.
  rewrite (assignSavedLocations_sessions _ _ _ _ Hassign).
  apply Hknown. exact Hsession.
Qed.

Lemma sessionKnown_login (email password : string) (st : State) :
  sessionKnown st -> sessionKnown (login email password st).
Proof.
  intros Hknown. unfold login.
  destruct (find _ (storedUsers st)) as [user|] eqn:Hfind; [|exact Hknown].
  apply find_some in Hfind as [Hin _].
  intros session [= <-]. rewrite storedUsers_set_session.
  erewrite storedUsers_same_storage by reflexivity.
  apply in_map_iff. exists user. split; [reflexivity|exact Hin].
Qed.

Lemma sessionKnown_step (st st' : State) :
  step st st' -> inSync st -> sessionKnown st -> sessionKnown st'.
Proof.
  intros Hstep Hsync Hknown. destruct Hstep.
  - unfold register. destruct (find _ (storedUsers st)); [exact Hknown|].
    apply sessionKnown_login. intros session Hsession.
    rewrite storedUsers_set_users, map_app. apply in_or_app. left.
    now apply Hknown.
  - now apply sessionKnown_login.
  - intros session. discriminate.
  - unfold saveLocation.
    destruct (currentUser st) as [session|] eqn:Huser; [|exact Hknown].
    destruct location as [location|]; [|exact Hknown].
    destruct (find _ (savedLocations st)); [exact Hknown|].
    destruct (_ <=? _)%nat; [exact Hknown|].
    apply sessionKnown_updateUserSavedLocations.
    intros session' Hsession.
    erewrite storedUsers_same_storage by reflexivity.
    apply Hknown. cbn in Hsession. congruence.
  - unfold removeLocation.
    destruct (currentUser st) as [session|] eqn:Huser; [|exact Hknown].
    apply sessionKnown_updateUserSavedLocations.
    intros session' Hsession.
    erewrite storedUsers_same_storage by reflexivity.
    apply Hknown. cbn in Hsession. congruence.
  - rewrite (new_inSync st Hsync). exact Hknown.
Qed.

Lemma reachable_sessionKnown (st : State) :
  reachable st -> List.NoDup (map User.id (storedUsers st)) -> sessionKnown st.
Proof.
  induction 1 as [|st st' Hreach IH Hstep]; intros Hnd.
  - intros session. rewrite new_currentUser, lookup_empty. discriminate.
  - destruct (ids_step st st' Hstep) as [extra Hids]. rewrite Hids in Hnd.
    pose proof (List.NoDup_app_remove_r _ _ Hnd) as Hnd0.
    apply (sessionKnown_step st st' Hstep).
    + now apply reachable_inSync.
    + now apply IH.
Qed.

Lemma find_unique {A} (p : A -> bool) (l : list A) (x : A) :
  In x l -> p x = true -> (forall y, In y l -> p y = true -> y = x) ->
  find p l = Some x.
Proof.
  intros Hin Hp Hunique.
  destruct (find p l) as [y|] eqn:Hfind.
  - apply find_some in Hfind as [Hy Hpy]. now rewrite (Hunique y Hy Hpy).
  - rewrite (find_none _ _ Hfind x Hin) in Hp. discriminate.
Qed.

Lemma NoDup_map_eq {A B} (f : A -> B) (l : list A) (x y : A) :
  List.NoDup (map f l) -> In x l -> In y l -> f x = f y -> x = y.
Proof.
  induction l as [|a l IH]; [intros _ []|].
  cbn [map]. intros Hnd Hx Hy Heq.
  apply List.NoDup_cons_iff in Hnd as [Hnot Hnd].
  destruct Hx as [->|Hx], Hy as [->|Hy].
  - reflexivity.
  - exfalso. apply Hnot. rewrite Heq. apply in_map_iff. now exists y.
  - exfalso. apply Hnot. rewrite <- Heq. apply in_map_iff. now exists x.
  - now apply IH.
Qed.

(** Logging out and in again.  As long as no two registered users carry
    the same identifier, the session held in a state the service reaches is
    that of a registered user, whose stored record holds the saved locations
    in memory; and after a logout, logging in with that user's email and
    password gives back the same session and the same saved locations. *)
Theorem relogin_restores (st : State) (session : Object) :
  reachable st ->
  List.NoDup (map User.id (storedUsers st)) ->
  currentUser st = Some session ->
  exists user,
    In user (storedUsers st)
    /\ session = sessionOf user
    /\ User.savedLocations user = savedLocations st
    /\ (let st' := login (User.email user) (User.password user) (logout st) in
        currentUser st' = Some session
        /\ savedLocations st' = savedLocations st
        /\ alerted st' = alerted st).
Proof.
  intros Hreach Hnd Hsession.
  pose proof (reachable_sessionKnown st Hreach Hnd session Hsession) as Hknown.
  apply in_map_iff in Hknown as (user & Hof & Hin).
  pose proof (reachable_inSync st Hreach Hnd) as Hsync.
  unfold inSync in Hsync. rewrite Hsession in Hsync.
  destruct Hsync as (_ & found & Hfind & Hsaved).
  assert (Hfound : found = user).
  { apply find_some in Hfind as [Hin' Hcurrent].
    apply (NoDup_map_eq User.id (storedUsers st)); [exact Hnd|exact Hin'|exact Hin|].
    unfold isCurrent in Hcurrent. rewrite Hsession, <- Hof in Hcurrent.
    cbn in Hcurrent. now apply String.eqb_eq in Hcurrent. }
  subst found. exists user.
  split; [exact Hin|]. split; [now symmetry|]. split; [exact Hsaved|].
  cbv zeta.
  assert (Hlogin : find (credentialsMatch (User.email user) (User.password user))
                     (storedUsers (logout st)) = Some user).
  { rewrite storedUsers_logout. apply find_unique; [exact Hin| |].
    - unfold credentialsMatch. now rewrite !String.eqb_refl.
    - intros other Hother Hmatch. unfold credentialsMatch in Hmatch.
      apply andb_true_iff in Hmatch as [He _]. apply String.eqb_eq in He.
      exact (NoDup_map_eq User.email (storedUsers st) other user
               (reachable_emails st Hreach) Hother Hin He). }
  rewrite (login_found _ _ _ _ Hlogin).
  cbn [setStoredItem currentUser savedLocations alerted logout removeStoredItem].
  rewrite Hof, Hsaved. repeat split.
Qed.

End Relogin.

Lemma relogin_restores_witness :
  let st' := UserService.login "grace@example.org" "h0pper"
               (UserService.logout Cases.graceWithOne) in
  UserService.currentUser st' = UserService.currentUser Cases.graceWithOne
  /\ UserService.savedLocations st' = UserService.savedLocations Cases.graceWithOne
  /\ length (UserService.savedLocations Cases.graceWithOne) = 1%nat.
Proof.
  cbv zeta.
  destruct (relogin_restores Cases.graceWithOne
              [("id", "1700000000500"); ("name", "Grace"); ("email", "grace@example.org")]
              graceWithOne_reachable graceWithOne_ids eq_refl)
    as (user & Hin & Hof & _ & Hagain).
  assert (Huser : User.email user = "grace@example.org" /\ User.password user = "h0pper").
  { vm_compute in Hin. destruct Hin as [<-|[<-|[]]].
    - vm_compute in Hof. discriminate.
    - split; reflexivity. }
  destruct Huser as [He Hp]. rewrite He, Hp in Hagain.
  destruct Hagain as (Hsession & Hsaved & _).
  split; [exact Hsession|]. split; [exact Hsaved|]. vm_compute. reflexivity.
Defined.

(** ** Two users with one identifier *)

Section SharedIdentifier.

Import UserService.

Lemma assignSavedLocations_first (p : User.t -> bool) (locations : list SavedLocation.t)
  (before rest : list User.t) (first : User.t) :
  (forall user, In user before -> p user = false) -> p first = true ->
  assignSavedLocations p locations (before ++ first :: rest)%list
  = Some (before ++ withSavedLocations locations first :: rest)%list.
Proof.
  intros Hbefore Hfirst. induction before as [|u before IH]; cbn [app assignSavedLocations].
  - now rewrite Hfirst.
  - rewrite (Hbefore u) by now left.
    rewrite IH; [reflexivity|]. intros user Hin. apply Hbefore. now right.
Qed.

(** The saved list is written to the first stored user that carries the
    identifier of the session.  So when two registered users carry the same
    identifier (an identifier is the time of registration in milliseconds),
    a place saved by the later of the two goes into the record of the
    earlier one, and the later one's own record, from which the list is read
    at the next login, stays as it was. *)
Theorem same_identifier_shares_saved_locations (st : State)
  (before between after : list User.t) (first second : User.t)
  (location : Location) (now : Z) :
  currentUser st = Some (sessionOf second) ->
  storedUsers st = (before ++ first :: between ++ second :: after)%list ->
  User.id first = User.id second ->
  (forall user, In user before -> User.id user <> User.id second) ->
  alreadySaved location (savedLocations st) = false ->
  (length (savedLocations st) < CONFIG.UI.SAVED_LOCATIONS_LIMIT)%nat ->
  let st' := saveLocation (Some location) now st in
  savedLocations st' = (savedLocations st ++ [savedAs location now])%list
  /\ storedUsers st'
     = (before
        ++ withSavedLocations (savedLocations st ++ [savedAs location now]) first
        :: between ++ second :: after)%list.
Proof.
  intros Hsession Husers Hid Hbefore Hnew Hroom. cbv zeta.
  assert (Hsave : saveLocation (Some location) now st
                  = updateUserSavedLocations
                      {| currentUser := currentUser st;
                         savedLocations := (savedLocations st ++ [savedAs location now])%list;
                         localStorage := localStorage st;
                         alerted := alerted st |}).
  { unfold saveLocation, alreadySaved in *. rewrite Hsession.
    rewrite existsb_find in Hnew.
    destruct (find _ (savedLocations st)); [discriminate|].
    apply Nat.leb_gt in Hroom. rewrite Hroom. reflexivity. }
  rewrite Hsave.
  match goal with
  | |- context [updateUserSavedLocations ?s] => set (st1 := s)
  end.
  assert (Husers1 : storedUsers st1 = (before ++ first :: between ++ second :: after)%list)
    by (rewrite <- Husers; apply storedUsers_same_storage; reflexivity).
  assert (Hcurrent : forall user,
             isCurrent st1 user = String.eqb (User.id user) (User.id second)).
  { intros user. unfold isCurrent. cbn [st1 currentUser]. rewrite Hsession. reflexivity. }
  assert (Hassign : assignSavedLocations (isCurrent st1) (savedLocations st1)
                      (storedUsers st1)
                    = Some (before
                            ++ withSavedLocations (savedLocations st1) first
                            :: between ++ second :: after)%list).
  { rewrite Husers1. apply assignSavedLocations_first.
    - intros user Hin. rewrite Hcurrent. apply String.eqb_neq. now apply Hbefore.
    - rewrite Hcurrent. now apply String.eqb_eq. }
  unfold updateUserSavedLocations. cbn [st1 currentUser] in *. rewrite Hsession.
  fold st1. rewrite Hassign. split; [reflexivity|].
  now rewrite storedUsers_set_users.
Qed.

End SharedIdentifier.

Lemma same_identifier_shares_saved_locations_witness :
  let st' := UserService.saveLocation (Some (Scenario.place 9)) 1700000005000
               Cases.bobSameMillisecond in
  UserService.reachable st'
  /\ map User.id (UserService.storedUsers st') = ["1700000000000"; "1700000000000"]
  /\ map (fun user => (User.name user, length (User.savedLocations user)))
       (UserService.storedUsers st')
     = [("Ada", 1%nat); ("Bob", 0%nat)]
  /\ UserService.savedLocations st' = [savedAs (Scenario.place 9) 1700000005000]
  /\ UserService.savedLocations
       (UserService.login "bob@example.org" "builder" (UserService.logout st')) = [].
Proof.
  cbv zeta.
  set (ada := {| User.id := "1700000000000"; User.name := "Ada";
                 User.email := "ada@example.org"; User.password := "s3cret";
                 User.savedLocations := [] |}).
  set (bob := {| User.id := "1700000000000"; User.name := "Bob";
                 User.email := "bob@example.org"; User.password := "builder";
                 User.savedLocations := [] |}).
  destruct (same_identifier_shares_saved_locations Cases.bobSameMillisecond
              [] [] [] ada bob (Scenario.place 9) 1700000005000)
    as [Hsaved Husers]; try (vm_compute; reflexivity).
  { intros user []. }
  { vm_compute. lia. }
  split; [|split; [|split; [|split]]].
  - eapply UserService.reachable_step; [|apply UserService.step_saveLocation].
    eapply UserService.reachable_step; [|apply UserService.step_register].
    exact adaLoggedOut_reachable.
  - rewrite Husers. reflexivity.
  - rewrite Husers. vm_compute. reflexivity.
  - rewrite Hsaved. vm_compute. reflexivity.
  - vm_compute. reflexivity.
Defined.
